(** * AlgoT I/O scheduler (algot-iosched.c): model and checked properties

    The elevator keeps two intrusive lists ([wait_queue], [sort_queue]),
    an array [sorted] of request pointers in C-SCAN order with the two
    sentinel pointers MERGED (0x0) and DISPATCHED (0x1), and a flat cost
    matrix filled by dynamic programming.  Each C function is rendered
    below as a function on the record [algot_data]; code that can hit
    BUG(), or whose behaviour C leaves undefined, returns an [outcome]. *)

From Stdlib Require Import ZArith List Lia Bool.
From stdpp Require Import base gmap list sorting.
Import ListNotations.
Open Scope Z_scope.

(** ** Outcomes of the C code *)

Inductive outcome (A : Type) : Type :=
| Ok (a : A)   (* the function returns normally *)
| Bug          (* BUG() or BUG_ON() fired *)
| Undef        (* the C code has no defined behaviour here: a load or
                  store through a null or sentinel pointer that traps,
                  an array index outside the allocated block, or a read
                  of a cell that was never written *)
| NoFuel.      (* the model's iteration budget ran out *)
Arguments Ok {A} a.
Arguments Bug {A}.
Arguments Undef {A}.
Arguments NoFuel {A}.

Definition obind {A B} (m : outcome A) (f : A → outcome B) : outcome B :=
  match m with
  | Ok a => f a
  | Bug => Bug
  | Undef => Undef
  | NoFuel => NoFuel
  end.

Notation "'do' x <- m ; k" := (obind m (fun x => k))
  (at level 10, x name, m at level 100, k at level 200).
Notation "'do' ' p <- m ; k" := (obind m (fun p => k))
  (at level 10, p pattern, m at level 100, k at level 200).

Fixpoint foldM {A B} (f : B → A → outcome B) (l : list A) (b : B) : outcome B :=
  match l with
  | [] => Ok b
  | a :: l' => do b' <- f b a; foldM f l' b'
  end.

(** ** Machine integers *)

(** [unsigned int] and [int] are 32 bits wide, [sector_t] and [long] 64
    bits.  [u32] and [s32] reduce a result to the range of [unsigned int]
    and of [int]: the kernel is compiled with -fno-strict-overflow, so
    signed arithmetic wraps around like unsigned arithmetic. *)
Definition u32 (x : Z) : Z := x mod 2 ^ 32.
Definition s32 (x : Z) : Z := (x + 2 ^ 31) mod 2 ^ 32 - 2 ^ 31.
Definition INT_MAX : Z := 2 ^ 31 - 1.
Definition INT_MIN : Z := - 2 ^ 31.
Definition u64 (x : Z) : Z := x mod 2 ^ 64.
Definition s64 (x : Z) : Z := (x + 2 ^ 63) mod 2 ^ 64 - 2 ^ 63.

(** The kernel's [abs(x)] macro (linux/kernel.h) copies its operand into
    a signed variable of the operand's width and negates it when
    negative.  [abs_int] is its use on an [unsigned int] expression,
    [abs_long] on a [sector_t] expression. *)
Definition abs_int (x : Z) : Z := Z.abs (s32 x).
Definition abs_long (x : Z) : Z := Z.abs (s64 x).

(** ** Data *)

(** A request is known by its pointer ([rq_id]) and the sector
    [blk_rq_pos] reads from it, which does not change while it is queued. *)
Record request := { rq_id : nat; rq_sector : Z }.

Definition blk_rq_pos (rq : request) : Z := rq_sector rq.

(** request->elevator_private[0]:
    ALGOT_PRI0_UNSORTED is (void* )-2, ALGOT_PRI0_SORTED is (void* )-1,
    every other value is an index into [sorted]. *)
Inductive pri0 : Type :=
| ALGOT_PRI0_UNSORTED
| ALGOT_PRI0_SORTED
| PRI0_IDX (i : Z).

(** A cell of [sorted]: ALGOT_REF_MERGED is the pointer 0x0,
    ALGOT_REF_DISPATCHED the pointer 0x1, anything else points to a
    request. *)
Inductive slot : Type :=
| ALGOT_REF_MERGED
| ALGOT_REF_DISPATCHED
| REF_RQ (rq : request).

Definition is_merged (p : slot) : bool :=
  match p with ALGOT_REF_MERGED => true | _ => false end.

Definition ALGOT_CALC_MAX : Z := 128.
Definition ALGOT_DIRTY_COUNT : Z := 8.
Definition ALGOT_DIRTY_RESET : Z := ALGOT_DIRTY_COUNT - 1.

(** [struct algot_data].  The two lists hold the requests in list order.
    [sorted] and [cost_matrix] map an index to the cell's content; an
    index that was never stored to has no entry.  [nsorted], [opt_s],
    [opt_e] and [opt_ns] are [unsigned int]: the functions below reduce
    them modulo 2^32 where the C arithmetic does.  [dirty] is an [int]:
    its increment at line 96 is reduced to the range of [int], so that
    INT_MAX wraps to INT_MIN.
    [elevator_private] is not a field of the C struct: it collects the
    [elevator_private[0]] words, which live inside the requests, keyed by
    [rq_id]. *)
Record algot_data := {
  wait_queue : list request;
  sort_queue : list request;
  sorted : gmap Z slot;
  cost_matrix : gmap Z Z;
  rw_head : Z;
  nsorted : Z;
  opt_s : Z;
  opt_e : Z;
  opt_ns : Z;
  dirty : Z;
  vloc : bool;
  elevator_private : nat → pri0
}.

Definition set_wait_queue (v : list request) (nd : algot_data) : algot_data :=
  {| wait_queue := v; sort_queue := sort_queue nd; sorted := sorted nd;
     cost_matrix := cost_matrix nd; rw_head := rw_head nd; nsorted := nsorted nd;
     opt_s := opt_s nd; opt_e := opt_e nd; opt_ns := opt_ns nd; dirty := dirty nd;
     vloc := vloc nd; elevator_private := elevator_private nd |}.

Definition set_sort_queue (v : list request) (nd : algot_data) : algot_data :=
  {| wait_queue := wait_queue nd; sort_queue := v; sorted := sorted nd;
     cost_matrix := cost_matrix nd; rw_head := rw_head nd; nsorted := nsorted nd;
     opt_s := opt_s nd; opt_e := opt_e nd; opt_ns := opt_ns nd; dirty := dirty nd;
     vloc := vloc nd; elevator_private := elevator_private nd |}.

Definition set_sorted (v : gmap Z slot) (nd : algot_data) : algot_data :=
  {| wait_queue := wait_queue nd; sort_queue := sort_queue nd; sorted := v;
     cost_matrix := cost_matrix nd; rw_head := rw_head nd; nsorted := nsorted nd;
     opt_s := opt_s nd; opt_e := opt_e nd; opt_ns := opt_ns nd; dirty := dirty nd;
     vloc := vloc nd; elevator_private := elevator_private nd |}.

Definition set_cost_matrix (v : gmap Z Z) (nd : algot_data) : algot_data :=
  {| wait_queue := wait_queue nd; sort_queue := sort_queue nd; sorted := sorted nd;
     cost_matrix := v; rw_head := rw_head nd; nsorted := nsorted nd;
     opt_s := opt_s nd; opt_e := opt_e nd; opt_ns := opt_ns nd; dirty := dirty nd;
     vloc := vloc nd; elevator_private := elevator_private nd |}.

Definition set_rw_head (v : Z) (nd : algot_data) : algot_data :=
  {| wait_queue := wait_queue nd; sort_queue := sort_queue nd; sorted := sorted nd;
     cost_matrix := cost_matrix nd; rw_head := v; nsorted := nsorted nd;
     opt_s := opt_s nd; opt_e := opt_e nd; opt_ns := opt_ns nd; dirty := dirty nd;
     vloc := vloc nd; elevator_private := elevator_private nd |}.

Definition set_nsorted (v : Z) (nd : algot_data) : algot_data :=
  {| wait_queue := wait_queue nd; sort_queue := sort_queue nd; sorted := sorted nd;
     cost_matrix := cost_matrix nd; rw_head := rw_head nd; nsorted := v;
     opt_s := opt_s nd; opt_e := opt_e nd; opt_ns := opt_ns nd; dirty := dirty nd;
     vloc := vloc nd; elevator_private := elevator_private nd |}.

Definition set_opt_s (v : Z) (nd : algot_data) : algot_data :=
  {| wait_queue := wait_queue nd; sort_queue := sort_queue nd; sorted := sorted nd;
     cost_matrix := cost_matrix nd; rw_head := rw_head nd; nsorted := nsorted nd;
     opt_s := v; opt_e := opt_e nd; opt_ns := opt_ns nd; dirty := dirty nd;
     vloc := vloc nd; elevator_private := elevator_private nd |}.

Definition set_opt_e (v : Z) (nd : algot_data) : algot_data :=
  {| wait_queue := wait_queue nd; sort_queue := sort_queue nd; sorted := sorted nd;
     cost_matrix := cost_matrix nd; rw_head := rw_head nd; nsorted := nsorted nd;
     opt_s := opt_s nd; opt_e := v; opt_ns := opt_ns nd; dirty := dirty nd;
     vloc := vloc nd; elevator_private := elevator_private nd |}.

Definition set_opt_ns (v : Z) (nd : algot_data) : algot_data :=
  {| wait_queue := wait_queue nd; sort_queue := sort_queue nd; sorted := sorted nd;
     cost_matrix := cost_matrix nd; rw_head := rw_head nd; nsorted := nsorted nd;
     opt_s := opt_s nd; opt_e := opt_e nd; opt_ns := v; dirty := dirty nd;
     vloc := vloc nd; elevator_private := elevator_private nd |}.

Definition set_dirty (v : Z) (nd : algot_data) : algot_data :=
  {| wait_queue := wait_queue nd; sort_queue := sort_queue nd; sorted := sorted nd;
     cost_matrix := cost_matrix nd; rw_head := rw_head nd; nsorted := nsorted nd;
     opt_s := opt_s nd; opt_e := opt_e nd; opt_ns := opt_ns nd; dirty := v;
     vloc := vloc nd; elevator_private := elevator_private nd |}.

Definition set_vloc (v : bool) (nd : algot_data) : algot_data :=
  {| wait_queue := wait_queue nd; sort_queue := sort_queue nd; sorted := sorted nd;
     cost_matrix := cost_matrix nd; rw_head := rw_head nd; nsorted := nsorted nd;
     opt_s := opt_s nd; opt_e := opt_e nd; opt_ns := opt_ns nd; dirty := dirty nd;
     vloc := v; elevator_private := elevator_private nd |}.

(** rq->elevator_private[0] = v *)
Definition set_private (rq : request) (v : pri0) (nd : algot_data) : algot_data :=
  {| wait_queue := wait_queue nd; sort_queue := sort_queue nd; sorted := sorted nd;
     cost_matrix := cost_matrix nd; rw_head := rw_head nd; nsorted := nsorted nd;
     opt_s := opt_s nd; opt_e := opt_e nd; opt_ns := opt_ns nd; dirty := dirty nd;
     vloc := vloc nd;
     elevator_private :=
       fun k => if Nat.eqb k (rq_id rq) then v else elevator_private nd k |}.

(** ** The intrusive lists *)

(** The walk of [algot_sort_in] (lines 89-94): stop at the first entry
    whose sector is greater than [pos] and link [rq] in front of it; when
    the walk ends without a hit the cursor is the list head and
    [list_add_tail] appends. *)
Fixpoint list_add_before_greater (pos : Z) (rq : request) (l : list request)
  : list request :=
  match l with
  | [] => [rq]
  | req :: l' =>
      if blk_rq_pos req >? pos then rq :: req :: l'
      else req :: list_add_before_greater pos rq l'
  end.

(** [list_del_init(&rq->queuelist)] unlinks [rq] from the list it is on. *)
Fixpoint unlink (rq : request) (l : list request) : list request :=
  match l with
  | [] => []
  | req :: l' =>
      if Nat.eqb (rq_id req) (rq_id rq) then unlink rq l' else req :: unlink rq l'
  end.

Definition list_del_init (rq : request) (nd : algot_data) : algot_data :=
  set_sort_queue (unlink rq (sort_queue nd))
    (set_wait_queue (unlink rq (wait_queue nd)) nd).

Definition list_empty (l : list request) : bool :=
  match l with [] => true | _ => false end.

(** ** The scheduler functions *)

Section Algot.

(** [calc_max] is the bound ALGOT_CALC_MAX the source compiles in (128,
    see [ALGOT_CALC_MAX]); the functions are stated for any value of it.
    [wild_load a] is what a load of [__sector] through the non-request
    pointer [a] (0x0 or 0x1) yields: [None] when the access traps,
    [Some v] when it reads the value [v]. *)
Variable calc_max : Z.
Variable wild_load : Z → option Z.

(** *** Array cells *)

(** sorted[i], read *)
Definition sorted_get (sa : gmap Z slot) (i : Z) : outcome slot :=
  if (0 <=? i) && (i <? calc_max) then
    match sa !! i with
    | Some p => Ok p
    | None => Undef
    end
  else Undef.

(** sorted[i] = p *)
Definition sorted_put (sa : gmap Z slot) (i : Z) (p : slot) : outcome (gmap Z slot) :=
  if (0 <=? i) && (i <? calc_max) then Ok (<[i := p]> sa) else Undef.

(** blk_rq_pos(sorted[i]) *)
Definition sorted_pos (sa : gmap Z slot) (i : Z) : outcome Z :=
  do p <- sorted_get sa i;
  match p with
  | REF_RQ rq => Ok (blk_rq_pos rq)
  | ALGOT_REF_MERGED =>
      match wild_load 0 with Some v => Ok v | None => Undef end
  | ALGOT_REF_DISPATCHED =>
      match wild_load 1 with Some v => Ok v | None => Undef end
  end.

(** MATRIX(matrix, width, i, j): the flat index, computed in
    [unsigned int]. *)
Definition MATRIX (width i j : Z) : Z := u32 (i * width + j).

Definition matrix_get (mx : gmap Z Z) (k : Z) : outcome Z :=
  match mx !! k with
  | Some v => Ok v
  | None => Undef
  end.

(** MIN(a,b) expands to (a<b)?a:b *)
Definition MIN (a b : Z) : Z := if a <? b then a else b.

(** *** algot_sort_in (lines 82-97) *)

(** Lines 95 and 96 increment an [unsigned int] and an [int]: [nsorted]
    wraps from 2^32 - 1 to 0 and [dirty] from INT_MAX to INT_MIN. *)
Definition algot_sort_in (nd : algot_data) (rq : request) : algot_data :=
  let nd := set_private rq ALGOT_PRI0_SORTED nd in
  let pos := blk_rq_pos rq in
  let nd := set_sort_queue (list_add_before_greater pos rq (sort_queue nd)) nd in
  let nd := set_nsorted (u32 (nsorted nd + 1)) nd in
  set_dirty (s32 (dirty nd + 1)) nd.

(** The loop shared by [algot_add_request] (lines 121-126) and
    [algot_program] (lines 160-165): while the wait queue is not empty
    and [nsorted < ALGOT_CALC_MAX], unlink its first request and sort it
    in.  [wq] is the part of the wait queue not yet visited. *)
Fixpoint drain_wait_queue (wq : list request) (nd : algot_data) : algot_data :=
  match wq with
  | [] => set_wait_queue [] nd
  | req :: wq' =>
      if nsorted nd <? calc_max then
        drain_wait_queue wq' (algot_sort_in (set_wait_queue wq' nd) req)
      else set_wait_queue wq nd
  end.

(** *** algot_merged_requests (lines 99-115) *)

Definition algot_merged_requests (nd : algot_data) (rq next : request)
  : outcome algot_data :=
  let ref := elevator_private nd (rq_id next) in
  do nd <- match ref with
           | ALGOT_PRI0_UNSORTED => Ok nd
           | ALGOT_PRI0_SORTED => Ok (set_nsorted (u32 (nsorted nd - 1)) nd)
           | PRI0_IDX i =>
               let nd := set_nsorted (u32 (nsorted nd - 1)) nd in
               if i >? calc_max then Bug
               else
                 do sa <- sorted_put (sorted nd) i ALGOT_REF_MERGED;
                 Ok (set_sorted sa nd)
           end;
  Ok (list_del_init next nd).

(** *** algot_add_request (lines 117-135) *)

Definition algot_add_request (nd : algot_data) (rq : request) : algot_data :=
  let nd := drain_wait_queue (wait_queue nd) nd in
  if list_empty (wait_queue nd) && (nsorted nd <? calc_max) then
    algot_sort_in nd rq
  else
    let nd := set_private rq ALGOT_PRI0_UNSORTED nd in
    set_wait_queue (wait_queue nd ++ [rq]) nd.

(** *** sect_dist (lines 140-148) *)

Definition sect_dist (sa : gmap Z slot) (i j : Z) : outcome Z :=
  do pi <- sorted_pos sa i;
  do pj <- sorted_pos sa j;
  Ok (u64 (abs_long (pi - pj))).

(** *** algot_program (lines 150-203) *)

(** First walk (lines 169-176): every request above the head, in list
    order, gets the next index. *)
Fixpoint program_above (head : Z) (l : list request) (idx : Z) (nd : algot_data)
  : outcome (Z * algot_data) :=
  match l with
  | [] => Ok (idx, nd)
  | req :: l' =>
      if blk_rq_pos req >? head then
        let nd := set_private req (PRI0_IDX idx) nd in
        do sa <- sorted_put (sorted nd) idx (REF_RQ req);
        program_above head l' (idx + 1) (set_sorted sa nd)
      else program_above head l' idx nd
  end.

(** Second walk (lines 177-183): the requests from the front of the list
    up to the first one above the head. *)
Fixpoint program_below (head : Z) (l : list request) (idx : Z) (nd : algot_data)
  : outcome (Z * algot_data) :=
  match l with
  | [] => Ok (idx, nd)
  | req :: l' =>
      if blk_rq_pos req >? head then Ok (idx, nd)
      else
        let nd := set_private req (PRI0_IDX idx) nd in
        do sa <- sorted_put (sorted nd) idx (REF_RQ req);
        program_below head l' (idx + 1) (set_sorted sa nd)
  end.

(** Lines 185-186. *)
Definition program_diagonal (ns : Z) (mx : gmap Z Z) : gmap Z Z :=
  fold_left (fun mx i => <[MATRIX ns i i := 0]> mx) (seqZ 0 ns) mx.

(** Body of the inner loop (lines 190-197) for one [k] and [i]. *)
Definition program_cell (sa : gmap Z slot) (ns k : Z) (mx : gmap Z Z) (i : Z)
  : outcome (gmap Z Z) :=
  let j := k + i in
  do d <- sect_dist sa i (i + 1);
  do m <- matrix_get mx (MATRIX ns (i + 1) j);
  let cl := u64 (k * d + m) in
  do d <- sect_dist sa i j;
  do m <- matrix_get mx (MATRIX ns j (i + 1));
  let cr := u64 (k * d + m) in
  let mx := <[MATRIX ns i j := MIN cl cr]> mx in
  do d <- sect_dist sa j (j - 1);
  do m <- matrix_get mx (MATRIX ns (j - 1) i);
  let cl := u64 (k * d + m) in
  do d <- sect_dist sa i j;
  do m <- matrix_get mx (MATRIX ns i (j - 1));
  let cr := u64 (k * d + m) in
  Ok (<[MATRIX ns j i := MIN cl cr]> mx).

(** Lines 188-199: k = 1 .. ns, i = 0 .. ns-k-1. *)
Definition program_matrix (sa : gmap Z slot) (ns : Z) (mx : gmap Z Z)
  : outcome (gmap Z Z) :=
  foldM (fun mx k => foldM (program_cell sa ns k) (seqZ 0 (ns - k)) mx)
        (seqZ 1 ns) mx.

(** The cells written for a table of width [ns] are MATRIX(mx, ns, i, j)
    with i, j < ns, the last one at flat index ns*ns-1; they lie inside
    the ms*ms block allocated by [algot_init_queue] exactly when
    [ns <= ms].  The model makes that test once, before the fills. *)
Definition algot_program (nd : algot_data) : outcome algot_data :=
  let head := rw_head nd in
  let nd := drain_wait_queue (wait_queue nd) nd in
  let ns := nsorted nd in
  let nd := set_opt_ns ns nd in
  do '(idx, nd) <- program_above head (sort_queue nd) 0 nd;
  do '(idx, nd) <- program_below head (sort_queue nd) idx nd;
  if calc_max <? ns then Undef
  else
    let mx := program_diagonal ns (cost_matrix nd) in
    do mx <- program_matrix (sorted nd) ns mx;
    let nd := set_cost_matrix mx nd in
    let nd := set_opt_s 0 nd in
    let nd := set_opt_e (u32 (ns - 1)) nd in
    Ok (set_dirty 0 nd).

(** *** pick_opt (lines 205-265) *)

(** The two loops of lines 218-222: [next] is s+1 or e-1 in
    [unsigned int].  Each round reads one more cell of [sorted], so
    [calc_max] rounds are enough (lemmas [skip_forward_fuel] and
    [skip_backward_fuel]). *)
Fixpoint skip_merged (sa : gmap Z slot) (next : Z → Z) (fuel : nat) (s : Z)
  : outcome Z :=
  do p <- sorted_get sa s;
  if is_merged p then
    match fuel with
    | O => NoFuel
    | S fuel' => skip_merged sa next fuel' (next s)
    end
  else Ok s.

(** Lines 224-248: the index picked, the updated bounds and dirty flag. *)
Definition pick_index (nd : algot_data) : outcome (Z * algot_data) :=
  let matrix := cost_matrix nd in
  let sa := sorted nd in
  let head := rw_head nd in
  let cnt := opt_ns nd in
  do s <- skip_merged sa (fun s => u32 (s + 1)) (S (Z.to_nat calc_max)) (opt_s nd);
  do e <- skip_merged sa (fun e => u32 (e - 1)) (S (Z.to_nat calc_max)) (opt_e nd);
  if negb (s =? e) then
    do ps <- sorted_pos sa s;
    do ml <- matrix_get matrix (MATRIX cnt s e);
    let val_l := u64 (abs_int (u32 (e - s + 1)) * abs_long (u64 (head - ps)) + ml) in
    do pe <- sorted_pos sa e;
    do mr <- matrix_get matrix (MATRIX cnt e s);
    let val_r := u64 (abs_int (u32 (e - s + 1)) * abs_long (u64 (head - pe)) + mr) in
    if val_l <=? val_r then Ok (s, set_opt_s (u32 (s + 1)) nd)
    else Ok (e, set_opt_e (u32 (e - 1)) nd)
  else Ok (s, set_dirty ALGOT_DIRTY_COUNT nd).

(** [fuel] bounds the depth of the call at line 256. *)
Fixpoint pick_opt (fuel : nat) (nd : algot_data) : outcome (request * algot_data) :=
  do '(i, nd) <- pick_index nd;
  do rq <- sorted_get (sorted nd) i;
  match rq with
  | ALGOT_REF_DISPATCHED => Bug
  | ALGOT_REF_MERGED =>
      match fuel with
      | O => NoFuel
      | S fuel' => pick_opt fuel' nd
      end
  | REF_RQ rq =>
      do sa <- sorted_put (sorted nd) i ALGOT_REF_DISPATCHED;
      let nd := set_sorted sa nd in
      let nd := set_rw_head (blk_rq_pos rq) nd in
      let nd := list_del_init rq nd in
      let nd := set_nsorted (u32 (nsorted nd - 1)) nd in
      Ok (rq, nd)
  end.

(** *** algot_dispatch (lines 267-282) *)

(** [Ok (Some rq, nd)]: [rq] was handed to elv_dispatch_sort and 1 is
    returned; [Ok (None, nd)]: 0 is returned. *)
Definition algot_dispatch (nd : algot_data) : outcome (option request * algot_data) :=
  if negb (list_empty (sort_queue nd)) || negb (list_empty (wait_queue nd)) then
    do nd <- (if ALGOT_DIRTY_COUNT <=? dirty nd then algot_program nd else Ok nd);
    do '(rq, nd) <- pick_opt (S (Z.to_nat calc_max)) nd;
    Ok (Some rq, nd)
  else Ok (None, nd).

(** *** algot_init_queue (lines 304-332) *)

(** Whether each allocation call of [algot_init_queue] succeeds. *)
Record allocations := {
  kmalloc_nd : bool;          (* line 309 *)
  kmalloc_cost_matrix : bool; (* line 317 *)
  vmalloc_cost_matrix : bool; (* line 320 *)
  kmalloc_sorted : bool       (* line 323 *)
}.

(** A store to a field of [*nd]: undefined when [nd] is NULL. *)
Definition store_nd (nd : option algot_data) (f : algot_data → algot_data)
  : outcome (option algot_data) :=
  match nd with
  | Some d => Ok (Some (f d))
  | None => Undef
  end.

(** [mem] is the block kmalloc hands back for [*nd], with whatever
    contents it has: kmalloc does not clear it, so the fields the
    function does not assign ([opt_s], [opt_e], [opt_ns]) keep them.
    The two arrays are fresh blocks in which no cell has been written.
    [Ok None] is the return of NULL at line 328. *)
Definition algot_init_queue (a : allocations) (mem : algot_data)
  : outcome (option algot_data) :=
  let nd := if kmalloc_nd a then Some mem else None in
  do nd <- store_nd nd (set_nsorted 0);
  do nd <- store_nd nd (set_rw_head 0);
  do nd <- store_nd nd (set_dirty (ALGOT_DIRTY_COUNT - 1));
  do nd <- store_nd nd (set_wait_queue []);
  do nd <- store_nd nd (set_sort_queue []);
  do nd <- store_nd nd (set_vloc false);
  let cost_matrix_ok := kmalloc_cost_matrix a in
  do nd <- store_nd nd (set_cost_matrix ∅);
  do '(cost_matrix_ok, nd) <-
    (if negb cost_matrix_ok then
       do nd <- store_nd nd (set_cost_matrix ∅);
       do nd <- store_nd nd (set_vloc true);
       Ok (vmalloc_cost_matrix a, nd)
     else Ok (cost_matrix_ok, nd));
  let sorted_ok := kmalloc_sorted a in
  do nd <- store_nd nd (set_sorted ∅);
  match nd with
  | Some d =>
      if negb sorted_ok || negb cost_matrix_ok then Ok None else Ok (Some d)
  | None => Ok None
  end.

(** *** algot_exit_queue (lines 334-345) *)

Definition algot_exit_queue (nd : algot_data) : outcome unit :=
  if negb (list_empty (sort_queue nd)) then Bug
  else Ok tt.

End Algot.

(** *** algot_former_request and algot_latter_request (lines 284-302) *)

(** The place of [rq] on the list [l]. *)
Fixpoint position (rq : request) (l : list request) : option nat :=
  match l with
  | [] => None
  | r :: l' =>
      if Nat.eqb (rq_id r) (rq_id rq) then Some O
      else option_map S (position rq l')
  end.

(** [rq->queuelist.prev] and [rq->queuelist.next] for a request on the
    list [l]; [None] stands for the list head. *)
Definition list_prev (l : list request) (i : nat) : option request :=
  match i with
  | O => None
  | S j => l !! j
  end.

Definition list_next (l : list request) (i : nat) : option request := l !! S i.

(** The list [rq] is linked on, with its place there.  A request on
    neither list has links the scheduler does not own (after
    [pick_opt] it is on the dispatch list of the block layer): the two
    functions below are not defined for it. *)
Definition list_of (nd : algot_data) (rq : request) : outcome (list request * nat) :=
  match position rq (sort_queue nd) with
  | Some i => Ok (sort_queue nd, i)
  | None =>
      match position rq (wait_queue nd) with
      | Some i => Ok (wait_queue nd, i)
      | None => Undef
      end
  end.

(** algot_former_request (lines 284-292): NULL ([None]) when the
    predecessor is the head of either list. *)
Definition algot_former_request (nd : algot_data) (rq : request)
  : outcome (option request) :=
  do '(l, i) <- list_of nd rq;
  Ok (list_prev l i).

(** algot_latter_request (lines 294-302). *)
Definition algot_latter_request (nd : algot_data) (rq : request)
  : outcome (option request) :=
  do '(l, i) <- list_of nd rq;
  Ok (list_next l i).

(** ** Runs of the scheduler *)

Definition all_allocated : allocations :=
  {| kmalloc_nd := true; kmalloc_cost_matrix := true;
     vmalloc_cost_matrix := true; kmalloc_sorted := true |}.

(** A block of memory with nothing in it, and the state
    [algot_init_queue] makes of a block. *)
Definition blank_memory : algot_data :=
  {| wait_queue := []; sort_queue := []; sorted := ∅; cost_matrix := ∅;
     rw_head := 0; nsorted := 0; opt_s := 0; opt_e := 0; opt_ns := 0;
     dirty := 0; vloc := false; elevator_private := fun _ => PRI0_IDX 0 |}.

(** The state [algot_init_queue] builds in the block [mem] when every
    allocation succeeds. *)
Definition init_state (mem : algot_data) : algot_data :=
  set_sorted ∅ (set_cost_matrix ∅ (set_vloc false (set_sort_queue []
    (set_wait_queue [] (set_dirty ALGOT_DIRTY_RESET (set_rw_head 0
      (set_nsorted 0 mem))))))).

(** [n] calls of [algot_dispatch] in a row; the requests they hand out
    ([None] for a call that returns 0) and the state left. *)
Fixpoint dispatch_n (calc_max : Z) (wild_load : Z → option Z) (n : nat)
  (nd : algot_data) : outcome (list (option request) * algot_data) :=
  match n with
  | O => Ok ([], nd)
  | S n' =>
      do '(rq, nd) <- algot_dispatch calc_max wild_load nd;
      do '(l, nd) <- dispatch_n calc_max wild_load n' nd;
      Ok (rq :: l, nd)
  end.

(** The requests a run handed out, and the state it left ([d] when the
    run did not return). *)
Definition returned (o : outcome (list (option request) * algot_data))
  : outcome (list (option request)) :=
  do '(l, _) <- o; Ok l.

Definition state_of (o : outcome (list (option request) * algot_data))
  (d : algot_data) : algot_data :=
  match o with
  | Ok (_, nd) => nd
  | _ => d
  end.

Definition admit_all (calc_max : Z) (rqs : list request) (nd : algot_data)
  : algot_data :=
  fold_left (algot_add_request calc_max) rqs nd.

Definition mk_rq (id : nat) (sector : Z) : request :=
  {| rq_id := id; rq_sector := sector |}.

(** [rq] is on one of the scheduler's two lists. *)
Definition held (nd : algot_data) (rq : request) : bool :=
  existsb (fun r => Nat.eqb (rq_id r) (rq_id rq)) (sort_queue nd ++ wait_queue nd).

(** *** Scenario A *)

Definition scenario_A : list request :=
  [mk_rq 1 50; mk_rq 2 10; mk_rq 3 80; mk_rq 4 30].

(** *** A window emptied by a merge *)

(** Three requests are admitted and dispatched; two more ([mk_rq 4 10],
    [mk_rq 5 20]) are admitted, the first is dispatched, the second is
    merged away while it sits in the window; then [mk_rq 6 30] is
    admitted.  Every call is one the host may make. *)
Definition merge_drained_run (calc_max : Z) (wild_load : Z → option Z)
  (nd : algot_data) : outcome (list (option request) * algot_data) :=
  let nd := admit_all calc_max [mk_rq 1 5; mk_rq 2 6; mk_rq 3 7] nd in
  do '(l1, nd) <- dispatch_n calc_max wild_load 3 nd;
  let nd := admit_all calc_max [mk_rq 4 10; mk_rq 5 20] nd in
  do '(l2, nd) <- dispatch_n calc_max wild_load 1 nd;
  do nd <- algot_merged_requests calc_max nd (mk_rq 4 10) (mk_rq 5 20);
  let nd := algot_add_request calc_max nd (mk_rq 6 30) in
  Ok (l1 ++ l2, nd).

(** *** A full window and one request in the wait queue *)

Definition numbered_requests (n : nat) : list request :=
  map (fun i => mk_rq i (Z.of_nat i)) (seq 1 n).

(** ALGOT_CALC_MAX + 1 requests are admitted, then ALGOT_CALC_MAX are
    dispatched. *)
Definition overflow_left_run (wild_load : Z → option Z) (nd : algot_data)
  : outcome (list (option request) * algot_data) :=
  let nd := admit_all ALGOT_CALC_MAX (numbered_requests 129) nd in
  dispatch_n ALGOT_CALC_MAX wild_load 128 nd.

(** *** A merge notification for a request already dispatched *)

(** [mk_rq 1 10] and [mk_rq 2 20] are admitted and the first is
    dispatched. *)
Definition after_one_dispatch : outcome (list (option request) * algot_data) :=
  dispatch_n ALGOT_CALC_MAX (fun _ => None) 1
    (admit_all ALGOT_CALC_MAX [mk_rq 1 10; mk_rq 2 20] (init_state blank_memory)).

(** A merge notification for a request the scheduler does not hold
    changes nothing: the statement for one state and one pair of
    requests. *)
Definition notify_absent_is_noop (calc_max : Z) (nd : algot_data)
  (rq next : request) : Prop :=
  held nd next = false →
  ∃ nd', algot_merged_requests calc_max nd rq next = Ok nd' ∧
         nsorted nd' = nsorted nd ∧ sorted nd' = sorted nd ∧
         sort_queue nd' = sort_queue nd ∧ wait_queue nd' = wait_queue nd.

(** ** Invariants of the queues *)

Definition sector_le (a b : request) : Prop := rq_sector a ≤ rq_sector b.

(** The sort queue is in non-decreasing sector order. *)
Definition ascending (l : list request) : Prop := StronglySorted sector_le l.

(** What [algot_program] relies on when [algot_dispatch] calls it. *)
Record plan_ready (calc_max : Z) (nd : algot_data) : Prop := {
  pr_calc_max : 1 ≤ calc_max < 2 ^ 32;
  pr_count : nsorted nd = Z.of_nat (length (sort_queue nd));
  pr_bound : nsorted nd ≤ calc_max;
  pr_ascending : ascending (sort_queue nd);
  pr_distinct : NoDup (map rq_id (sort_queue nd ++ wait_queue nd));
  pr_pending : sort_queue nd ≠ [] ∨ wait_queue nd ≠ []
}.

(** The requests of [l] above the head, and those at or below it. *)
Definition above_head (head : Z) (l : list request) : list request :=
  filter (fun rq => head < rq_sector rq) l.

Definition below_head (head : Z) (l : list request) : list request :=
  filter (fun rq => rq_sector rq ≤ head) l.

(** C-SCAN order of an ascending list for an arm at [head]. *)
Definition cscan_order (head : Z) (l : list request) : list request :=
  above_head head l ++ below_head head l.

(** The stores of the two walks of [algot_program], without the bounds
    test: the requests of [l] go to [sorted[idx]], [sorted[idx+1]], ...
    and each records its index. *)
Fixpoint place_run (l : list request) (idx : Z) (nd : algot_data) : algot_data :=
  match l with
  | [] => nd
  | req :: l' =>
      place_run l' (idx + 1)
        (set_sorted (<[idx := REF_RQ req]> (sorted nd))
           (set_private req (PRI0_IDX idx) nd))
  end.

(** The front of [l] up to the first request above the head. *)
Fixpoint front_below (head : Z) (l : list request) : list request :=
  match l with
  | [] => []
  | req :: l' => if blk_rq_pos req >? head then [] else req :: front_below head l'
  end.

(** The live count agrees with the sort queue and stays within the bound. *)
Definition queue_count_ok (calc_max : Z) (nd : algot_data) : Prop :=
  0 ≤ nsorted nd ≤ calc_max ∧ nsorted nd = Z.of_nat (length (sort_queue nd)).

(** Every cell of the table of width [ns] whose two indices are less than
    [k] apart has been written. *)
Definition filled (ns k : Z) (mx : gmap Z Z) : Prop :=
  ∀ a b, 0 ≤ a < ns → 0 ≤ b < ns → Z.abs (a - b) < k →
         is_Some (mx !! MATRIX ns a b).

(** The first [ns] cells of [sorted] hold requests. *)
Definition window_live (calc_max : Z) (sa : gmap Z slot) (ns : Z) : Prop :=
  ∀ i, 0 ≤ i < ns → ∃ rq, sorted_get calc_max sa i = Ok (REF_RQ rq).

(** *** Two more states *)

(** Scenario A after its first dispatch, with the request at sector 30
    (index 1 of the window) merged away: sorted[1] is ALGOT_REF_MERGED. *)
Definition window_with_merged_slot : algot_data :=
  match
    (do '(_, nd) <- dispatch_n ALGOT_CALC_MAX (fun _ => None) 1
                      (admit_all ALGOT_CALC_MAX scenario_A (init_state blank_memory));
     algot_merged_requests ALGOT_CALC_MAX nd (mk_rq 1 50) (mk_rq 4 30))
  with
  | Ok nd => nd
  | _ => blank_memory
  end.

(** 129 requests admitted, the last of which went to the wait queue and
    was then merged away from there. *)
Definition wait_queue_request_absorbed : algot_data :=
  match
    algot_merged_requests ALGOT_CALC_MAX
      (admit_all ALGOT_CALC_MAX (numbered_requests 129) (init_state blank_memory))
      (mk_rq 128 128) (mk_rq 129 129)
  with
  | Ok nd => nd
  | _ => blank_memory
  end.

(** ** The state after a rebuild *)

(** What [algot_program] leaves when it completes: [nd1] is the state
    after the wait queue was drained, [head] the arm position, [mx] the
    matrix computed. *)
Definition rebuilt (head : Z) (mx : gmap Z Z) (nd1 : algot_data) : algot_data :=
  set_dirty 0
    (set_opt_e (nsorted nd1 - 1)
       (set_opt_s 0
          (set_cost_matrix mx
             (place_run (cscan_order head (sort_queue nd1)) 0
                (set_opt_ns (nsorted nd1) nd1))))).

(** ** Consistency of the scheduler state *)

(** A request on the sort queue is either not yet in the window (tagged
    ALGOT_PRI0_SORTED) or tagged with the index of the cell that points to
    it. *)
Definition tag_ok (calc_max : Z) (nd : algot_data) (r : request) : Prop :=
  elevator_private nd (rq_id r) = ALGOT_PRI0_SORTED ∨
  ∃ i, elevator_private nd (rq_id r) = PRI0_IDX i ∧ 0 ≤ i < calc_max ∧
       sorted nd !! i = Some (REF_RQ r).

(** The window left by the last rebuild: outside [opt_s, opt_e] the
    cells of the table are DISPATCHED or MERGED, inside they are MERGED or
    point to a request on the sort queue that records the cell's index. *)
Definition window_ok (calc_max : Z) (nd : algot_data) : Prop :=
  opt_ns nd ≤ calc_max ∧ 0 ≤ opt_s nd ∧ opt_e nd < opt_ns nd ∧
  (∀ i, 0 ≤ i < opt_s nd ∨ opt_e nd < i < opt_ns nd →
        sorted nd !! i = Some ALGOT_REF_DISPATCHED ∨
        sorted nd !! i = Some ALGOT_REF_MERGED) ∧
  (∀ i, opt_s nd ≤ i ≤ opt_e nd →
        sorted nd !! i = Some ALGOT_REF_MERGED ∨
        ∃ r, sorted nd !! i = Some (REF_RQ r) ∧ r ∈ sort_queue nd ∧
             elevator_private nd (rq_id r) = PRI0_IDX i) ∧
  (∀ r i, r ∈ sort_queue nd → elevator_private nd (rq_id r) = PRI0_IDX i →
          opt_s nd ≤ i ≤ opt_e nd).

(** The invariant of the scheduler.  The window part holds unless a
    rebuild is due ([dirty] has reached ALGOT_DIRTY_COUNT) or the
    scheduler has not been used yet. *)
Record consistent (calc_max : Z) (nd : algot_data) : Prop := {
  c_count : queue_count_ok calc_max nd;
  c_ascending : ascending (sort_queue nd);
  c_distinct : NoDup (map rq_id (sort_queue nd ++ wait_queue nd));
  c_wait_tag : ∀ r, r ∈ wait_queue nd →
                    elevator_private nd (rq_id r) = ALGOT_PRI0_UNSORTED;
  c_sort_tag : ∀ r, r ∈ sort_queue nd → tag_ok calc_max nd r;
  c_window : ALGOT_DIRTY_COUNT ≤ dirty nd ∨
             (dirty nd = ALGOT_DIRTY_RESET ∧ sort_queue nd = [] ∧ wait_queue nd = []) ∨
             window_ok calc_max nd
}.

(** The number of calls of [algot_sort_in] one call of
    [algot_add_request] makes: one for each waiting request and one for
    the new request, as far as the window has room. *)
Definition sort_ins (calc_max : Z) (nd : algot_data) : Z :=
  Z.max 0 (Z.min (Z.of_nat (length (wait_queue nd)) + 1) (calc_max - nsorted nd)).

(** The increments of [dirty] (line 96) that the next admission makes do
    not take it past INT_MAX. *)
Definition counter_has_room (calc_max : Z) (nd : algot_data) : Prop :=
  dirty nd + sort_ins calc_max nd ≤ INT_MAX.

(** The states the host can bring the scheduler to: it admits requests
    that are not queued, reports merges of requests that are queued, and
    asks for dispatches.  [dirty] is only reset by a dispatch, so 2^31
    sort-ins without one (merges making the room) would overflow it; the
    runs considered are those whose admissions leave it within [int]. *)
Inductive reachable (calc_max : Z) (wild_load : Z → option Z)
  : algot_data → Prop :=
| reach_init (mem : algot_data) :
    reachable calc_max wild_load (init_state mem)
| reach_admit (nd : algot_data) (rq : request) :
    reachable calc_max wild_load nd →
    rq_id rq ∉ map rq_id (sort_queue nd ++ wait_queue nd) →
    counter_has_room calc_max nd →
    reachable calc_max wild_load (algot_add_request calc_max nd rq)
| reach_merged (nd nd' : algot_data) (rq next : request) :
    reachable calc_max wild_load nd →
    next ∈ sort_queue nd ++ wait_queue nd →
    algot_merged_requests calc_max nd rq next = Ok nd' →
    reachable calc_max wild_load nd'
| reach_dispatch (nd nd' : algot_data) (rq : option request) :
    reachable calc_max wild_load nd →
    algot_dispatch calc_max wild_load nd = Ok (rq, nd') →
    reachable calc_max wild_load nd'.

(** ** What one call of pick_opt does *)

(** The cell [i] picked by [pick_index] lies in the window and points to a
    request of the sort queue.  [nd2] differs from [nd] by the bound that
    moved past [i], the cells skipped on the way being MERGED and the
    other end of the window still pointing to a request; or it differs by
    the dirty flag, when both ends met in one cell, every other cell of
    the window being MERGED. *)
Definition picked_in_window (calc_max : Z) (nd nd2 : algot_data) (i : Z) : Prop :=
  opt_s nd ≤ i ≤ opt_e nd ∧ 0 ≤ i < calc_max ∧
  (∃ r, sorted nd !! i = Some (REF_RQ r) ∧ r ∈ sort_queue nd ∧
        elevator_private nd (rq_id r) = PRI0_IDX i) ∧
  ((nd2 = set_opt_s (i + 1) nd ∧
    (∀ j, opt_s nd ≤ j < i → sorted nd !! j = Some ALGOT_REF_MERGED) ∧
    (∃ j r, i < j ≤ opt_e nd ∧ sorted nd !! j = Some (REF_RQ r))) ∨
   (nd2 = set_opt_e (i - 1) nd ∧
    (∀ j, i < j ≤ opt_e nd → sorted nd !! j = Some ALGOT_REF_MERGED) ∧
    (∃ j r, opt_s nd ≤ j < i ∧ sorted nd !! j = Some (REF_RQ r))) ∨
   (nd2 = set_dirty ALGOT_DIRTY_COUNT nd ∧
    (∀ j, opt_s nd ≤ j < i → sorted nd !! j = Some ALGOT_REF_MERGED) ∧
    (∀ j, i < j ≤ opt_e nd → sorted nd !! j = Some ALGOT_REF_MERGED))).

(** Lines 259-263, for the request [rq] found in cell [i]. *)
Definition dispatched (i : Z) (rq : request) (nd : algot_data) : algot_data :=
  let nd := set_sorted (<[i := ALGOT_REF_DISPATCHED]> (sorted nd)) nd in
  let nd := set_rw_head (blk_rq_pos rq) nd in
  let nd := list_del_init rq nd in
  set_nsorted (u32 (nsorted nd - 1)) nd.

(** ** Runs without merge notifications *)

(** Some cell of the window still points to a request. *)
Definition window_pending (nd : algot_data) : Prop :=
  ∃ i r, opt_s nd ≤ i ≤ opt_e nd ∧ sorted nd !! i = Some (REF_RQ r).

(** Every cell of the table of width [opt_ns] has been written. *)
Definition matrix_ready (nd : algot_data) : Prop :=
  filled (opt_ns nd) (opt_ns nd) (cost_matrix nd).

(** A consistent state in which the next [algot_dispatch] will find a
    request: a rebuild is due, or nothing was admitted yet, or the window
    of the last rebuild still has a request and its matrix is complete. *)
Definition serviceable (calc_max : Z) (nd : algot_data) : Prop :=
  consistent calc_max nd ∧
  (ALGOT_DIRTY_COUNT ≤ dirty nd ∨
   (dirty nd = ALGOT_DIRTY_RESET ∧ sort_queue nd = [] ∧ wait_queue nd = []) ∨
   (matrix_ready nd ∧ window_pending nd)).

(** As long as no request is merged away, [dirty] exceeds the live count
    by at most ALGOT_DIRTY_COUNT: a sort-in adds one to both, and a
    dispatch that takes one off the live count leaves [dirty] at most
    ALGOT_DIRTY_COUNT. *)
Definition counter_bounded (nd : algot_data) : Prop :=
  0 ≤ dirty nd ≤ ALGOT_DIRTY_COUNT + nsorted nd.

(** The states the host reaches by admissions and dispatches alone. *)
Inductive reachable_unmerged (calc_max : Z) (wild_load : Z → option Z)
  : algot_data → Prop :=
| unmerged_init (mem : algot_data) :
    reachable_unmerged calc_max wild_load (init_state mem)
| unmerged_admit (nd : algot_data) (rq : request) :
    reachable_unmerged calc_max wild_load nd →
    rq_id rq ∉ map rq_id (sort_queue nd ++ wait_queue nd) →
    reachable_unmerged calc_max wild_load (algot_add_request calc_max nd rq)
| unmerged_dispatch (nd nd' : algot_data) (rq : option request) :
    reachable_unmerged calc_max wild_load nd →
    algot_dispatch calc_max wild_load nd = Ok (rq, nd') →
    reachable_unmerged calc_max wild_load nd'.

(** A consistent state whose matrix is complete whenever the window of
    the last rebuild is in use. *)
Definition planned (calc_max : Z) (nd : algot_data) : Prop :=
  consistent calc_max nd ∧
  (ALGOT_DIRTY_COUNT ≤ dirty nd ∨
   (dirty nd = ALGOT_DIRTY_RESET ∧ sort_queue nd = [] ∧ wait_queue nd = []) ∨
   matrix_ready nd).

(** ** The cost matrix *)

(** The recurrence of lines 186-197 at the cell (a, b) of the table of
    width [ns]: 0 on the diagonal; above it the cheaper of serving cell
    a first from a+1 or from b; below it the mirror image. *)
Definition cell_rule (calc_max : Z) (wild_load : Z → option Z)
  (sa : gmap Z slot) (ns : Z) (mx : gmap Z Z) (a b : Z) : Prop :=
  match a ?= b with
  | Eq => mx !! MATRIX ns a b = Some 0
  | Lt =>
      ∃ d1 d2 m1 m2,
        sect_dist calc_max wild_load sa a (a + 1) = Ok d1 ∧
        sect_dist calc_max wild_load sa a b = Ok d2 ∧
        mx !! MATRIX ns (a + 1) b = Some m1 ∧
        mx !! MATRIX ns b (a + 1) = Some m2 ∧
        mx !! MATRIX ns a b
        = Some (MIN (u64 ((b - a) * d1 + m1)) (u64 ((b - a) * d2 + m2)))
  | Gt =>
      ∃ d1 d2 m1 m2,
        sect_dist calc_max wild_load sa a (a - 1) = Ok d1 ∧
        sect_dist calc_max wild_load sa b a = Ok d2 ∧
        mx !! MATRIX ns (a - 1) b = Some m1 ∧
        mx !! MATRIX ns b (a - 1) = Some m2 ∧
        mx !! MATRIX ns a b
        = Some (MIN (u64 ((a - b) * d1 + m1)) (u64 ((a - b) * d2 + m2)))
  end.

(** The recurrence holds at every cell whose indices are less than [k]
    apart, and at those exactly [k] apart in the rows before [m]. *)
Definition ruled (calc_max : Z) (wild_load : Z → option Z)
  (sa : gmap Z slot) (ns k m : Z) (mx : gmap Z Z) : Prop :=
  ∀ a b, 0 ≤ a < ns → 0 ≤ b < ns →
         Z.abs (a - b) < k ∨ (Z.abs (a - b) = k ∧ Z.min a b < m) →
         cell_rule calc_max wild_load sa ns mx a b.

(** ** More states *)

(** Two requests admitted to a fresh scheduler, and the state after the
    first of them has been dispatched. *)
Definition two_queued : algot_data :=
  algot_add_request ALGOT_CALC_MAX
    (algot_add_request ALGOT_CALC_MAX (init_state blank_memory) (mk_rq 1 10))
    (mk_rq 2 20).

Definition one_left : algot_data :=
  match algot_dispatch ALGOT_CALC_MAX (fun _ => None) two_queued with
  | Ok (_, nd) => nd
  | _ => blank_memory
  end.

(** With a bound of 2: three requests admitted (the third waits), one
    dispatched. *)
Definition one_waiting : algot_data :=
  state_of (dispatch_n 2 (fun _ => None) 1
              (admit_all 2 [mk_rq 1 10; mk_rq 2 20; mk_rq 3 30]
                 (init_state blank_memory)))
    blank_memory.

Definition none_left : algot_data :=
  match algot_dispatch ALGOT_CALC_MAX (fun _ => None) one_left with
  | Ok (_, nd) => nd
  | _ => blank_memory
  end.

(** Scenario A after its first dispatch: the rebuild has placed the four
    requests and the one at sector 10 has been handed out. *)
Definition scenario_A_started : algot_data :=
  state_of (dispatch_n ALGOT_CALC_MAX (fun _ => None) 1
              (admit_all ALGOT_CALC_MAX scenario_A (init_state blank_memory)))
    blank_memory.

(** The matrix allocated by vmalloc after kmalloc has failed. *)
Definition vmalloc_fallback : allocations :=
  {| kmalloc_nd := true; kmalloc_cost_matrix := false;
     vmalloc_cost_matrix := true; kmalloc_sorted := true |}.

(** The state the run [merge_drained_run] leaves when loads through the
    sentinel pointers trap. *)
Definition merge_drained_state : algot_data :=
  state_of (merge_drained_run ALGOT_CALC_MAX (fun _ => None) (init_state blank_memory))
    blank_memory.

(** *** A window whose lower end was merged away *)

(** [mk_rq 1 100] is admitted and dispatched; [mk_rq 2 200] and
    [mk_rq 3 90] are admitted and the dispatch that follows rebuilds the
    window (cell 0 for sector 200, cell 1 for sector 90) and hands out
    the request at sector 90 from its upper end; [mk_rq 4 300] is
    admitted, and [mk_rq 2 200] is merged into it while it sits in
    cell 0. *)
Definition backward_overrun_run (calc_max : Z) (wild_load : Z → option Z)
  (nd : algot_data) : outcome (list (option request) * algot_data) :=
  let nd := admit_all calc_max [mk_rq 1 100] nd in
  do '(l1, nd) <- dispatch_n calc_max wild_load 1 nd;
  let nd := admit_all calc_max [mk_rq 2 200; mk_rq 3 90] nd in
  do '(l2, nd) <- dispatch_n calc_max wild_load 1 nd;
  let nd := algot_add_request calc_max nd (mk_rq 4 300) in
  do nd <- algot_merged_requests calc_max nd (mk_rq 4 300) (mk_rq 2 200);
  Ok (l1 ++ l2, nd).

Definition backward_overrun_state : algot_data :=
  state_of (backward_overrun_run ALGOT_CALC_MAX (fun _ => None)
              (init_state blank_memory))
    blank_memory.

(** *** The dirty counter at INT_MAX *)





(** ** Proof steps *)

(** A decidable side condition on a closed state, settled by evaluation. *)
Ltac by_evaluation :=
  try unfold counter_has_room; eapply bool_decide_unpack; vm_compute; exact I.

(** * Properties *)

(** ** Initialisation *)

Lemma algot_init_queue_all_allocated (mem : algot_data) :
  algot_init_queue all_allocated mem = Ok (Some (init_state mem)).
Proof. reflexivity. Qed.

(** Case analysis on the low bits of a bound known to be at least 4:
    afterwards every comparison of 0 .. 7 with the bound computes. *)
Ltac capacity_cases c H :=
  destruct c as [|c|c]; [exfalso; lia| |exfalso; lia];
  destruct c as [[[c|c|]|[c|c|]|]|[[c|c|]|[c|c|]|]|];
  try (exfalso; clear -H; lia).

(** ** Scenario A *)

(** C1. A scheduler initialised by [algot_init_queue] has its arm at
    sector 0.  Whatever the bound [calc_max >= 4], after the four requests
    at sectors 50, 10, 80, 30 (requests 1 to 4) are admitted in that order,
    successive calls of [algot_dispatch] hand out the requests at sectors
    10, 30, 50, 80 in that order, and the fifth call returns 0. *)
Theorem scenario_A_dispatch_order
  (calc_max : Z) (wild_load : Z → option Z) (mem nd0 : algot_data) :
  4 ≤ calc_max →
  algot_init_queue all_allocated mem = Ok (Some nd0) →
  rw_head nd0 = 0 ∧
  returned (dispatch_n calc_max wild_load 5 (admit_all calc_max scenario_A nd0))
  = Ok [Some (mk_rq 2 10); Some (mk_rq 4 30); Some (mk_rq 1 50);
        Some (mk_rq 3 80); None].
Proof.
  intros Hcap Hinit.
  rewrite algot_init_queue_all_allocated in Hinit.
  injection Hinit as <-.
  split; [reflexivity|].
  capacity_cases calc_max Hcap; vm_compute; reflexivity.
Qed.

Lemma scenario_A_dispatch_order_witness :
  rw_head (init_state blank_memory) = 0 ∧
  returned (dispatch_n ALGOT_CALC_MAX (fun _ => None) 5
              (admit_all ALGOT_CALC_MAX scenario_A (init_state blank_memory)))
  = Ok [Some (mk_rq 2 10); Some (mk_rq 4 30); Some (mk_rq 1 50);
        Some (mk_rq 3 80); None].
Proof.
  apply (scenario_A_dispatch_order ALGOT_CALC_MAX (fun _ => None)
           blank_memory (init_state blank_memory)).
  - vm_compute. discriminate.
  - reflexivity.
Defined.

(** ** A window emptied by a merge notification *)

(** One unfolding of [pick_opt], whatever the budget. *)
Lemma pick_opt_unfold (calc_max : Z) (wild_load : Z → option Z) (fuel : nat)
  (nd : algot_data) :
  pick_opt calc_max wild_load fuel nd
  = (do '(i, nd) <- pick_index calc_max wild_load nd;
     do rq <- sorted_get calc_max (sorted nd) i;
     match rq with
     | ALGOT_REF_DISPATCHED => Bug
     | ALGOT_REF_MERGED =>
         match fuel with
         | O => NoFuel
         | S fuel' => pick_opt calc_max wild_load fuel' nd
         end
     | REF_RQ rq =>
         do sa <- sorted_put calc_max (sorted nd) i ALGOT_REF_DISPATCHED;
         let nd := set_sorted sa nd in
         let nd := set_rw_head (blk_rq_pos rq) nd in
         let nd := list_del_init rq nd in
         let nd := set_nsorted (u32 (nsorted nd - 1)) nd in
         Ok (rq, nd)
     end).
Proof. destruct fuel; reflexivity. Qed.

(** When both skipping loops of [pick_opt] come to rest on DISPATCHED
    cells, the call cannot return a request: the cost expressions load
    through the sentinel, and whichever end is picked trips BUG(). *)
Lemma pick_opt_dispatched_ends
  (calc_max : Z) (wild_load : Z → option Z) (fuel : nat) (nd : algot_data)
  (s e ml mr : Z) :
  skip_merged calc_max (sorted nd) (fun s => u32 (s + 1))
    (S (Z.to_nat calc_max)) (opt_s nd) = Ok s →
  skip_merged calc_max (sorted nd) (fun e => u32 (e - 1))
    (S (Z.to_nat calc_max)) (opt_e nd) = Ok e →
  (s =? e) = false →
  sorted_get calc_max (sorted nd) s = Ok ALGOT_REF_DISPATCHED →
  sorted_get calc_max (sorted nd) e = Ok ALGOT_REF_DISPATCHED →
  matrix_get (cost_matrix nd) (MATRIX (opt_ns nd) s e) = Ok ml →
  matrix_get (cost_matrix nd) (MATRIX (opt_ns nd) e s) = Ok mr →
  pick_opt calc_max wild_load fuel nd
  = match wild_load 1 with Some _ => Bug | None => Undef end.
Proof.
  intros Hs He Hne Hgs Hge Hml Hmr.
  rewrite pick_opt_unfold. unfold pick_index.
  rewrite Hs, He. cbn [obind]. rewrite Hne. cbn [negb].
  unfold sorted_pos. rewrite Hgs, Hge. cbn [obind].
  destruct (wild_load 1) as [v|]; [|reflexivity].
  cbn [obind]. rewrite Hml, Hmr. cbn [obind].
  match goal with |- context [if ?c then _ else _] => destruct c end;
    cbn [obind sorted set_opt_s set_opt_e]; [rewrite Hgs | rewrite Hge];
    reflexivity.
Qed.

(** C2. With the source's bound, the run [merge_drained_run] (admissions,
    dispatches and one merge notification for a request the scheduler
    holds) hands out requests 1 to 4 and leaves request 6 queued with
    [dirty = 1], so the next [algot_dispatch] does not rebuild the plan.
    In [pick_opt] the two skipping loops then stop at s = 2 and e = 0,
    both cells holding ALGOT_REF_DISPATCHED: the cost expressions of
    lines 226-227 load a sector through that pointer, and when the load
    returns a value the cell picked is a DISPATCHED one and BUG() at line
    252 fires; when it traps the call ends there.  In no case is request
    6 handed out. *)
Theorem merge_drained_window_revisits_dispatched
  (wild_load : Z → option Z) (mem : algot_data) :
  let run := merge_drained_run ALGOT_CALC_MAX wild_load (init_state mem) in
  let nd := state_of run mem in
  returned run = Ok [Some (mk_rq 1 5); Some (mk_rq 2 6); Some (mk_rq 3 7);
                     Some (mk_rq 4 10)] ∧
  sort_queue nd = [mk_rq 6 30] ∧ wait_queue nd = [] ∧ dirty nd = 1 ∧
  skip_merged ALGOT_CALC_MAX (sorted nd) (fun s => u32 (s + 1))
    (S (Z.to_nat ALGOT_CALC_MAX)) (opt_s nd) = Ok 2 ∧
  skip_merged ALGOT_CALC_MAX (sorted nd) (fun e => u32 (e - 1))
    (S (Z.to_nat ALGOT_CALC_MAX)) (opt_e nd) = Ok 0 ∧
  sorted nd !! 2 = Some ALGOT_REF_DISPATCHED ∧
  sorted nd !! 0 = Some ALGOT_REF_DISPATCHED ∧
  algot_dispatch ALGOT_CALC_MAX wild_load nd
  = match wild_load 1 with Some _ => Bug | None => Undef end.
Proof.
  cbv zeta.
  set (nd := state_of _ mem).
  assert (Hsq : sort_queue nd = [mk_rq 6 30]) by (vm_compute; reflexivity).
  assert (Hd : dirty nd = 1) by (vm_compute; reflexivity).
  do 8 (apply conj; [vm_compute; reflexivity|]).
  unfold algot_dispatch. rewrite Hsq, Hd.
  change (ALGOT_DIRTY_COUNT <=? 1) with false. cbn [list_empty negb orb obind].
  erewrite (pick_opt_dispatched_ends ALGOT_CALC_MAX wild_load _ nd 2 0).
  - destruct (wild_load 1); reflexivity.
  - vm_compute; reflexivity.
  - vm_compute; reflexivity.
  - reflexivity.
  - vm_compute; reflexivity.
  - vm_compute; reflexivity.
  - vm_compute; reflexivity.
  - vm_compute; reflexivity.
Qed.

(** ** Teardown *)

(** C3. With the source's bound of 128, after 129 requests are admitted
    and 128 calls of [algot_dispatch] have handed out the first 128, the
    sort queue is empty and request 129 is still on the wait queue; there
    [algot_exit_queue] returns normally: its BUG_ON looks at [sort_queue]
    only. *)
Theorem exit_queue_ignores_wait_queue
  (wild_load : Z → option Z) (mem : algot_data) :
  let run := overflow_left_run wild_load (init_state mem) in
  let nd := state_of run mem in
  returned run = Ok (map Some (numbered_requests 128)) ∧
  sort_queue nd = [] ∧
  wait_queue nd = [mk_rq 129 129] ∧
  algot_exit_queue nd = Ok tt.
Proof.
  cbv zeta.
  do 3 (apply conj; [vm_compute; reflexivity|]).
  vm_compute; reflexivity.
Qed.

(** ** Allocation failure *)

(** C4. When the kmalloc of the scheduler state itself fails (line 309),
    [algot_init_queue] does not get to its test at line 325 and does not
    return NULL: the store [nd->nsorted = 0] at line 310 goes through the
    null pointer first, whatever the other allocations do. *)
Theorem init_queue_stores_before_null_test
  (kc vc ks : bool) (mem : algot_data) :
  algot_init_queue
    {| kmalloc_nd := false; kmalloc_cost_matrix := kc;
       vmalloc_cost_matrix := vc; kmalloc_sorted := ks |} mem
  = Undef.
Proof. reflexivity. Qed.

(** The two arrays, in contrast, are only tested: when the state is
    allocated and an array is not, NULL is returned. *)
Lemma init_queue_reports_missing_array (a : allocations) (mem : algot_data) :
  kmalloc_nd a = true →
  kmalloc_sorted a = false ∨
  (kmalloc_cost_matrix a = false ∧ vmalloc_cost_matrix a = false) →
  algot_init_queue a mem = Ok None.
Proof.
  destruct a as [n kc vc ks]; simpl; intros -> [-> | [-> ->]].
  - destruct kc, vc; reflexivity.
  - destruct ks; reflexivity.
Qed.

(** ** Merge notifications *)

Lemma unlink_absent (rq : request) (l : list request) :
  existsb (fun r => Nat.eqb (rq_id r) (rq_id rq)) l = false →
  unlink rq l = l.
Proof.
  induction l as [|r l IH]; simpl; [reflexivity|].
  destruct (Nat.eqb (rq_id r) (rq_id rq)); simpl; [discriminate|].
  intros H. rewrite IH; auto.
Qed.

Lemma list_del_init_absent (nd : algot_data) (rq : request) :
  held nd rq = false → list_del_init rq nd = nd.
Proof.
  unfold held. rewrite existsb_app. intros [Hs Hw]%orb_false_elim.
  unfold list_del_init, set_sort_queue, set_wait_queue; simpl.
  rewrite !unlink_absent by assumption. destruct nd; reflexivity.
Qed.

(** C9, as stated, fails.  In the state [after_one_dispatch] leaves
    (request 1 handed out, request 2 still queued) request 1 is on neither
    list, yet a merge notification that names it as the absorbed request
    lowers [nsorted] from 1 to 0 and overwrites sorted[0]: its
    [elevator_private[0]] still holds the index 0 it was given by
    [algot_program]. *)
Lemma notify_dispatched_request_changes_state :
  ¬ notify_absent_is_noop ALGOT_CALC_MAX
      (state_of after_one_dispatch blank_memory) (mk_rq 2 20) (mk_rq 1 10).
Proof.
  intros H. destruct (H eq_refl) as (nd' & Hm & Hn & _).
  vm_compute in Hm. injection Hm as <-.
  vm_compute in Hn. discriminate.
Qed.

(** C9, amended: a notification for a request that is on neither list
    leaves the whole state as it was when the request's
    [elevator_private[0]] is ALGOT_PRI0_UNSORTED. *)
Theorem notify_absent_unsorted_is_noop
  (calc_max : Z) (nd : algot_data) (rq next : request) :
  held nd next = false →
  elevator_private nd (rq_id next) = ALGOT_PRI0_UNSORTED →
  algot_merged_requests calc_max nd rq next = Ok nd.
Proof.
  intros Hheld Href. unfold algot_merged_requests.
  rewrite Href. cbn [obind]. rewrite list_del_init_absent; auto.
Qed.

Lemma notify_absent_unsorted_is_noop_witness :
  held wait_queue_request_absorbed (mk_rq 129 129) = false ∧
  elevator_private wait_queue_request_absorbed 129 = ALGOT_PRI0_UNSORTED ∧
  algot_merged_requests ALGOT_CALC_MAX wait_queue_request_absorbed
    (mk_rq 128 128) (mk_rq 129 129)
  = Ok wait_queue_request_absorbed.
Proof.
  split; [vm_compute; reflexivity|]. split; [vm_compute; reflexivity|].
  apply (notify_absent_unsorted_is_noop ALGOT_CALC_MAX
           wait_queue_request_absorbed (mk_rq 128 128) (mk_rq 129 129)).
  - vm_compute; reflexivity.
  - vm_compute; reflexivity.
Defined.

(** ** Sorted insertion *)

Lemma s32_small (x : Z) : - 2 ^ 31 ≤ x < 2 ^ 31 → s32 x = x.
Proof. intros H. unfold s32. rewrite Z.mod_small; lia. Qed.

Lemma u32_small (x : Z) : 0 ≤ x < 2 ^ 32 → u32 x = x.
Proof. intros H. unfold u32. apply Z.mod_small. exact H. Qed.

Lemma set_wait_queue_same (nd : algot_data) : set_wait_queue (wait_queue nd) nd = nd.
Proof. destruct nd; reflexivity. Qed.

Lemma length_list_add_before_greater (pos : Z) (rq : request) (l : list request) :
  length (list_add_before_greater pos rq l) = S (length l).
Proof.
  induction l as [|r l IH]; simpl; [reflexivity|].
  destruct (blk_rq_pos r >? pos); simpl; [reflexivity|]. now rewrite IH.
Qed.


Lemma list_add_before_greater_perm (pos : Z) (rq : request) (l : list request) :
  list_add_before_greater pos rq l ≡ₚ rq :: l.
Proof.
  induction l as [|r l IH]; simpl; [reflexivity|].
  destruct (blk_rq_pos r >? pos); [reflexivity|].
  rewrite IH. apply perm_swap.
Qed.

Lemma list_add_before_greater_ascending (rq : request) (l : list request) :
  ascending l → ascending (list_add_before_greater (rq_sector rq) rq l).
Proof.
  unfold ascending. induction 1 as [|r l Hl IH Hr]; simpl.
  - repeat constructor.
  - unfold blk_rq_pos. destruct (Z.gtb_spec (rq_sector r) (rq_sector rq)) as [Hgt|Hle].
    + constructor; [constructor; assumption|].
      constructor; [unfold sector_le; lia|].
      eapply Forall_impl; [exact Hr|]. unfold sector_le. intros; simpl in *; lia.
    + constructor; [exact IH|].
      rewrite list_add_before_greater_perm. constructor; [exact Hle | exact Hr].
Qed.

(** ** The capacity bound *)

Lemma algot_sort_in_count (calc_max : Z) (nd : algot_data) (rq : request) :
  calc_max < 2 ^ 32 → queue_count_ok calc_max nd → nsorted nd < calc_max →
  queue_count_ok calc_max (algot_sort_in nd rq).
Proof.
  intros Hc [Hb Hn] Hlt. unfold queue_count_ok, algot_sort_in; simpl.
  rewrite length_list_add_before_greater, u32_small by lia. lia.
Qed.

Lemma drain_wait_queue_count (calc_max : Z) (wq : list request) (nd : algot_data) :
  calc_max < 2 ^ 32 → queue_count_ok calc_max nd →
  queue_count_ok calc_max (drain_wait_queue calc_max wq nd).
Proof.
  intros Hc. revert nd. induction wq as [|r wq IH]; intros nd Hok; simpl.
  - exact Hok.
  - destruct (Z.ltb_spec (nsorted nd) calc_max) as [Hlt|Hge]; [|exact Hok].
    apply IH. apply algot_sort_in_count; [exact Hc | exact Hok | exact Hlt].
Qed.

Lemma algot_add_request_count (calc_max : Z) (nd : algot_data) (rq : request) :
  calc_max < 2 ^ 32 → queue_count_ok calc_max nd →
  queue_count_ok calc_max (algot_add_request calc_max nd rq).
Proof.
  intros Hc Hok. unfold algot_add_request.
  pose proof (drain_wait_queue_count calc_max (wait_queue nd) nd Hc Hok) as Hd.
  set (nd1 := drain_wait_queue calc_max (wait_queue nd) nd) in *.
  destruct (list_empty (wait_queue nd1)); simpl; [|exact Hd].
  destruct (Z.ltb_spec (nsorted nd1) calc_max) as [Hlt|Hge]; [|exact Hd].
  apply algot_sort_in_count; assumption.
Qed.

Lemma admit_all_count (calc_max : Z) (rqs : list request) (nd : algot_data) :
  calc_max < 2 ^ 32 → queue_count_ok calc_max nd →
  queue_count_ok calc_max (admit_all calc_max rqs nd).
Proof.
  intros Hc. revert nd. unfold admit_all.
  induction rqs as [|rq rqs IH]; intros nd Hok; simpl; [exact Hok|].
  apply IH. apply algot_add_request_count; assumption.
Qed.

Lemma drain_wait_queue_full (calc_max : Z) (nd : algot_data) :
  calc_max ≤ nsorted nd →
  drain_wait_queue calc_max (wait_queue nd) nd = nd.
Proof.
  intros Hfull. destruct (wait_queue nd) as [|r wq] eqn:Hwq; simpl.
  - rewrite <- Hwq. apply set_wait_queue_same.
  - destruct (Z.ltb_spec (nsorted nd) calc_max); [lia|].
    rewrite <- Hwq. apply set_wait_queue_same.
Qed.

(** C5. Starting from a freshly initialised scheduler, after any
    sequence of admissions the live count [nsorted] is the number of
    requests on the sort queue and does not exceed the bound; and when the
    window is at capacity ([nsorted = calc_max]) the next admission leaves
    the window alone, tags the request ALGOT_PRI0_UNSORTED and appends it
    to the tail of the wait queue. *)
Theorem admit_capacity_bound
  (calc_max : Z) (mem : algot_data) (rqs : list request) :
  0 ≤ calc_max < 2 ^ 32 →
  let nd := admit_all calc_max rqs (init_state mem) in
  nsorted nd = Z.of_nat (length (sort_queue nd)) ∧
  nsorted nd ≤ calc_max ∧
  (nsorted nd = calc_max →
   ∀ rq, algot_add_request calc_max nd rq
         = set_wait_queue (wait_queue nd ++ [rq])
             (set_private rq ALGOT_PRI0_UNSORTED nd)).
Proof.
  intros Hc nd.
  assert (Hok : queue_count_ok calc_max nd).
  { apply admit_all_count; [lia|]. split; simpl; lia. }
  destruct Hok as [Hb Hn]. split; [exact Hn|]. split; [lia|].
  intros Hfull rq. unfold algot_add_request.
  rewrite drain_wait_queue_full by lia.
  destruct (Z.ltb_spec (nsorted nd) calc_max); [lia|].
  rewrite andb_false_r. reflexivity.
Qed.

Lemma admit_capacity_bound_witness :
  0 ≤ ALGOT_CALC_MAX < 2 ^ 32 ∧
  let nd := admit_all ALGOT_CALC_MAX (numbered_requests 129)
              (init_state blank_memory) in
  nsorted nd = Z.of_nat (length (sort_queue nd)) ∧
  nsorted nd ≤ ALGOT_CALC_MAX ∧
  (nsorted nd = ALGOT_CALC_MAX →
   ∀ rq, algot_add_request ALGOT_CALC_MAX nd rq
         = set_wait_queue (wait_queue nd ++ [rq])
             (set_private rq ALGOT_PRI0_UNSORTED nd)).
Proof.
  assert (H : 0 ≤ ALGOT_CALC_MAX < 2 ^ 32) by (unfold ALGOT_CALC_MAX; lia).
  split; [exact H|].
  apply (admit_capacity_bound ALGOT_CALC_MAX blank_memory (numbered_requests 129) H).
Defined.

(** ** Admission into a window with room *)



(** *** The counter at INT_MAX *)








(** ** The slot picked is never a merged one *)

Lemma skip_merged_stops (calc_max : Z) (sa : gmap Z slot) (next : Z → Z)
  (fuel : nat) (s s' : Z) :
  skip_merged calc_max sa next fuel s = Ok s' →
  ∃ p, sorted_get calc_max sa s' = Ok p ∧ is_merged p = false.
Proof.
  revert s. induction fuel as [|fuel IH]; intros s; simpl;
    destruct (sorted_get calc_max sa s) as [p| | |] eqn:Hget; simpl;
    try discriminate;
    destruct (is_merged p) eqn:Hm; try discriminate.
  - intros [= <-]. eauto.
  - apply IH.
  - intros [= <-]. eauto.
Qed.

Lemma sorted_get_in_bounds (calc_max : Z) (sa : gmap Z slot) (i : Z) (p : slot) :
  sorted_get calc_max sa i = Ok p → 0 ≤ i < calc_max ∧ sa !! i = Some p.
Proof.
  unfold sorted_get.
  destruct (Z.leb_spec 0 i), (Z.ltb_spec i calc_max); simpl; try discriminate.
  destruct (sa !! i); [|discriminate]. intros [= ->]. split; [lia | reflexivity].
Qed.

Lemma sorted_get_no_fuel (calc_max : Z) (sa : gmap Z slot) (i : Z) :
  sorted_get calc_max sa i ≠ NoFuel.
Proof.
  unfold sorted_get. destruct (_ && _); [|discriminate].
  destruct (sa !! i); discriminate.
Qed.

Lemma skip_forward_fuel (calc_max : Z) (sa : gmap Z slot) (fuel : nat) (s : Z) :
  calc_max < 2 ^ 32 → calc_max - s ≤ Z.of_nat fuel ∨ s < 0 →
  skip_merged calc_max sa (fun s => u32 (s + 1)) fuel s ≠ NoFuel.
Proof.
  intros Hc. revert s. induction fuel as [|fuel IH]; intros s Hfuel; simpl;
    destruct (sorted_get calc_max sa s) as [p| | |] eqn:Hget; simpl;
    try discriminate; try (now apply sorted_get_no_fuel in Hget);
    destruct (is_merged p); try discriminate;
    apply sorted_get_in_bounds in Hget as [Hb _].
  - lia.
  - rewrite u32_small by lia. apply IH. lia.
Qed.

Lemma skip_backward_fuel (calc_max : Z) (sa : gmap Z slot) (fuel : nat) (e : Z) :
  calc_max < 2 ^ 32 → e < Z.of_nat fuel ∨ calc_max ≤ e →
  skip_merged calc_max sa (fun e => u32 (e - 1)) fuel e ≠ NoFuel.
Proof.
  intros Hc. revert e. induction fuel as [|fuel IH]; intros e Hfuel; simpl;
    destruct (sorted_get calc_max sa e) as [p| | |] eqn:Hget; simpl;
    try discriminate; try (now apply sorted_get_no_fuel in Hget);
    destruct (is_merged p); try discriminate;
    apply sorted_get_in_bounds in Hget as [Hb _].
  - lia.
  - apply IH. destruct (Z.eq_dec e 0) as [->|Hne].
    + right. change (u32 (0 - 1)) with (2 ^ 32 - 1). lia.
    + left. rewrite u32_small by lia. lia.
Qed.

Lemma pick_index_not_merged (calc_max : Z) (wild_load : Z → option Z)
  (nd nd' : algot_data) (i : Z) :
  pick_index calc_max wild_load nd = Ok (i, nd') →
  ∃ p, sorted_get calc_max (sorted nd') i = Ok p ∧ is_merged p = false.
Proof.
  unfold pick_index.
  destruct (skip_merged _ _ _ _ (opt_s nd)) as [s| | |] eqn:Hs; try discriminate.
  destruct (skip_merged _ _ _ _ (opt_e nd)) as [e| | |] eqn:He; try discriminate.
  apply skip_merged_stops in Hs, He. cbn [obind].
  destruct (negb (s =? e)).
  - destruct (sorted_pos _ _ _ s); try discriminate. cbn [obind].
    destruct (matrix_get _ (MATRIX _ s e)); try discriminate. cbn [obind].
    destruct (sorted_pos _ _ _ e); try discriminate. cbn [obind].
    destruct (matrix_get _ (MATRIX _ e s)); try discriminate. cbn [obind].
    destruct (_ <=? _); intros [= <- <-]; assumption.
  - intros [= <- <-]. assumption.
Qed.

Lemma sorted_pos_no_fuel (calc_max : Z) (wild_load : Z → option Z)
  (sa : gmap Z slot) (i : Z) :
  sorted_pos calc_max wild_load sa i ≠ NoFuel.
Proof.
  unfold sorted_pos.
  destruct (sorted_get calc_max sa i) as [p| | |] eqn:Hget; try discriminate;
    [|now apply sorted_get_no_fuel in Hget].
  destruct p; simpl; try discriminate; destruct (wild_load _); discriminate.
Qed.

Lemma pick_index_no_fuel (calc_max : Z) (wild_load : Z → option Z)
  (nd : algot_data) :
  0 ≤ calc_max < 2 ^ 32 →
  pick_index calc_max wild_load nd ≠ NoFuel.
Proof.
  intros Hc. unfold pick_index.
  destruct (skip_merged _ _ _ _ (opt_s nd)) as [s| | |] eqn:Hs; try discriminate.
  2:{ exfalso. revert Hs. apply skip_forward_fuel; lia. }
  cbn [obind].
  destruct (skip_merged _ _ _ _ (opt_e nd)) as [e| | |] eqn:He; try discriminate.
  2:{ exfalso. revert He. apply skip_backward_fuel; lia. }
  cbn [obind].
  destruct (negb (s =? e)); [|discriminate].
  destruct (sorted_pos _ _ _ s) eqn:H1; try discriminate;
    [|now apply sorted_pos_no_fuel in H1]. cbn [obind].
  unfold matrix_get at 1. destruct (_ !! _); try discriminate. cbn [obind].
  destruct (sorted_pos _ _ _ e) eqn:H2; try discriminate;
    [|now apply sorted_pos_no_fuel in H2]. cbn [obind].
  unfold matrix_get. destruct (_ !! _); try discriminate. cbn [obind].
  destruct (_ <=? _); discriminate.
Qed.

(** C10. In one call of [pick_opt], the index chosen after the two
    skipping loops never holds ALGOT_REF_MERGED; hence the call at line 256
    is never made: [pick_opt] gives the same result with a retry budget
    of 0 as with any other, and never runs out of budget. *)
Theorem pick_opt_never_retries (calc_max : Z) (wild_load : Z → option Z)
  (fuel : nat) (nd : algot_data) :
  0 ≤ calc_max < 2 ^ 32 →
  (∀ i nd', pick_index calc_max wild_load nd = Ok (i, nd') →
            ∃ p, sorted_get calc_max (sorted nd') i = Ok p ∧ is_merged p = false) ∧
  pick_opt calc_max wild_load fuel nd = pick_opt calc_max wild_load 0 nd ∧
  pick_opt calc_max wild_load fuel nd ≠ NoFuel.
Proof.
  intros Hc. split; [intros i nd'; apply pick_index_not_merged|].
  rewrite !pick_opt_unfold.
  destruct (pick_index calc_max wild_load nd) as [[i nd']| | |] eqn:Hp;
    cbn [obind]; try (split; [reflexivity | discriminate]).
  - destruct (pick_index_not_merged _ _ _ _ _ Hp) as (p & -> & Hm).
    cbn [obind]. destruct p; try discriminate Hm.
    + split; [reflexivity | discriminate].
    + split; [reflexivity|].
      unfold sorted_put. destruct (_ && _); discriminate.
  - now apply pick_index_no_fuel in Hp.
Qed.

Lemma pick_opt_never_retries_witness :
  0 ≤ ALGOT_CALC_MAX < 2 ^ 32 ∧
  pick_opt ALGOT_CALC_MAX (fun _ => None) 7 window_with_merged_slot
  = pick_opt ALGOT_CALC_MAX (fun _ => None) 0 window_with_merged_slot ∧
  pick_opt ALGOT_CALC_MAX (fun _ => None) 7 window_with_merged_slot ≠ NoFuel.
Proof.
  assert (H : 0 ≤ ALGOT_CALC_MAX < 2 ^ 32) by (unfold ALGOT_CALC_MAX; lia).
  split; [exact H|].
  apply (pick_opt_never_retries ALGOT_CALC_MAX (fun _ => None) 7
           window_with_merged_slot H).
Defined.


(** ** Draining the wait queue *)

Lemma algot_sort_in_ascending (nd : algot_data) (rq : request) :
  ascending (sort_queue nd) → ascending (sort_queue (algot_sort_in nd rq)).
Proof. intros H. simpl. unfold blk_rq_pos. now apply list_add_before_greater_ascending. Qed.

Lemma drain_wait_queue_ascending (calc_max : Z) (wq : list request) (nd : algot_data) :
  ascending (sort_queue nd) →
  ascending (sort_queue (drain_wait_queue calc_max wq nd)).
Proof.
  revert nd. induction wq as [|r wq IH]; intros nd H; simpl; [exact H|].
  destruct (nsorted nd <? calc_max); [|exact H].
  apply IH. now apply algot_sort_in_ascending.
Qed.

Lemma drain_wait_queue_perm (calc_max : Z) (wq : list request) (nd : algot_data) :
  sort_queue (drain_wait_queue calc_max wq nd)
    ++ wait_queue (drain_wait_queue calc_max wq nd)
  ≡ₚ sort_queue nd ++ wq.
Proof.
  revert nd. induction wq as [|r wq IH]; intros nd; simpl; [reflexivity|].
  destruct (nsorted nd <? calc_max); [|reflexivity].
  rewrite IH. simpl. rewrite list_add_before_greater_perm.
  apply Permutation_middle.
Qed.

Lemma drain_wait_queue_stops (calc_max : Z) (wq : list request) (nd : algot_data) :
  calc_max < 2 ^ 32 → queue_count_ok calc_max nd →
  wait_queue (drain_wait_queue calc_max wq nd) = [] ∨
  nsorted (drain_wait_queue calc_max wq nd) = calc_max.
Proof.
  intros Hc. revert nd. induction wq as [|r wq IH]; intros nd Hok; simpl.
  - left. reflexivity.
  - destruct (Z.ltb_spec (nsorted nd) calc_max) as [Hlt|Hge].
    + apply IH. now apply algot_sort_in_count.
    + right. simpl. destruct Hok. lia.
Qed.

Lemma drain_wait_queue_fields (calc_max : Z) (wq : list request) (nd : algot_data) :
  let nd1 := drain_wait_queue calc_max wq nd in
  rw_head nd1 = rw_head nd ∧ sorted nd1 = sorted nd ∧
  cost_matrix nd1 = cost_matrix nd.
Proof.
  revert nd. induction wq as [|r wq IH]; intros nd; simpl; [auto|].
  destruct (nsorted nd <? calc_max); [|auto].
  destruct (IH (algot_sort_in (set_wait_queue wq nd) r)) as (H1 & H2 & H3).
  simpl in *. rewrite H1, H2, H3. auto.
Qed.

(** The loop takes the first k waiting requests, in their order; each
    of them adds one to [nsorted] and to [dirty]. *)
Lemma drain_wait_queue_prefix (calc_max : Z) (wq : list request) (nd : algot_data) :
  calc_max < 2 ^ 32 → queue_count_ok calc_max nd →
  let k := Z.to_nat (Z.min (Z.of_nat (length wq)) (calc_max - nsorted nd)) in
  let nd1 := drain_wait_queue calc_max wq nd in
  wait_queue nd1 = drop k wq ∧
  sort_queue nd1 ≡ₚ sort_queue nd ++ take k wq ∧
  nsorted nd1 = nsorted nd + Z.of_nat k ∧
  (INT_MIN ≤ dirty nd → dirty nd + Z.of_nat k ≤ INT_MAX →
   dirty nd1 = dirty nd + Z.of_nat k).
Proof.
  intros Hc. revert nd. induction wq as [|r wq IH]; intros nd Hok; cbv zeta.
  - destruct Hok as [Hb Hn]. simpl length.
    replace (Z.to_nat _) with O by lia. simpl.
    rewrite app_nil_r. repeat split; try reflexivity; lia.
  - simpl drain_wait_queue.
    destruct (Z.ltb_spec (nsorted nd) calc_max) as [Hlt|Hge].
    + pose proof (algot_sort_in_count calc_max (set_wait_queue wq nd) r Hc Hok Hlt)
        as Hok1.
      destruct (IH _ Hok1) as (H1 & H2 & H3 & H4). cbv zeta in *.
      assert (Hn1 : nsorted (algot_sort_in (set_wait_queue wq nd) r) = nsorted nd + 1).
      { simpl. apply u32_small. destruct Hok. lia. }
      assert (Hd1 : dirty (algot_sort_in (set_wait_queue wq nd) r)
                    = s32 (dirty nd + 1)) by reflexivity.
      rewrite Hn1 in H1, H2, H3, H4. rewrite Hd1 in H4.
      set (k' := Z.to_nat (Z.min (Z.of_nat (length wq)) (calc_max - (nsorted nd + 1))))
        in *.
      replace (Z.to_nat (Z.min (Z.of_nat (length (r :: wq))) (calc_max - nsorted nd)))
        with (S k') by (unfold k'; simpl length; lia).
      simpl. split; [exact H1|]. split; [|split; [lia|]].
      * rewrite H2. simpl. rewrite list_add_before_greater_perm. simpl.
        apply Permutation_middle.
      * intros Hlo Hhi. unfold INT_MIN, INT_MAX in *.
        rewrite s32_small in H4 by lia. rewrite H4; lia.
    + destruct Hok as [Hb Hn].
      replace (Z.to_nat _) with O by lia. simpl.
      rewrite app_nil_r. repeat split; try reflexivity; lia.
Qed.

(** The counters after an admission: [nsorted] and, while it stays
    within [int], [dirty] have grown by the number of sort-ins. *)
Lemma algot_add_request_counter (calc_max : Z) (nd : algot_data) (rq : request) :
  calc_max < 2 ^ 32 → queue_count_ok calc_max nd →
  nsorted (algot_add_request calc_max nd rq) = nsorted nd + sort_ins calc_max nd ∧
  (INT_MIN ≤ dirty nd → counter_has_room calc_max nd →
   dirty (algot_add_request calc_max nd rq) = dirty nd + sort_ins calc_max nd).
Proof.
  intros Hc Hok. unfold algot_add_request, counter_has_room, sort_ins.
  destruct (drain_wait_queue_prefix calc_max (wait_queue nd) nd Hc Hok)
    as (H1 & _ & H3 & H4).
  pose proof (drain_wait_queue_stops calc_max (wait_queue nd) nd Hc Hok) as Hstop.
  cbv zeta in *.
  set (nd1 := drain_wait_queue calc_max (wait_queue nd) nd) in *.
  set (k0 := Z.to_nat (Z.min (Z.of_nat (length (wait_queue nd)))
                         (calc_max - nsorted nd))) in *.
  destruct Hok as [Hb Hn].
  assert (Hk0 : Z.of_nat k0 = Z.min (Z.of_nat (length (wait_queue nd)))
                                (calc_max - nsorted nd)) by (unfold k0; lia).
  apply (f_equal length) in H1. rewrite length_drop in H1.
  destruct (wait_queue nd1) as [|w wq1] eqn:Hw1; simpl in H1; cbn [list_empty andb].
  - destruct (Z.ltb_spec (nsorted nd1) calc_max) as [Hroom|Hfull].
    + change (nsorted (algot_sort_in nd1 rq)) with (u32 (nsorted nd1 + 1)).
      change (dirty (algot_sort_in nd1 rq)) with (s32 (dirty nd1 + 1)).
      rewrite u32_small by lia. split; [lia|].
      intros Hlo Hhi. unfold INT_MIN, INT_MAX in *.
      rewrite H4 by lia. rewrite s32_small; lia.
    + change (nsorted (set_wait_queue _ _)) with (nsorted nd1).
      change (dirty (set_wait_queue _ _)) with (dirty nd1).
      split; [lia|]. intros Hlo Hhi. rewrite H4; lia.
  - destruct Hstop as [Hw | Hfull]; [discriminate Hw|].
    change (nsorted (set_wait_queue _ _)) with (nsorted nd1).
    change (dirty (set_wait_queue _ _)) with (dirty nd1).
    split; [lia|]. intros Hlo Hhi. rewrite H4; lia.
Qed.

(** ** The two walks of algot_program *)

Lemma place_run_fields (l : list request) (idx : Z) (nd : algot_data) :
  let nd' := place_run l idx nd in
  wait_queue nd' = wait_queue nd ∧ sort_queue nd' = sort_queue nd ∧
  cost_matrix nd' = cost_matrix nd ∧ rw_head nd' = rw_head nd ∧
  nsorted nd' = nsorted nd ∧ opt_ns nd' = opt_ns nd.
Proof.
  revert idx nd. induction l as [|r l IH]; intros idx nd; simpl; [tauto|].
  apply (IH (idx + 1) (set_sorted (<[idx := REF_RQ r]> (sorted nd))
                         (set_private r (PRI0_IDX idx) nd))).
Qed.

Lemma place_run_sorted_before (l : list request) (idx k : Z) (nd : algot_data) :
  k < idx → sorted (place_run l idx nd) !! k = sorted nd !! k.
Proof.
  revert idx nd. induction l as [|r l IH]; intros idx nd Hk; simpl; [reflexivity|].
  rewrite IH by lia. simpl. apply lookup_insert_ne. lia.
Qed.

Lemma place_run_sorted (l : list request) (idx : Z) (nd : algot_data)
  (i : nat) (rq : request) :
  l !! i = Some rq →
  sorted (place_run l idx nd) !! (idx + Z.of_nat i) = Some (REF_RQ rq).
Proof.
  revert idx nd i. induction l as [|r l IH]; intros idx nd i Hi; [discriminate|].
  destruct i as [|i]; cbn [place_run]; simpl in Hi.
  - injection Hi as ->. rewrite Z.add_0_r, place_run_sorted_before by lia.
    simpl. apply lookup_insert_eq.
  - rewrite Nat2Z.inj_succ.
    replace (idx + Z.succ (Z.of_nat i)) with (idx + 1 + Z.of_nat i) by lia.
    now apply IH.
Qed.

Lemma place_run_private_other (l : list request) (idx : Z) (nd : algot_data) (id : nat) :
  id ∉ map rq_id l →
  elevator_private (place_run l idx nd) id = elevator_private nd id.
Proof.
  revert idx nd. induction l as [|r l IH]; intros idx nd Hid; simpl; [reflexivity|].
  simpl in Hid. apply not_elem_of_cons in Hid as [Hne Hid].
  rewrite IH by exact Hid. simpl.
  destruct (Nat.eqb_spec id (rq_id r)); [contradiction | reflexivity].
Qed.

Lemma place_run_private (l : list request) (idx : Z) (nd : algot_data)
  (i : nat) (rq : request) :
  NoDup (map rq_id l) → l !! i = Some rq →
  elevator_private (place_run l idx nd) (rq_id rq) = PRI0_IDX (idx + Z.of_nat i).
Proof.
  revert idx nd i. induction l as [|r l IH]; intros idx nd i Hnd Hi; [discriminate|].
  simpl in Hnd. apply NoDup_cons in Hnd as [Hr Hnd].
  destruct i as [|i]; cbn [place_run]; simpl in Hi.
  - injection Hi as ->. rewrite place_run_private_other by exact Hr.
    simpl. rewrite Nat.eqb_refl. f_equal. lia.
  - rewrite Nat2Z.inj_succ.
    replace (idx + Z.succ (Z.of_nat i)) with (idx + 1 + Z.of_nat i) by lia.
    now apply IH.
Qed.

Lemma place_run_app (l1 l2 : list request) (idx : Z) (nd : algot_data) :
  place_run (l1 ++ l2) idx nd
  = place_run l2 (idx + Z.of_nat (length l1)) (place_run l1 idx nd).
Proof.
  revert idx nd. induction l1 as [|r l1 IH]; intros idx nd; simpl.
  - now rewrite Z.add_0_r.
  - rewrite IH. f_equal. lia.
Qed.

Lemma program_above_run (calc_max head : Z) (l : list request) (idx : Z)
  (nd : algot_data) :
  0 ≤ idx → idx + Z.of_nat (length (above_head head l)) ≤ calc_max →
  program_above calc_max head l idx nd
  = Ok (idx + Z.of_nat (length (above_head head l)),
        place_run (above_head head l) idx nd).
Proof.
  unfold above_head. revert idx nd.
  induction l as [|r l IH]; intros idx nd Hidx Hlen; simpl.
  - now rewrite Z.add_0_r.
  - rewrite filter_cons in *. unfold blk_rq_pos.
    destruct (Z.gtb_spec (rq_sector r) head) as [Hr|Hr].
    + rewrite decide_True in * by lia. simpl in *.
      unfold sorted_put.
      destruct (Z.leb_spec 0 idx), (Z.ltb_spec idx calc_max); try lia.
      cbn [andb obind]. rewrite IH by lia. do 2 f_equal. lia.
    + rewrite decide_False in * by lia. now apply IH.
Qed.

Lemma program_below_run (calc_max head : Z) (l : list request) (idx : Z)
  (nd : algot_data) :
  0 ≤ idx → idx + Z.of_nat (length (front_below head l)) ≤ calc_max →
  program_below calc_max head l idx nd
  = Ok (idx + Z.of_nat (length (front_below head l)),
        place_run (front_below head l) idx nd).
Proof.
  revert idx nd.
  induction l as [|r l IH]; intros idx nd Hidx Hlen; simpl.
  - now rewrite Z.add_0_r.
  - simpl in Hlen. unfold blk_rq_pos in *.
    destruct (rq_sector r >? head); simpl in *.
    + now rewrite Z.add_0_r.
    + unfold sorted_put.
      destruct (Z.leb_spec 0 idx), (Z.ltb_spec idx calc_max); try lia.
      cbn [andb obind]. rewrite IH by lia. do 2 f_equal. lia.
Qed.

Lemma front_below_ascending (head : Z) (l : list request) :
  ascending l → front_below head l = below_head head l.
Proof.
  unfold ascending, below_head. induction 1 as [|r l Hl IH Hr]; simpl; [reflexivity|].
  rewrite filter_cons. unfold blk_rq_pos.
  destruct (Z.gtb_spec (rq_sector r) head) as [Hgt|Hle].
  - rewrite decide_False by lia. symmetry.
    clear IH Hl. induction l as [|x l IHl]; [reflexivity|].
    apply Forall_cons in Hr as [Hx Hr]. unfold sector_le in Hx.
    rewrite filter_cons, decide_False by lia. now apply IHl.
  - rewrite decide_True by lia. now rewrite IH.
Qed.

Lemma cscan_order_perm (head : Z) (l : list request) : cscan_order head l ≡ₚ l.
Proof.
  unfold cscan_order, above_head, below_head.
  induction l as [|r l IH]; [reflexivity|].
  rewrite !filter_cons.
  destruct (decide (head < rq_sector r)), (decide (rq_sector r ≤ head)); try lia.
  - simpl. now rewrite IH.
  - rewrite <- Permutation_middle. now rewrite IH.
Qed.

Lemma filter_ascending (P : request → Prop) `{∀ x, Decision (P x)} (l : list request) :
  ascending l → ascending (filter P l).
Proof.
  unfold ascending. induction 1 as [|r l Hl IH Hr]; [constructor|].
  rewrite filter_cons. destruct (decide (P r)); [|exact IH].
  constructor; [exact IH|].
  apply Forall_forall. intros x [_ Hx]%list_elem_of_filter.
  rewrite Forall_forall in Hr. now apply Hr.
Qed.

(** ** The matrix fill reads only cells it has written *)

Section Matrix.
Variable calc_max : Z.
Variable wild_load : Z → option Z.
Variable sa : gmap Z slot.
Variable ns : Z.
Hypothesis Hlive : window_live calc_max sa ns.

Lemma sect_dist_live (a b : Z) :
  0 ≤ a < ns → 0 ≤ b < ns → ∃ d, sect_dist calc_max wild_load sa a b = Ok d.
Proof.
  intros Ha Hb. unfold sect_dist, sorted_pos.
  destruct (Hlive a Ha) as [ra ->]. destruct (Hlive b Hb) as [rb ->].
  cbn [obind]. eauto.
Qed.

Lemma matrix_get_is_Some (mx : gmap Z Z) (key : Z) :
  is_Some (mx !! key) → ∃ v, matrix_get mx key = Ok v.
Proof. intros [v Hv]. unfold matrix_get. rewrite Hv. eauto. Qed.

Lemma program_diagonal_keeps (l : list Z) (mx : gmap Z Z) (key : Z) :
  is_Some (mx !! key) ∨ (∃ i, i ∈ l ∧ key = MATRIX ns i i) →
  is_Some (fold_left (fun mx i => <[MATRIX ns i i := 0]> mx) l mx !! key).
Proof.
  revert mx. induction l as [|x l IH]; intros mx H; simpl.
  - destruct H as [H | (i & Hi & _)]; [exact H|]. now apply elem_of_nil in Hi.
  - apply IH. destruct H as [H | (i & Hi & ->)].
    + left. apply lookup_insert_is_Some'. now right.
    + apply elem_of_cons in Hi as [-> | Hi].
      * left. apply lookup_insert_is_Some'. now left.
      * right. eauto.
Qed.

Lemma program_diagonal_filled (mx : gmap Z Z) :
  filled ns 1 (program_diagonal ns mx).
Proof.
  intros a b Ha Hb Hab. assert (b = a) as -> by lia.
  apply program_diagonal_keeps. right. exists a. split; [|reflexivity].
  apply elem_of_seqZ. lia.
Qed.

Lemma program_cell_fills (k i : Z) (mx : gmap Z Z) :
  filled ns k mx → 1 ≤ k → 0 ≤ i → i + k < ns →
  ∃ mx', program_cell calc_max wild_load sa ns k mx i = Ok mx' ∧
         (∀ key, is_Some (mx !! key) → is_Some (mx' !! key)) ∧
         is_Some (mx' !! MATRIX ns i (k + i)) ∧
         is_Some (mx' !! MATRIX ns (k + i) i).
Proof.
  intros Hf Hk Hi Hj. unfold program_cell.
  destruct (sect_dist_live i (i + 1)) as [d1 ->]; try lia.
  destruct (matrix_get_is_Some mx (MATRIX ns (i + 1) (k + i))) as [m1 ->];
    [apply Hf; lia|].
  destruct (sect_dist_live i (k + i)) as [d2 ->]; try lia.
  destruct (matrix_get_is_Some mx (MATRIX ns (k + i) (i + 1))) as [m2 ->];
    [apply Hf; lia|].
  destruct (sect_dist_live (k + i) (k + i - 1)) as [d3 ->]; try lia.
  cbn [obind].
  set (mx1 := <[MATRIX ns i (k + i) := _]> mx).
  assert (Hmono : ∀ key, is_Some (mx !! key) → is_Some (mx1 !! key)).
  { intros key H. apply lookup_insert_is_Some'. now right. }
  destruct (matrix_get_is_Some mx1 (MATRIX ns (k + i - 1) i)) as [m3 ->];
    [apply Hmono, Hf; lia|].
  destruct (matrix_get_is_Some mx1 (MATRIX ns i (k + i - 1))) as [m4 ->];
    [apply Hmono, Hf; lia|].
  cbn [obind]. eexists. split; [reflexivity|]. split; [|split].
  - intros key H. apply lookup_insert_is_Some'. right. now apply Hmono.
  - apply lookup_insert_is_Some'. right. apply lookup_insert_is_Some'. now left.
  - apply lookup_insert_is_Some'. now left.
Qed.

Lemma program_row_fills (k : Z) (n : nat) :
  1 ≤ k →
  ∀ m mx, 0 ≤ m → m + Z.of_nat n = ns - k → filled ns k mx →
    (∀ a, 0 ≤ a < m → is_Some (mx !! MATRIX ns a (k + a)) ∧
                       is_Some (mx !! MATRIX ns (k + a) a)) →
    ∃ mx', foldM (program_cell calc_max wild_load sa ns k)
             (seqZ m (Z.of_nat n)) mx = Ok mx' ∧
           filled ns (k + 1) mx'.
Proof.
  intros Hk. induction n as [|n IH]; intros m mx Hm Hlen Hf Hdone.
  - exists mx. split; [reflexivity|].
    intros a b Ha Hb Hab.
    destruct (Z.lt_ge_cases (Z.abs (a - b)) k) as [Hlt|Hge]; [now apply Hf|].
    destruct (Z.lt_ge_cases a b).
    + replace b with (k + a) by lia. apply Hdone. lia.
    + replace a with (k + b) by lia. apply Hdone. lia.
  - rewrite seqZ_cons by lia. cbn [foldM].
    destruct (program_cell_fills k m mx) as (mx1 & -> & Hmono & H1 & H2);
      [assumption | lia | lia | lia |].
    cbn [obind].
    replace (Z.pred (Z.of_nat (S n))) with (Z.of_nat n) by lia.
    apply IH; [lia | lia | |].
    + intros a b Ha Hb Hab. now apply Hmono, Hf.
    + intros a Ha. destruct (Z.eq_dec a m) as [->|Hne]; [now split|].
      destruct (Hdone a) as [Ha1 Ha2]; [lia|]. split; now apply Hmono.
Qed.

Lemma program_widths_fill (n : nat) :
  ∀ k mx, 1 ≤ k → k + Z.of_nat n = ns + 1 → filled ns k mx →
    ∃ mx', foldM (fun mx k => foldM (program_cell calc_max wild_load sa ns k)
                               (seqZ 0 (ns - k)) mx)
             (seqZ k (Z.of_nat n)) mx = Ok mx' ∧
           filled ns (ns + 1) mx'.
Proof.
  induction n as [|n IH]; intros k mx Hk Hlen Hf.
  - exists mx. split; [reflexivity|]. now replace (ns + 1) with k by lia.
  - rewrite seqZ_cons by lia. cbn [foldM].
    destruct (program_row_fills k (Z.to_nat (ns - k)) Hk 0 mx) as (mx1 & Hrow & Hf1);
      [lia | lia | exact Hf | intros; lia |].
    rewrite Z2Nat.id in Hrow by lia. rewrite Hrow. cbn [obind].
    replace (Z.pred (Z.of_nat (S n))) with (Z.of_nat n) by lia.
    apply IH; [lia | lia |]. replace (Z.succ k) with (k + 1) by lia. exact Hf1.
Qed.

(** The fill completes, and every cell of the ns * ns table has then
    been written. *)
Lemma program_matrix_fills (mx : gmap Z Z) :
  0 ≤ ns →
  ∃ mx', program_matrix calc_max wild_load sa ns (program_diagonal ns mx) = Ok mx' ∧
         filled ns ns mx'.
Proof.
  intros Hns. unfold program_matrix.
  destruct (program_widths_fill (Z.to_nat ns) 1 (program_diagonal ns mx))
    as (mx' & H & Hf); [lia | lia | apply program_diagonal_filled |].
  rewrite Z2Nat.id in H by exact Hns. exists mx'. split; [exact H|].
  intros a b Ha Hb Hab. apply Hf; lia.
Qed.

Lemma program_matrix_completes (mx : gmap Z Z) :
  0 ≤ ns →
  ∃ mx', program_matrix calc_max wild_load sa ns (program_diagonal ns mx) = Ok mx'.
Proof.
  intros Hns. destruct (program_matrix_fills mx Hns) as (mx' & H & _). eauto.
Qed.

End Matrix.

(** ** The rebuild *)

Lemma cscan_order_length (head : Z) (l : list request) :
  length (cscan_order head l) = length l.
Proof. apply Permutation_length, cscan_order_perm. Qed.

Lemma drain_wait_queue_pending (calc_max : Z) (nd : algot_data) :
  plan_ready calc_max nd →
  let nd1 := drain_wait_queue calc_max (wait_queue nd) nd in
  queue_count_ok calc_max nd1 ∧ 1 ≤ nsorted nd1 ∧
  ascending (sort_queue nd1) ∧ NoDup (map rq_id (sort_queue nd1)).
Proof.
  intros [Hc Hcount Hbound Hasc Hnd Hpend] nd1.
  assert (Hok : queue_count_ok calc_max nd) by (split; lia).
  pose proof (drain_wait_queue_count calc_max (wait_queue nd) nd
                ltac:(lia) Hok) as Hok1.
  pose proof (drain_wait_queue_perm calc_max (wait_queue nd) nd) as Hperm.
  fold nd1 in Hok1, Hperm.
  split; [exact Hok1|]. split; [|split].
  - destruct Hok1 as [Hb1 Hn1].
    destruct (sort_queue nd1) as [|r q] eqn:Hsq; [|simpl in Hn1; lia].
    exfalso. simpl in Hn1.
    destruct (drain_wait_queue_stops calc_max (wait_queue nd) nd
                ltac:(lia) Hok) as [Hw | Hfull]; fold nd1 in Hw || fold nd1 in Hfull;
      [|lia].
    rewrite Hw in Hperm. simpl in Hperm.
    apply Permutation_nil in Hperm. apply app_eq_nil in Hperm as [H1 H2].
    destruct Hpend; contradiction.
  - now apply drain_wait_queue_ascending.
  - assert (H : NoDup (map rq_id (sort_queue nd1 ++ wait_queue nd1))).
    { rewrite (Permutation_map rq_id Hperm). exact Hnd. }
    rewrite map_app in H. now apply NoDup_app in H as [H _].
Qed.

Lemma cscan_order_placed (head : Z) (nd1 : algot_data) (i : nat) (rq : request) :
  NoDup (map rq_id (sort_queue nd1)) →
  cscan_order head (sort_queue nd1) !! i = Some rq →
  let nd4 := place_run (cscan_order head (sort_queue nd1)) 0
               (set_opt_ns (nsorted nd1) nd1) in
  sorted nd4 !! Z.of_nat i = Some (REF_RQ rq) ∧
  elevator_private nd4 (rq_id rq) = PRI0_IDX (Z.of_nat i).
Proof.
  intros Hnd Hi. split.
  - now apply (place_run_sorted _ 0 (set_opt_ns (nsorted nd1) nd1)) in Hi.
  - apply (place_run_private _ 0 (set_opt_ns (nsorted nd1) nd1)) in Hi; [exact Hi|].
    now rewrite (Permutation_map rq_id (cscan_order_perm head (sort_queue nd1))).
Qed.

(** The two walks of [algot_program] and what is left to do after them. *)
Lemma algot_program_walks
  (calc_max : Z) (wild_load : Z → option Z) (nd : algot_data) :
  plan_ready calc_max nd →
  let nd1 := drain_wait_queue calc_max (wait_queue nd) nd in
  let ns := nsorted nd1 in
  let nd4 := place_run (cscan_order (rw_head nd) (sort_queue nd1)) 0
               (set_opt_ns ns nd1) in
  window_live calc_max (sorted nd4) ns ∧
  algot_program calc_max wild_load nd
  = (do mx <- program_matrix calc_max wild_load (sorted nd4) ns
                (program_diagonal ns (cost_matrix nd4));
     Ok (rebuilt (rw_head nd) mx nd1)).
Proof.
  intros Hready.
  destruct (drain_wait_queue_pending calc_max nd Hready)
    as ([Hb1 Hn1] & Hpos & Hasc1 & Hnd1).
  destruct Hready as [Hc _ _ _ _ _].
  unfold algot_program, rebuilt. cbv zeta.
  set (nd1 := drain_wait_queue calc_max (wait_queue nd) nd) in *.
  set (head := rw_head nd). set (ns := nsorted nd1) in *.
  set (nd2 := set_opt_ns ns nd1).
  change (sort_queue nd2) with (sort_queue nd1).
  set (sq := sort_queue nd1) in *.
  pose proof (cscan_order_length head sq) as Hlen.
  unfold cscan_order in Hlen. rewrite length_app in Hlen.
  rewrite program_above_run by lia. cbn [obind].
  destruct (place_run_fields (above_head head sq) 0 nd2) as (_ & Hsq3 & _).
  cbv zeta in Hsq3. rewrite Hsq3. change (sort_queue nd2) with sq.
  rewrite program_below_run
    by (try rewrite front_below_ascending by exact Hasc1; lia).
  cbn [obind]. rewrite front_below_ascending by exact Hasc1.
  rewrite <- place_run_app. fold (cscan_order head sq).
  set (nd4 := place_run (cscan_order head sq) 0 nd2).
  destruct (Z.ltb_spec calc_max ns) as [Hbad|_]; [lia|].
  split.
  - intros i Hi.
    destruct (lookup_lt_is_Some_2 (cscan_order head sq) (Z.to_nat i)) as [rq Hrq].
    { rewrite cscan_order_length. lia. }
    exists rq. apply (cscan_order_placed head nd1) in Hrq as [Hrq _]; [|exact Hnd1].
    rewrite Z2Nat.id in Hrq by lia.
    unfold sorted_get. fold ns nd2 sq nd4 in Hrq. rewrite Hrq.
    destruct (Z.leb_spec 0 i), (Z.ltb_spec i calc_max); try lia. reflexivity.
  - destruct (program_matrix _ _ _ _ _); cbn [obind]; try reflexivity.
    rewrite u32_small by lia. reflexivity.
Qed.

Lemma algot_program_result_filled
  (calc_max : Z) (wild_load : Z → option Z) (nd : algot_data) :
  plan_ready calc_max nd →
  ∃ mx, algot_program calc_max wild_load nd
        = Ok (rebuilt (rw_head nd) mx
                (drain_wait_queue calc_max (wait_queue nd) nd)) ∧
        filled (nsorted (drain_wait_queue calc_max (wait_queue nd) nd))
               (nsorted (drain_wait_queue calc_max (wait_queue nd) nd)) mx.
Proof.
  intros Hready.
  destruct (algot_program_walks calc_max wild_load nd Hready) as [Hlive Hrun].
  destruct (drain_wait_queue_pending calc_max nd Hready) as ([Hb1 Hn1] & _).
  cbv zeta in *.
  destruct (program_matrix_fills calc_max wild_load _ _ Hlive
              (cost_matrix (place_run
                 (cscan_order (rw_head nd)
                    (sort_queue (drain_wait_queue calc_max (wait_queue nd) nd))) 0
                 (set_opt_ns (nsorted (drain_wait_queue calc_max (wait_queue nd) nd))
                    (drain_wait_queue calc_max (wait_queue nd) nd)))))
    as (mx & Hmx & Hfilled); [lia|].
  rewrite Hmx in Hrun. exists mx. split; [exact Hrun | exact Hfilled].
Qed.

Lemma algot_program_result
  (calc_max : Z) (wild_load : Z → option Z) (nd : algot_data) :
  plan_ready calc_max nd →
  ∃ mx, algot_program calc_max wild_load nd
        = Ok (rebuilt (rw_head nd) mx
                (drain_wait_queue calc_max (wait_queue nd) nd)).
Proof.
  intros Hready.
  destruct (algot_program_result_filled calc_max wild_load nd Hready)
    as (mx & H & _). eauto.
Qed.

(** C6. When [algot_dispatch] calls [algot_program] on a state whose
    queues are in order ([plan_ready]), the rebuild completes and leaves
    [dirty = 0], [opt_s = 0] and [opt_e = N - 1], where N >= 1 is the live
    count [nsorted] after the wait queue has been drained, the number of
    requests on the sort queue.  The cells sorted[0 .. N-1] hold those
    requests in C-SCAN order for the arm position: the ones above it in
    ascending order, then the ones at or below it in ascending order, and
    each request's [elevator_private[0]] is its index. *)
Theorem program_rebuild
  (calc_max : Z) (wild_load : Z → option Z) (nd : algot_data) :
  plan_ready calc_max nd →
  ∃ nd',
    algot_program calc_max wild_load nd = Ok nd' ∧
    dirty nd' = 0 ∧
    opt_s nd' = 0 ∧
    opt_e nd' = nsorted nd' - 1 ∧
    opt_ns nd' = nsorted nd' ∧
    1 ≤ nsorted nd' ∧
    nsorted nd' = Z.of_nat (length (sort_queue nd')) ∧
    sort_queue nd' = sort_queue (drain_wait_queue calc_max (wait_queue nd) nd) ∧
    rw_head nd' = rw_head nd ∧
    cscan_order (rw_head nd') (sort_queue nd') ≡ₚ sort_queue nd' ∧
    (∀ (i : nat) (rq : request),
       cscan_order (rw_head nd') (sort_queue nd') !! i = Some rq →
       sorted nd' !! Z.of_nat i = Some (REF_RQ rq) ∧
       elevator_private nd' (rq_id rq) = PRI0_IDX (Z.of_nat i)) ∧
    ascending (above_head (rw_head nd') (sort_queue nd')) ∧
    ascending (below_head (rw_head nd') (sort_queue nd')).
Proof.
  intros Hready.
  destruct (algot_program_result calc_max wild_load nd Hready) as [mx Hrun].
  destruct (drain_wait_queue_pending calc_max nd Hready)
    as ([Hb1 Hn1] & Hpos & Hasc1 & Hnd1).
  destruct (drain_wait_queue_fields calc_max (wait_queue nd) nd) as (Hhead & _ & _).
  cbv zeta in Hhead.
  set (nd1 := drain_wait_queue calc_max (wait_queue nd) nd) in *.
  destruct (place_run_fields (cscan_order (rw_head nd) (sort_queue nd1)) 0
              (set_opt_ns (nsorted nd1) nd1))
    as (Hw4 & Hsq4 & Hmx4 & Hh4 & Hns4 & Hons4).
  cbv zeta in *. simpl in Hw4, Hsq4, Hmx4, Hh4, Hns4, Hons4.
  eexists. split; [exact Hrun|]. unfold rebuilt. simpl.
  rewrite Hns4, Hsq4, Hh4, Hons4, Hhead.
  repeat apply conj; try reflexivity; try assumption.
  - apply cscan_order_perm.
  - intros i rq Hi. now apply cscan_order_placed.
  - apply filter_ascending. exact Hasc1.
  - apply filter_ascending. exact Hasc1.
Qed.

Lemma program_rebuild_witness :
  let nd := admit_all ALGOT_CALC_MAX scenario_A (init_state blank_memory) in
  plan_ready ALGOT_CALC_MAX nd ∧
  ∃ nd', algot_program ALGOT_CALC_MAX (fun _ => None) nd = Ok nd' ∧
         dirty nd' = 0 ∧ opt_s nd' = 0 ∧ opt_e nd' = nsorted nd' - 1.
Proof.
  cbv zeta.
  assert (H : plan_ready ALGOT_CALC_MAX
                (admit_all ALGOT_CALC_MAX scenario_A (init_state blank_memory))).
  { assert (Hsq : sort_queue (admit_all ALGOT_CALC_MAX scenario_A
                                (init_state blank_memory))
                  = [mk_rq 2 10; mk_rq 4 30; mk_rq 1 50; mk_rq 3 80])
      by (vm_compute; reflexivity).
    assert (Hwq : wait_queue (admit_all ALGOT_CALC_MAX scenario_A
                                (init_state blank_memory)) = [])
      by (vm_compute; reflexivity).
    constructor.
    - unfold ALGOT_CALC_MAX; lia.
    - vm_compute; reflexivity.
    - vm_compute; discriminate.
    - rewrite Hsq. repeat constructor; unfold sector_le; simpl; lia.
    - rewrite Hsq, Hwq. simpl. eapply bool_decide_unpack. vm_compute. exact I.
    - left. rewrite Hsq. discriminate. }
  split; [exact H|].
  destruct (program_rebuild ALGOT_CALC_MAX (fun _ => None) _ H)
    as (nd' & H1 & H2 & H3 & H4 & _).
  exists nd'. auto.
Defined.

(** ** The invariant of the scheduler *)

(** *** Unlinking a request *)

Lemma elem_of_map_rq_id (r : request) (l : list request) :
  r ∈ l → rq_id r ∈ map rq_id l.
Proof.
  induction 1 as [r l | r x l _ IH]; simpl.
  - apply list_elem_of_here.
  - now apply list_elem_of_further.
Qed.

Lemma unlink_not_queued (rq : request) (l : list request) :
  rq_id rq ∉ map rq_id l → unlink rq l = l.
Proof.
  induction l as [|r l IH]; simpl; [reflexivity|].
  intros [Hne Hl]%not_elem_of_cons.
  destruct (Nat.eqb_spec (rq_id r) (rq_id rq)); [congruence|].
  now rewrite IH.
Qed.

Lemma unlink_queued (rq : request) (l : list request) :
  NoDup (map rq_id l) → rq ∈ l →
  ∃ l1 l2, l = l1 ++ rq :: l2 ∧ unlink rq l = l1 ++ l2.
Proof.
  induction l as [|r l IH]; simpl; intros Hnd Hin.
  - now apply elem_of_nil in Hin.
  - apply NoDup_cons in Hnd as [Hr Hnd].
    apply elem_of_cons in Hin as [-> | Hin].
    + rewrite Nat.eqb_refl. exists [], l. split; [reflexivity|].
      now apply unlink_not_queued.
    + destruct (Nat.eqb_spec (rq_id r) (rq_id rq)) as [Heq|Hne].
      * exfalso. apply Hr. rewrite Heq. now apply elem_of_map_rq_id.
      * destruct (IH Hnd Hin) as (l1 & l2 & -> & ->).
        exists (r :: l1), l2. split; reflexivity.
Qed.

Lemma unlink_sublist (rq : request) (l : list request) : unlink rq l `sublist_of` l.
Proof.
  induction l as [|r l IH]; simpl; [constructor|].
  destruct (Nat.eqb (rq_id r) (rq_id rq)); now constructor.
Qed.

Lemma unlink_elem_of (rq r : request) (l : list request) :
  r ∈ unlink rq l ↔ r ∈ l ∧ rq_id r ≠ rq_id rq.
Proof.
  induction l as [|x l IH]; simpl.
  - split; [intros H | intros [H _]]; now apply elem_of_nil in H.
  - destruct (Nat.eqb_spec (rq_id x) (rq_id rq)) as [Heq|Hne];
      rewrite ?elem_of_cons, IH; split.
    + intros [H1 H2]. auto.
    + intros [[-> | H1] H2]; [congruence | auto].
    + intros [-> | [H1 H2]]; auto.
    + intros [[-> | H1] H2]; auto.
Qed.

Lemma unlink_ascending (rq : request) (l : list request) :
  ascending l → ascending (unlink rq l).
Proof.
  unfold ascending. induction 1 as [|r l Hl IH Hr]; simpl; [constructor|].
  destruct (Nat.eqb (rq_id r) (rq_id rq)); [exact IH|].
  constructor; [exact IH|].
  rewrite Forall_forall in *. intros x [Hx _]%unlink_elem_of. now apply Hr.
Qed.

Lemma map_rq_id_sublist (l1 l2 : list request) :
  l1 `sublist_of` l2 → map rq_id l1 `sublist_of` map rq_id l2.
Proof. induction 1; simpl; now constructor. Qed.

Lemma unlink_distinct (rq : request) (l k : list request) :
  NoDup (map rq_id (l ++ k)) → NoDup (map rq_id (unlink rq l ++ unlink rq k)).
Proof.
  intros H. eapply sublist_NoDup; [exact H|].
  apply map_rq_id_sublist, sublist_app; apply unlink_sublist.
Qed.

(** *** Where the skipping loops stop *)

Lemma skip_forward_range (calc_max : Z) (sa : gmap Z slot) (fuel : nat) (s0 s : Z) :
  calc_max < 2 ^ 32 →
  skip_merged calc_max sa (fun s => u32 (s + 1)) fuel s0 = Ok s →
  s0 ≤ s ∧ (∀ i, s0 ≤ i < s → sa !! i = Some ALGOT_REF_MERGED).
Proof.
  intros Hc. revert s0. induction fuel as [|fuel IH]; intros s0; simpl;
    destruct (sorted_get calc_max sa s0) as [p| | |] eqn:Hget; simpl;
    try discriminate;
    destruct (is_merged p) eqn:Hm; try discriminate;
    try (intros [= <-]; split; [lia | intros; lia]).
  apply sorted_get_in_bounds in Hget as [Hb Hp].
  rewrite u32_small by lia. intros [Hs Hall]%IH.
  split; [lia|]. intros i Hi.
  destruct (Z.eq_dec i s0) as [->|]; [|apply Hall; lia].
  destruct p; try discriminate. exact Hp.
Qed.

Lemma skip_backward_range (calc_max : Z) (sa : gmap Z slot) (fuel : nat) (e0 e : Z) :
  calc_max < 2 ^ 32 →
  skip_merged calc_max sa (fun e => u32 (e - 1)) fuel e0 = Ok e →
  e ≤ e0 ∧ (∀ i, e < i ≤ e0 → sa !! i = Some ALGOT_REF_MERGED).
Proof.
  intros Hc. revert e0. induction fuel as [|fuel IH]; intros e0; simpl;
    destruct (sorted_get calc_max sa e0) as [p| | |] eqn:Hget; simpl;
    try discriminate;
    destruct (is_merged p) eqn:Hm; try discriminate;
    try (intros [= <-]; split; [lia | intros; lia]).
  apply sorted_get_in_bounds in Hget as [Hb Hp].
  destruct (Z.eq_dec e0 0) as [->|Hne].
  - change (u32 (0 - 1)) with (2 ^ 32 - 1). intros Hskip. exfalso.
    destruct fuel; simpl in Hskip; unfold sorted_get in Hskip;
      destruct (Z.ltb_spec (2 ^ 32 - 1) calc_max); try lia;
      rewrite andb_false_r in Hskip; discriminate.
  - rewrite u32_small by lia. intros [Hs Hall]%IH.
    split; [lia|]. intros i Hi.
    destruct (Z.eq_dec i e0) as [->|]; [|apply Hall; lia].
    destruct p; try discriminate. exact Hp.
Qed.

(** *** Each call of the host keeps the state consistent *)

Section Consistency.
Variable calc_max : Z.
Variable wild_load : Z → option Z.
Hypothesis Hcap : 1 ≤ calc_max < 2 ^ 32.

Lemma init_state_consistent (mem : algot_data) : consistent calc_max (init_state mem).
Proof.
  constructor; simpl.
  - split; simpl; lia.
  - constructor.
  - constructor.
  - intros r Hr. now apply elem_of_nil in Hr.
  - intros r Hr. now apply elem_of_nil in Hr.
  - right. left. auto.
Qed.

Lemma not_queued_id (rq r : request) (l : list request) :
  rq_id rq ∉ map rq_id l → r ∈ l → Nat.eqb (rq_id r) (rq_id rq) = false.
Proof.
  intros Hnot Hr. apply Nat.eqb_neq. intros Heq. apply Hnot.
  rewrite <- Heq. now apply elem_of_map_rq_id.
Qed.

Lemma list_add_before_greater_elem_of (pos : Z) (rq r : request) (l : list request) :
  r ∈ list_add_before_greater pos rq l ↔ r = rq ∨ r ∈ l.
Proof.
  rewrite (list_add_before_greater_perm pos rq l). apply elem_of_cons.
Qed.

Lemma algot_sort_in_consistent (nd : algot_data) (rq : request) :
  consistent calc_max nd →
  rq_id rq ∉ map rq_id (sort_queue nd ++ wait_queue nd) →
  nsorted nd < calc_max →
  dirty nd < INT_MAX →
  consistent calc_max (algot_sort_in nd rq).
Proof.
  intros [Hcnt Hasc Hnd Hwt Hst Hwin] Hfresh Hroom Hint.
  assert (Hfs : rq_id rq ∉ map rq_id (sort_queue nd)).
  { intros H. apply Hfresh. rewrite map_app. apply elem_of_app. now left. }
  assert (Hfw : rq_id rq ∉ map rq_id (wait_queue nd)).
  { intros H. apply Hfresh. rewrite map_app. apply elem_of_app. now right. }
  constructor.
  - apply algot_sort_in_count; [lia | exact Hcnt | exact Hroom].
  - now apply algot_sort_in_ascending.
  - simpl. rewrite (Permutation_map rq_id
      (Permutation_app_tail _ (list_add_before_greater_perm _ rq (sort_queue nd)))).
    simpl. apply NoDup_cons. split; assumption.
  - simpl. intros r Hr. rewrite (not_queued_id rq r _ Hfw Hr). now apply Hwt.
  - simpl. intros r [-> | Hr]%list_add_before_greater_elem_of.
    + left. simpl. now rewrite Nat.eqb_refl.
    + destruct (Hst r Hr) as [Hs | (i & Hi & Hb & Hsl)].
      * left. simpl. now rewrite (not_queued_id rq r _ Hfs Hr).
      * right. exists i. simpl. now rewrite (not_queued_id rq r _ Hfs Hr).
  - change (dirty (algot_sort_in nd rq)) with (s32 (dirty nd + 1)).
    unfold INT_MAX, ALGOT_DIRTY_RESET, ALGOT_DIRTY_COUNT in *.
    destruct Hwin as [Hd | [(Hd & _) | Hw]].
    + left. rewrite s32_small; lia.
    + left. rewrite s32_small; lia.
    + right. right. destruct Hw as (H1 & H2 & H3 & H4 & H5 & H6).
      unfold window_ok; simpl. repeat apply conj; try assumption.
      * intros i Hi. destruct (H5 i Hi) as [Hm | (r & Hr1 & Hr2 & Hr3)]; [now left|].
        right. exists r. rewrite (not_queued_id rq r _ Hfs Hr2).
        repeat split; try assumption.
        apply list_add_before_greater_elem_of. now right.
      * intros r i [-> | Hr]%list_add_before_greater_elem_of.
        -- rewrite Nat.eqb_refl. discriminate.
        -- rewrite (not_queued_id rq r _ Hfs Hr). now apply H6.
Qed.

Lemma drain_wait_queue_consistent (wq : list request) (nd : algot_data) :
  consistent calc_max nd → wait_queue nd = wq →
  INT_MIN ≤ dirty nd →
  dirty nd + Z.min (Z.of_nat (length wq)) (calc_max - nsorted nd) ≤ INT_MAX →
  consistent calc_max (drain_wait_queue calc_max wq nd).
Proof.
  revert nd. induction wq as [|r wq IH]; intros nd Hcons Hwq Hlo Hhi; simpl.
  - rewrite <- Hwq, set_wait_queue_same. exact Hcons.
  - destruct (Z.ltb_spec (nsorted nd) calc_max) as [Hroom|_];
      [|rewrite <- Hwq, set_wait_queue_same; exact Hcons].
    destruct Hcons as [Hcnt Hasc Hnd Hwt Hst Hwin].
    rewrite Hwq, map_app in Hnd. simpl in Hnd.
    apply NoDup_app in Hnd as (Hnd1 & Hdisj & [Hr Hnd2]%NoDup_cons).
    assert (Hn1 : nsorted (algot_sort_in (set_wait_queue wq nd) r) = nsorted nd + 1).
    { change (nsorted (algot_sort_in _ r)) with (u32 (nsorted nd + 1)).
      apply u32_small. destruct Hcnt. lia. }
    assert (Hd1 : dirty (algot_sort_in (set_wait_queue wq nd) r) = dirty nd + 1).
    { change (dirty (algot_sort_in _ r)) with (s32 (dirty nd + 1)).
      apply s32_small. unfold INT_MIN, INT_MAX in *. simpl length in Hhi. lia. }
    apply IH; [|reflexivity | rewrite Hd1; unfold INT_MIN in *; lia
               | rewrite Hd1, Hn1; simpl length in Hhi; lia].
    apply algot_sort_in_consistent;
      [| |exact Hroom | change (dirty (set_wait_queue wq nd)) with (dirty nd);
                         simpl length in Hhi; lia].
    + constructor; simpl; try assumption.
      * rewrite map_app. apply NoDup_app. repeat split; try assumption.
        intros x Hx Hx'. apply (Hdisj x Hx). now apply list_elem_of_further.
      * intros x Hx. apply Hwt. rewrite Hwq. now apply list_elem_of_further.
      * destruct Hwin as [Hd | [(_ & _ & Hw) | Hw]]; [now left | | now right; right].
        rewrite Hwq in Hw. discriminate.
    + simpl. rewrite map_app. apply not_elem_of_app. split; [|exact Hr].
      intros Hx. apply (Hdisj _ Hx). apply list_elem_of_here.
Qed.

Lemma algot_add_request_consistent (nd : algot_data) (rq : request) :
  consistent calc_max nd →
  rq_id rq ∉ map rq_id (sort_queue nd ++ wait_queue nd) →
  INT_MIN ≤ dirty nd → counter_has_room calc_max nd →
  consistent calc_max (algot_add_request calc_max nd rq).
Proof.
  intros Hcons Hfresh Hlo Hhi. unfold algot_add_request.
  assert (Hok : queue_count_ok calc_max nd) by now destruct Hcons.
  unfold counter_has_room, sort_ins in Hhi.
  assert (H1 : consistent calc_max (drain_wait_queue calc_max (wait_queue nd) nd)).
  { apply drain_wait_queue_consistent; [exact Hcons | reflexivity | exact Hlo|].
    destruct Hok. lia. }
  destruct (drain_wait_queue_prefix calc_max (wait_queue nd) nd ltac:(lia) Hok)
    as (P1 & _ & P3 & P4).
  pose proof (drain_wait_queue_perm calc_max (wait_queue nd) nd) as Hperm.
  cbv zeta in P1, P3, P4.
  set (nd1 := drain_wait_queue calc_max (wait_queue nd) nd) in *.
  assert (Hfresh1 : rq_id rq ∉ map rq_id (sort_queue nd1 ++ wait_queue nd1)).
  { now rewrite (Permutation_map rq_id Hperm). }
  destruct (list_empty (wait_queue nd1) && (nsorted nd1 <? calc_max)) eqn:Hroom.
  - apply andb_true_iff in Hroom as [Hemp Hroom%Z.ltb_lt].
    apply algot_sort_in_consistent; [exact H1 | exact Hfresh1 | exact Hroom|].
    destruct (wait_queue nd1) eqn:Hw1; [|discriminate Hemp].
    apply (f_equal length) in P1. rewrite length_drop in P1. simpl in P1.
    destruct Hok. rewrite P4; lia.
  - destruct H1 as [Hcnt Hasc Hnd Hwt Hst Hwin].
    assert (Hfs : rq_id rq ∉ map rq_id (sort_queue nd1)).
    { intros H. apply Hfresh1. rewrite map_app. apply elem_of_app. now left. }
    assert (Hfw : rq_id rq ∉ map rq_id (wait_queue nd1)).
    { intros H. apply Hfresh1. rewrite map_app. apply elem_of_app. now right. }
    constructor; simpl; try assumption.
    + rewrite app_assoc.
      rewrite (Permutation_map rq_id (Permutation_app_comm _ [rq])).
      simpl. apply NoDup_cons. split; assumption.
    + intros r [Hr | ->%list_elem_of_singleton]%elem_of_app.
      * rewrite (not_queued_id rq r _ Hfw Hr). now apply Hwt.
      * now rewrite Nat.eqb_refl.
    + intros r Hr.
      destruct (Hst r Hr) as [Hs | (i & Hi & Hb & Hsl)]; unfold tag_ok; simpl;
        rewrite (not_queued_id rq r _ Hfs Hr); [now left|].
      right. now exists i.
    + destruct Hwin as [Hd | [(_ & Hsq & Hw) | Hw]]; [now left | |].
      { exfalso. destruct Hcnt as [_ Hn]. rewrite Hsq in Hn. simpl in Hn.
        rewrite Hw, Hn in Hroom. simpl in Hroom.
        apply Z.ltb_ge in Hroom. lia. }
      right. right. destruct Hw as (W1 & W2 & W3 & W4 & W5 & W6).
      unfold window_ok; simpl. repeat apply conj; try assumption.
      * intros i Hi. destruct (W5 i Hi) as [Hm | (r & Hr1 & Hr2 & Hr3)]; [now left|].
        right. exists r. now rewrite (not_queued_id rq r _ Hfs Hr2).
      * intros r i Hr. rewrite (not_queued_id rq r _ Hfs Hr). now apply W6.
Qed.

Lemma drain_wait_queue_wait_tag (wq : list request) (nd : algot_data) :
  NoDup (map rq_id wq) →
  (∀ r, r ∈ wq → elevator_private nd (rq_id r) = ALGOT_PRI0_UNSORTED) →
  ∀ r, r ∈ wait_queue (drain_wait_queue calc_max wq nd) →
       elevator_private (drain_wait_queue calc_max wq nd) (rq_id r)
       = ALGOT_PRI0_UNSORTED.
Proof.
  revert nd. induction wq as [|r0 wq IH]; intros nd Hnd Ht r; simpl.
  - intros Hr. now apply elem_of_nil in Hr.
  - destruct (nsorted nd <? calc_max); [|apply Ht].
    simpl in Hnd. apply NoDup_cons in Hnd as [Hr0 Hnd]. apply IH; [exact Hnd|].
    intros x Hx. simpl. rewrite (not_queued_id r0 x wq Hr0 Hx).
    apply Ht. now apply list_elem_of_further.
Qed.

Lemma distinct_sort_wait (nd : algot_data) (r : request) :
  NoDup (map rq_id (sort_queue nd ++ wait_queue nd)) →
  (r ∈ sort_queue nd → rq_id r ∉ map rq_id (wait_queue nd)) ∧
  (r ∈ wait_queue nd → rq_id r ∉ map rq_id (sort_queue nd)).
Proof.
  rewrite map_app. intros (_ & Hdisj & _)%NoDup_app. split.
  - intros Hr. apply Hdisj. now apply elem_of_map_rq_id.
  - intros Hr Hs. apply (Hdisj _ Hs). now apply elem_of_map_rq_id.
Qed.

Lemma distinct_sort_queue (nd : algot_data) :
  NoDup (map rq_id (sort_queue nd ++ wait_queue nd)) →
  NoDup (map rq_id (sort_queue nd)).
Proof. rewrite map_app. now intros (H & _)%NoDup_app. Qed.

Lemma length_unlink_queued (rq : request) (l : list request) :
  NoDup (map rq_id l) → rq ∈ l →
  Z.of_nat (length (unlink rq l)) = Z.of_nat (length l) - 1.
Proof.
  intros Hnd Hin. destruct (unlink_queued rq l Hnd Hin) as (l1 & l2 & -> & ->).
  rewrite !length_app. simpl. lia.
Qed.

(** Taking a queued request off the sort queue, once its cell (if it has
    one) no longer points to it. *)
Lemma leave_sort_queue_consistent (nd nd' : algot_data) (next : request) :
  consistent calc_max nd → next ∈ sort_queue nd →
  sort_queue nd' = unlink next (sort_queue nd) →
  wait_queue nd' = unlink next (wait_queue nd) →
  nsorted nd' = nsorted nd - 1 →
  elevator_private nd' = elevator_private nd →
  (∀ r i, r ∈ sort_queue nd → rq_id r ≠ rq_id next →
          sorted nd !! i = Some (REF_RQ r) → sorted nd' !! i = Some (REF_RQ r)) →
  ALGOT_DIRTY_COUNT ≤ dirty nd' ∨ window_ok calc_max nd' →
  consistent calc_max nd'.
Proof.
  intros [Hcnt Hasc Hnd Hwt Hst Hwin] Hin Hsq Hwq Hns Hpriv Hsa Hw.
  pose proof (distinct_sort_queue nd Hnd) as Hnds.
  destruct (distinct_sort_wait nd next Hnd) as [Hnw _].
  rewrite (unlink_not_queued next (wait_queue nd)) in Hwq by now apply Hnw.
  constructor; rewrite ?Hsq, ?Hwq, ?Hpriv.
  - destruct Hcnt as [Hb Hn].
    pose proof (length_unlink_queued next _ Hnds Hin) as Hlen.
    assert (0 < length (sort_queue nd))%nat
      by (destruct (sort_queue nd); [now apply elem_of_nil in Hin | simpl; lia]).
    unfold queue_count_ok. rewrite Hns, Hsq. lia.
  - now apply unlink_ascending.
  - rewrite <- (unlink_not_queued next (wait_queue nd)) by now apply Hnw.
    now apply unlink_distinct.
  - exact Hwt.
  - intros r [Hr Hne]%unlink_elem_of.
    destruct (Hst r Hr) as [Hs | (i & Hi & Hb & Hsl)]; unfold tag_ok;
      rewrite Hpriv; [now left|].
    right. exists i. split; [exact Hi|]. split; [exact Hb|]. now apply (Hsa r i).
  - destruct Hw as [Hd | Hw]; [now left | now right; right].
Qed.

Lemma algot_merged_requests_consistent (nd : algot_data) (rq next : request) :
  consistent calc_max nd → next ∈ sort_queue nd ++ wait_queue nd →
  ∃ nd', algot_merged_requests calc_max nd rq next = Ok nd' ∧
         consistent calc_max nd'.
Proof.
  intros Hcons Hin. unfold algot_merged_requests.
  pose proof Hcons as [Hcnt Hasc Hnd Hwt Hst Hwin].
  apply elem_of_app in Hin as [Hin | Hin].
  - (* on the sort queue *)
    assert (Hone : u32 (nsorted nd - 1) = nsorted nd - 1).
    { destruct Hcnt as [Hb Hn]. apply u32_small.
      destruct (sort_queue nd); [now apply elem_of_nil in Hin | simpl in Hn; lia]. }
    destruct (Hst next Hin) as [Hs | (i0 & Hi0 & Hb0 & Hsl0)].
    + rewrite Hs. cbn [obind]. rewrite Hone. eexists. split; [reflexivity|].
      apply (leave_sort_queue_consistent nd _ next);
        [assumption | assumption | reflexivity | reflexivity | reflexivity
        | reflexivity | auto |].
      destruct Hwin as [Hd | [(_ & Hsq & _) | Hw]]; [now left | |].
      { rewrite Hsq in Hin. now apply elem_of_nil in Hin. }
      right. destruct Hw as (W1 & W2 & W3 & W4 & W5 & W6).
      unfold window_ok; simpl. repeat apply conj; try assumption.
      * intros i Hi. destruct (W5 i Hi) as [Hm | (r & Hr1 & Hr2 & Hr3)]; [now left|].
        right. exists r. repeat split; try assumption.
        apply unlink_elem_of. split; [assumption|]. intros Heq.
        rewrite Heq, Hs in Hr3. discriminate.
      * intros r i [Hr _]%unlink_elem_of. now apply W6.
    + rewrite Hi0. destruct (Z.gtb_spec i0 calc_max); [lia|].
      unfold sorted_put. simpl sorted.
      destruct (Z.leb_spec 0 i0), (Z.ltb_spec i0 calc_max); try lia.
      cbn [andb obind]. rewrite Hone. eexists. split; [reflexivity|].
      assert (Hother : ∀ r i, r ∈ sort_queue nd → rq_id r ≠ rq_id next →
                sorted nd !! i = Some (REF_RQ r) →
                <[i0:=ALGOT_REF_MERGED]> (sorted nd) !! i = Some (REF_RQ r)).
      { intros r i Hr Hne Hsl. rewrite lookup_insert_ne; [exact Hsl|].
        intros ->. rewrite Hsl0 in Hsl. injection Hsl as <-. now apply Hne. }
      apply (leave_sort_queue_consistent nd _ next);
        [assumption | assumption | reflexivity | reflexivity | reflexivity
        | reflexivity | exact Hother |].
      destruct Hwin as [Hd | [(_ & Hsq & _) | Hw]]; [now left | |].
      { rewrite Hsq in Hin. now apply elem_of_nil in Hin. }
      right. destruct Hw as (W1 & W2 & W3 & W4 & W5 & W6).
      pose proof (W6 next i0 Hin Hi0) as Hrange.
      unfold window_ok; simpl. repeat apply conj; try assumption.
      * intros i Hi. rewrite lookup_insert_ne by lia. now apply W4.
      * intros i Hi. destruct (Z.eq_dec i i0) as [->|Hne].
        { left. apply lookup_insert_eq. }
        rewrite lookup_insert_ne by congruence.
        destruct (W5 i Hi) as [Hm | (r & Hr1 & Hr2 & Hr3)]; [now left|].
        right. exists r. repeat split; try assumption.
        apply unlink_elem_of. split; [assumption|]. intros Heq.
        rewrite Heq, Hi0 in Hr3. congruence.
      * intros r i [Hr _]%unlink_elem_of. now apply W6.
  - (* on the wait queue *)
    rewrite (Hwt next Hin). cbn [obind]. eexists. split; [reflexivity|].
    destruct (distinct_sort_wait nd next Hnd) as [_ Hns]. specialize (Hns Hin).
    unfold list_del_init. simpl.
    rewrite (unlink_not_queued next (sort_queue nd)) by exact Hns.
    constructor; simpl; try assumption.
    + rewrite <- (unlink_not_queued next (sort_queue nd)) at 1 by exact Hns.
      now apply unlink_distinct.
    + intros r [Hr _]%unlink_elem_of. now apply Hwt.
    + destruct Hwin as [Hd | [(_ & _ & Hw) | Hw]]; [now left | |].
      { rewrite Hw in Hin. now apply elem_of_nil in Hin. }
      right; right. exact Hw.
Qed.

Lemma consistent_plan_ready (nd : algot_data) :
  consistent calc_max nd →
  sort_queue nd ≠ [] ∨ wait_queue nd ≠ [] →
  plan_ready calc_max nd.
Proof.
  intros [[Hb Hn] Hasc Hnd _ _ _] Hpend.
  constructor; try assumption; lia.
Qed.

Lemma algot_program_consistent (nd : algot_data) :
  consistent calc_max nd →
  sort_queue nd ≠ [] ∨ wait_queue nd ≠ [] →
  ∃ nd', algot_program calc_max wild_load nd = Ok nd' ∧
         consistent calc_max nd' ∧ window_ok calc_max nd' ∧
         sort_queue nd' ≠ [] ∧
         matrix_ready nd' ∧ window_pending nd' ∧
         sort_queue nd' ++ wait_queue nd' ≡ₚ sort_queue nd ++ wait_queue nd ∧
         rw_head nd' = rw_head nd ∧ dirty nd' = 0.
Proof.
  intros Hcons Hpend.
  pose proof (consistent_plan_ready nd Hcons Hpend) as Hready.
  destruct (algot_program_result_filled calc_max wild_load nd Hready)
    as (mx & Hrun & Hfilled).
  destruct (drain_wait_queue_fields calc_max (wait_queue nd) nd) as (Hhead1 & _ & _).
  pose proof (drain_wait_queue_perm calc_max (wait_queue nd) nd) as Hperm1.
  cbv zeta in Hhead1.
  destruct (drain_wait_queue_pending calc_max nd Hready)
    as ([Hb1 Hn1] & Hpos & Hasc1 & Hnd1).
  assert (Hwt : ∀ r, r ∈ wait_queue (drain_wait_queue calc_max (wait_queue nd) nd) →
                     elevator_private (drain_wait_queue calc_max (wait_queue nd) nd)
                       (rq_id r) = ALGOT_PRI0_UNSORTED).
  { destruct Hcons as [_ _ Hnd Hwt _ _].
    apply drain_wait_queue_wait_tag; [|exact Hwt].
    rewrite map_app in Hnd. now apply NoDup_app in Hnd as (_ & _ & Hnd). }
  assert (Hnd : NoDup (map rq_id
                         (sort_queue (drain_wait_queue calc_max (wait_queue nd) nd)
                          ++ wait_queue (drain_wait_queue calc_max (wait_queue nd) nd)))).
  { rewrite (Permutation_map rq_id Hperm1). now destruct Hcons. }
  set (nd1 := drain_wait_queue calc_max (wait_queue nd) nd) in *.
  set (head := rw_head nd) in *.
  destruct (place_run_fields (cscan_order head (sort_queue nd1)) 0
              (set_opt_ns (nsorted nd1) nd1))
    as (Hw4 & Hsq4 & Hmx4 & Hh4 & Hns4 & Hons4).
  cbv zeta in *. simpl in Hw4, Hsq4, Hmx4, Hh4, Hns4, Hons4.
  pose proof (conj Hb1 Hn1 : queue_count_ok calc_max nd1) as Hcnt.
  pose proof Hasc1 as Hasc.
  pose proof (cscan_order_length head (sort_queue nd1)) as Hlen.
  assert (Hidx : ∀ r, r ∈ sort_queue nd1 →
            ∃ i : nat, cscan_order head (sort_queue nd1) !! i = Some r ∧
                       0 ≤ Z.of_nat i < nsorted nd1).
  { intros r Hr. rewrite <- (cscan_order_perm head) in Hr.
    apply list_elem_of_lookup in Hr as [i Hi]. exists i. split; [exact Hi|].
    apply lookup_lt_Some in Hi. lia. }
  assert (Hwindow : window_ok calc_max (rebuilt head mx nd1)).
  { unfold window_ok, rebuilt. simpl. rewrite Hons4, Hsq4.
    repeat apply conj; try lia.
    - intros i Hi. right.
      destruct (lookup_lt_is_Some_2 (cscan_order head (sort_queue nd1))
                  (Z.to_nat i)) as [r Hr]; [lia|].
      exists r. pose proof Hr as Hr'.
      apply (cscan_order_placed head nd1) in Hr as [Hr1 Hr2]; [|exact Hnd1].
      rewrite Z2Nat.id in Hr1, Hr2 by lia. repeat split; try assumption.
      rewrite <- (cscan_order_perm head). eapply list_elem_of_lookup_2. exact Hr'.
    - intros r i Hr Hi. destruct (Hidx r Hr) as (j & Hj & Hjb).
      apply (cscan_order_placed head nd1) in Hj as [_ Hj2]; [|exact Hnd1].
      cbv zeta in Hj2. rewrite Hj2 in Hi. injection Hi as <-. lia. }
  exists (rebuilt head mx nd1). split; [exact Hrun|].
  split; [|split; [exact Hwindow|split; [|split; [|split; [|split; [|split]]]]]].
  - constructor.
    + unfold queue_count_ok, rebuilt; simpl. rewrite Hns4, Hsq4. exact Hcnt.
    + unfold rebuilt; simpl. rewrite Hsq4. exact Hasc.
    + unfold rebuilt; simpl. rewrite Hsq4, Hw4. exact Hnd.
    + unfold rebuilt; simpl. rewrite Hw4.
      intros r Hr. rewrite place_run_private_other; [now apply Hwt|].
      rewrite (Permutation_map rq_id (cscan_order_perm head (sort_queue nd1))).
      destruct (distinct_sort_wait nd1 r Hnd) as [_ H]. now apply H.
    + unfold rebuilt; simpl. rewrite Hsq4.
      intros r Hr. right. destruct (Hidx r Hr) as (j & Hj & Hjb).
      apply (cscan_order_placed head nd1) in Hj as [Hj1 Hj2]; [|exact Hnd1].
      exists (Z.of_nat j). split; [exact Hj2|]. split; [lia | exact Hj1].
    + right. right. exact Hwindow.
  - unfold rebuilt; simpl. rewrite Hsq4.
    destruct (sort_queue nd1); [simpl in Hn1; lia | discriminate].
  - unfold matrix_ready, rebuilt; simpl. rewrite Hons4. exact Hfilled.
  - destruct (lookup_lt_is_Some_2 (cscan_order head (sort_queue nd1)) 0)
      as [r Hr]; [lia|].
    apply (cscan_order_placed head nd1) in Hr as [Hr _]; [|exact Hnd1].
    exists 0, r. unfold rebuilt; simpl. split; [lia | exact Hr].
  - unfold rebuilt; simpl. rewrite Hsq4, Hw4. exact Hperm1.
  - unfold rebuilt; simpl. rewrite Hh4. exact Hhead1.
  - reflexivity.
Qed.

(** Once [pick_index] has settled on a cell of the window that points to a
    queued request, [pick_opt] hands that request out. *)
Lemma pick_opt_picked (fuel : nat) (nd nd2 : algot_data) (i : Z) :
  consistent calc_max nd → window_ok calc_max nd →
  pick_index calc_max wild_load nd = Ok (i, nd2) →
  picked_in_window calc_max nd nd2 i →
  ∃ r, sorted nd !! i = Some (REF_RQ r) ∧ r ∈ sort_queue nd ∧
       elevator_private nd (rq_id r) = PRI0_IDX i ∧
       pick_opt calc_max wild_load fuel nd = Ok (r, dispatched i r nd2) ∧
       consistent calc_max (dispatched i r nd2).
Proof.
  intros Hcons Hwin Hpick (Hrange & Hb & (r & Hslot & Hr & Htag) & Hshape).
  exists r. split; [exact Hslot|]. split; [exact Hr|]. split; [exact Htag|].
  assert (Hsame : sorted nd2 = sorted nd ∧ sort_queue nd2 = sort_queue nd ∧
                  wait_queue nd2 = wait_queue nd ∧ nsorted nd2 = nsorted nd ∧
                  elevator_private nd2 = elevator_private nd ∧
                  opt_ns nd2 = opt_ns nd).
  { destruct Hshape as [[-> _] | [[-> _] | [-> _]]]; repeat split. }
  destruct Hsame as (E1 & E2 & E3 & E4 & E5 & E6).
  split.
  { rewrite pick_opt_unfold, Hpick. cbn [obind].
    unfold sorted_get, sorted_put. rewrite E1, Hslot.
    destruct (Z.leb_spec 0 i), (Z.ltb_spec i calc_max); try lia.
    cbn [andb obind]. unfold dispatched. rewrite E1. reflexivity. }
  pose proof Hcons as [[Hcb Hcn] _ Hnd _ Hst _].
  assert (Hone : u32 (nsorted nd - 1) = nsorted nd - 1).
  { apply u32_small.
    destruct (sort_queue nd); [now apply elem_of_nil in Hr | simpl in Hcn; lia]. }
  assert (Hother : ∀ r' j, r' ∈ sort_queue nd → rq_id r' ≠ rq_id r →
            sorted nd !! j = Some (REF_RQ r') →
            <[i:=ALGOT_REF_DISPATCHED]> (sorted nd) !! j = Some (REF_RQ r')).
  { intros r' j Hr' Hne Hsl. rewrite lookup_insert_ne; [exact Hsl|].
    intros ->. rewrite Hslot in Hsl. injection Hsl as <-. now apply Hne. }
  assert (Hslot_of : ∀ r' j, r' ∈ sort_queue nd →
            elevator_private nd (rq_id r') = PRI0_IDX j →
            sorted nd !! j = Some (REF_RQ r')).
  { intros r' j Hr' Hj. destruct (Hst r' Hr') as [Hs | (k & Hk & _ & Hsl)];
      [congruence|]. rewrite Hj in Hk. now injection Hk as <-. }
  destruct Hwin as (W1 & W2 & W3 & W4 & W5 & W6).
  apply (leave_sort_queue_consistent nd _ r Hcons Hr); unfold dispatched; simpl;
    rewrite ?E1, ?E2, ?E3, ?E4, ?E5; try reflexivity; try exact Hone;
    try exact Hother.
  destruct Hshape as [(-> & Hm & _) | [(-> & Hm & _) | (-> & _)]]; simpl;
    [right | right | now left].
  - (* the near end was picked *)
    unfold window_ok; simpl. repeat apply conj; try lia.
    + intros j Hj. destruct (Z.eq_dec j i) as [->|Hne].
      { left. apply lookup_insert_eq. }
      rewrite lookup_insert_ne by congruence.
      destruct (Z.lt_ge_cases j (opt_s nd)); [apply W4; lia|].
      destruct (Z.lt_ge_cases j i); [right; apply Hm; lia | apply W4; lia].
    + intros j Hj. rewrite lookup_insert_ne by lia.
      destruct (W5 j) as [Hmj | (r' & Hr1 & Hr2 & Hr3)]; [lia | now left |].
      right. exists r'. repeat split; try assumption.
      apply unlink_elem_of. split; [assumption|]. intros Heq.
      rewrite Heq, Htag in Hr3. injection Hr3. lia.
    + intros r' j [Hr' Hne]%unlink_elem_of Hj.
      pose proof (W6 r' j Hr' Hj) as Hjr.
      pose proof (Hslot_of r' j Hr' Hj) as Hsl.
      destruct (Z.eq_dec j i) as [->|Hji].
      { rewrite Hslot in Hsl. injection Hsl as <-. congruence. }
      destruct (Z.lt_ge_cases j i); [|lia].
      rewrite Hm in Hsl by lia. discriminate.
  - (* the far end was picked *)
    unfold window_ok; simpl. repeat apply conj; try lia.
    + intros j Hj. destruct (Z.eq_dec j i) as [->|Hne].
      { left. apply lookup_insert_eq. }
      rewrite lookup_insert_ne by congruence.
      destruct (Z.lt_ge_cases (opt_e nd) j); [apply W4; lia|].
      destruct (Z.lt_ge_cases i j); [right; apply Hm; lia | apply W4; lia].
    + intros j Hj. rewrite lookup_insert_ne by lia.
      destruct (W5 j) as [Hmj | (r' & Hr1 & Hr2 & Hr3)]; [lia | now left |].
      right. exists r'. repeat split; try assumption.
      apply unlink_elem_of. split; [assumption|]. intros Heq.
      rewrite Heq, Htag in Hr3. injection Hr3. lia.
    + intros r' j [Hr' Hne]%unlink_elem_of Hj.
      pose proof (W6 r' j Hr' Hj) as Hjr.
      pose proof (Hslot_of r' j Hr' Hj) as Hsl.
      destruct (Z.eq_dec j i) as [->|Hji].
      { rewrite Hslot in Hsl. injection Hsl as <-. congruence. }
      destruct (Z.lt_ge_cases i j); [|lia].
      rewrite Hm in Hsl by lia. discriminate.
Qed.

(** From here on a load through the pointer 0x1 is taken to trap. *)
Hypothesis Htrap : wild_load 1 = None.

Lemma sorted_pos_dispatched (sa : gmap Z slot) (i : Z) :
  sa !! i = Some ALGOT_REF_DISPATCHED →
  ∀ v, sorted_pos calc_max wild_load sa i ≠ Ok v.
Proof.
  intros Hi v. unfold sorted_pos, sorted_get.
  destruct (_ && _); [|discriminate]. rewrite Hi. cbn [obind].
  rewrite Htrap. discriminate.
Qed.

Lemma pick_index_in_window (nd nd2 : algot_data) (i : Z) :
  window_ok calc_max nd →
  pick_index calc_max wild_load nd = Ok (i, nd2) →
  picked_in_window calc_max nd nd2 i.
Proof.
  intros (W1 & W2 & W3 & W4 & W5 & W6). unfold pick_index, picked_in_window.
  destruct (skip_merged _ _ _ _ (opt_s nd)) as [s| | |] eqn:Hs; try discriminate.
  destruct (skip_merged _ _ _ _ (opt_e nd)) as [e| | |] eqn:He; try discriminate.
  cbn [obind].
  destruct (skip_merged_stops _ _ _ _ _ _ Hs) as (ps & Hps & Hms).
  destruct (skip_merged_stops _ _ _ _ _ _ He) as (pe & Hpe & Hme).
  apply skip_forward_range in Hs as [Hs1 Hs2]; [|lia].
  apply skip_backward_range in He as [He1 He2]; [|lia].
  apply sorted_get_in_bounds in Hps as [Hbs Hps], Hpe as [Hbe Hpe].
  assert (Hlive : ∀ j p, opt_s nd ≤ j ≤ opt_e nd → sorted nd !! j = Some p →
            is_merged p = false →
            ∃ r, sorted nd !! j = Some (REF_RQ r) ∧ r ∈ sort_queue nd ∧
                 elevator_private nd (rq_id r) = PRI0_IDX j).
  { intros j p Hj Hp Hm. destruct (W5 j Hj) as [Hmj | Hr]; [|exact Hr].
    rewrite Hmj in Hp. injection Hp as <-. discriminate. }
  assert (Hse : opt_s nd ≤ e → s ≤ e).
  { intros Hle. destruct (Z.le_gt_cases s e); [assumption|].
    rewrite Hs2 in Hpe by lia. injection Hpe as <-. discriminate. }
  destruct (Z.eqb_spec s e) as [<-|Hne]; cbn [negb].
  - intros [= <- <-]. split; [lia|]. split; [lia|].
    split; [|right; right; split; [reflexivity | split; [exact Hs2 | exact He2]]].
    apply (Hlive s ps); [lia | assumption | assumption].
  - destruct (sorted_pos _ _ _ s) as [vs| | |] eqn:Hvs; try discriminate.
    cbn [obind].
    destruct (matrix_get _ (MATRIX _ s e)) as [ml| | |]; try discriminate.
    cbn [obind].
    destruct (sorted_pos _ _ _ e) as [ve| | |] eqn:Hve; try discriminate.
    cbn [obind].
    destruct (matrix_get _ (MATRIX _ e s)) as [mr| | |]; try discriminate.
    cbn [obind].
    assert (Hin : opt_s nd ≤ e).
    { destruct (Z.le_gt_cases (opt_s nd) e); [assumption|]. exfalso.
      destruct (W4 e) as [Hd | Hm]; [lia | |].
      - now apply (sorted_pos_dispatched _ _ Hd) in Hve.
      - rewrite Hm in Hpe. injection Hpe as <-. discriminate. }
    specialize (Hse Hin).
    destruct (Hlive s ps ltac:(lia) Hps Hms) as (rs & Hrs).
    destruct (Hlive e pe ltac:(lia) Hpe Hme) as (re & Hre).
    destruct (_ <=? _); intros [= <- <-].
    + rewrite u32_small by lia. split; [lia|]. split; [lia|].
      split; [eauto|]. left. split; [reflexivity|]. split; [exact Hs2|].
      exists e, re. split; [lia | apply Hre].
    + rewrite u32_small by lia. split; [lia|]. split; [lia|].
      split; [eauto|]. right. left. split; [reflexivity|]. split; [exact He2|].
      exists s, rs. split; [lia | apply Hrs].
Qed.

Lemma pick_opt_consistent (fuel : nat) (nd nd' : algot_data) (rq : request) :
  consistent calc_max nd → window_ok calc_max nd →
  pick_opt calc_max wild_load fuel nd = Ok (rq, nd') →
  rq ∈ sort_queue nd ∧ consistent calc_max nd'.
Proof.
  intros Hcons Hwin Hrun.
  destruct (pick_index calc_max wild_load nd) as [[i nd2]| | |] eqn:Hpick;
    try (rewrite pick_opt_unfold, Hpick in Hrun; discriminate).
  pose proof (pick_index_in_window nd nd2 i Hwin Hpick) as Hin.
  destruct (pick_opt_picked fuel nd nd2 i Hcons Hwin Hpick Hin)
    as (r & _ & Hr & _ & Hrun' & Hc).
  rewrite Hrun in Hrun'. injection Hrun' as -> ->. now split.
Qed.

Lemma algot_dispatch_consistent (nd nd' : algot_data) (rq : option request) :
  consistent calc_max nd →
  algot_dispatch calc_max wild_load nd = Ok (rq, nd') →
  consistent calc_max nd'.
Proof.
  intros Hcons. unfold algot_dispatch.
  destruct (negb (list_empty (sort_queue nd)) || negb (list_empty (wait_queue nd)))
    eqn:Hpend; [|now intros [= <- <-]].
  assert (Hpend' : sort_queue nd ≠ [] ∨ wait_queue nd ≠ []).
  { destruct (sort_queue nd); [|left; discriminate].
    destruct (wait_queue nd); [discriminate | right; discriminate]. }
  assert (Hplan : ∃ nd1,
            (if ALGOT_DIRTY_COUNT <=? dirty nd
             then algot_program calc_max wild_load nd else Ok nd) = Ok nd1 ∧
            consistent calc_max nd1 ∧ window_ok calc_max nd1).
  { destruct (Z.leb_spec ALGOT_DIRTY_COUNT (dirty nd)) as [Hd|Hd].
    - destruct (algot_program_consistent nd Hcons Hpend')
        as (nd1 & H1 & H2 & H3 & _). eauto.
    - exists nd. split; [reflexivity|]. split; [exact Hcons|].
      destruct Hcons as [_ _ _ _ _ [Hw | [(_ & Hs & Hw) | Hw]]];
        [lia | | exact Hw].
      rewrite Hs, Hw in Hpend. discriminate. }
  destruct Hplan as (nd1 & -> & Hcons1 & Hwin1). cbn [obind].
  destruct (pick_opt _ _ _ nd1) as [[r nd2]| | |] eqn:Hp; try discriminate.
  cbn [obind]. intros [= <- <-].
  now apply (pick_opt_consistent _ nd1 nd2 r Hcons1 Hwin1 Hp).
Qed.

(** The dirty flag after a dispatch: as it was, or 0 after a rebuild, or
    ALGOT_DIRTY_COUNT when the window is used up. *)
Lemma pick_index_dirty (nd nd2 : algot_data) (i : Z) :
  pick_index calc_max wild_load nd = Ok (i, nd2) →
  dirty nd2 = dirty nd ∨ dirty nd2 = ALGOT_DIRTY_COUNT.
Proof.
  unfold pick_index.
  destruct (skip_merged _ _ _ _ (opt_s nd)) as [s| | |]; try discriminate.
  destruct (skip_merged _ _ _ _ (opt_e nd)) as [e| | |]; try discriminate.
  cbn [obind]. destruct (negb (s =? e)).
  - destruct (sorted_pos _ _ _ s); try discriminate. cbn [obind].
    destruct (matrix_get _ (MATRIX _ s e)); try discriminate. cbn [obind].
    destruct (sorted_pos _ _ _ e); try discriminate. cbn [obind].
    destruct (matrix_get _ (MATRIX _ e s)); try discriminate. cbn [obind].
    destruct (_ <=? _); intros [= <- <-]; now left.
  - intros [= <- <-]. now right.
Qed.

Lemma pick_opt_dirty (fuel : nat) (nd nd' : algot_data) (rq : request) :
  pick_opt calc_max wild_load fuel nd = Ok (rq, nd') →
  dirty nd' = dirty nd ∨ dirty nd' = ALGOT_DIRTY_COUNT.
Proof.
  rewrite pick_opt_unfold.
  destruct (pick_index calc_max wild_load nd) as [[i nd2]| | |] eqn:Hp;
    try discriminate.
  cbn [obind]. pose proof (pick_index_dirty nd nd2 i Hp) as Hd.
  destruct (pick_index_not_merged _ _ _ _ _ Hp) as (p & -> & Hm). cbn [obind].
  destruct p; try discriminate.
  unfold sorted_put. destruct (_ && _); try discriminate. cbn [obind].
  intros [= <- <-]. exact Hd.
Qed.

Lemma algot_program_dirty (nd nd' : algot_data) :
  algot_program calc_max wild_load nd = Ok nd' → dirty nd' = 0.
Proof.
  unfold algot_program.
  destruct (program_above _ _ _ _ _) as [[idx nd1]| | |]; try discriminate.
  cbn [obind].
  destruct (program_below _ _ _ _ _) as [[idx2 nd2]| | |]; try discriminate.
  cbn [obind]. destruct (calc_max <? _); try discriminate.
  destruct (program_matrix _ _ _ _ _) as [mx| | |]; try discriminate.
  cbn [obind]. now intros [= <-].
Qed.

Lemma algot_dispatch_dirty (nd nd' : algot_data) (rq : option request) :
  algot_dispatch calc_max wild_load nd = Ok (rq, nd') →
  (rq = None ∧ nd' = nd) ∨ (0 ≤ dirty nd → 0 ≤ dirty nd' ≤ ALGOT_DIRTY_COUNT).
Proof.
  unfold algot_dispatch.
  destruct (negb (list_empty (sort_queue nd)) || negb (list_empty (wait_queue nd)));
    [|intros [= <- <-]; left; split; reflexivity].
  intros H. right. intros Hlo. revert H.
  destruct (Z.leb_spec ALGOT_DIRTY_COUNT (dirty nd)) as [Hd|Hd].
  - destruct (algot_program calc_max wild_load nd) as [nd1| | |] eqn:Hprog;
      try discriminate.
    apply algot_program_dirty in Hprog. cbn [obind].
    destruct (pick_opt _ _ _ nd1) as [[r nd2]| | |] eqn:Hp; try discriminate.
    cbn [obind]. intros [= <- <-].
    apply pick_opt_dirty in Hp. unfold ALGOT_DIRTY_COUNT in *. lia.
  - cbn [obind].
    destruct (pick_opt _ _ _ nd) as [[r nd2]| | |] eqn:Hp; try discriminate.
    cbn [obind]. intros [= <- <-].
    apply pick_opt_dirty in Hp. unfold ALGOT_DIRTY_COUNT in *. lia.
Qed.

(** Every reachable state is consistent, and its dirty flag is not
    negative. *)
Lemma reachable_consistent_counter (nd : algot_data) :
  reachable calc_max wild_load nd → consistent calc_max nd ∧ 0 ≤ dirty nd.
Proof.
  induction 1 as [mem | nd rq _ [IH IHd] Hfresh Hroom
                 | nd nd' rq next _ [IH IHd] Hin Hrun
                 | nd nd' rq _ [IH IHd] Hrun].
  - split; [now apply init_state_consistent|].
    simpl. unfold ALGOT_DIRTY_RESET, ALGOT_DIRTY_COUNT. lia.
  - assert (Hlo : INT_MIN ≤ dirty nd) by (unfold INT_MIN; lia).
    split; [now apply algot_add_request_consistent|].
    destruct (algot_add_request_counter calc_max nd rq ltac:(lia)
                ltac:(now destruct IH)) as [_ Hd].
    rewrite (Hd Hlo Hroom). unfold sort_ins. lia.
  - destruct (algot_merged_requests_consistent nd rq next IH Hin)
      as (nd'' & Hrun' & Hc). rewrite Hrun in Hrun'. injection Hrun' as ->.
    split; [exact Hc|].
    unfold algot_merged_requests in Hrun.
    destruct (elevator_private nd (rq_id next)) as [| |i]; cbn [obind] in Hrun.
    + now injection Hrun as <-.
    + now injection Hrun as <-.
    + destruct (i >? calc_max); [discriminate Hrun|].
      unfold sorted_put in Hrun. cbn [obind] in Hrun.
      destruct (_ && _); [|discriminate Hrun]. cbn [obind] in Hrun.
      now injection Hrun as <-.
  - split; [now apply (algot_dispatch_consistent nd nd' rq)|].
    destruct (algot_dispatch_dirty nd nd' rq Hrun) as [[_ ->] | Hd]; [exact IHd|].
    now apply Hd.
Qed.

Theorem reachable_consistent (nd : algot_data) :
  reachable calc_max wild_load nd → consistent calc_max nd.
Proof. intros H. now apply reachable_consistent_counter. Qed.

Corollary reachable_plan_ready (nd : algot_data) :
  reachable calc_max wild_load nd →
  sort_queue nd ≠ [] ∨ wait_queue nd ≠ [] →
  plan_ready calc_max nd.
Proof.
  intros Hr. apply consistent_plan_ready.
  now apply reachable_consistent.
Qed.

(** *** BUG() and the trap *)

Lemma sorted_get_no_bug (sa : gmap Z slot) (i : Z) :
  sorted_get calc_max sa i ≠ Bug.
Proof.
  unfold sorted_get. destruct (_ && _); [|discriminate].
  destruct (sa !! i); discriminate.
Qed.

Lemma skip_merged_no_bug (sa : gmap Z slot) (next : Z → Z) (fuel : nat) (s : Z) :
  skip_merged calc_max sa next fuel s ≠ Bug.
Proof.
  revert s. induction fuel as [|fuel IH]; intros s; simpl;
    destruct (sorted_get calc_max sa s) as [p| | |] eqn:Hget; simpl;
    try discriminate; try (now apply sorted_get_no_bug in Hget);
    destruct (is_merged p); try discriminate.
  apply IH.
Qed.

Lemma sorted_pos_no_bug (sa : gmap Z slot) (i : Z) :
  sorted_pos calc_max wild_load sa i ≠ Bug.
Proof.
  unfold sorted_pos.
  destruct (sorted_get calc_max sa i) as [p| | |] eqn:Hget; try discriminate;
    [|now apply sorted_get_no_bug in Hget].
  destruct p; simpl; [destruct (wild_load 0) | rewrite Htrap |]; discriminate.
Qed.

Lemma pick_index_no_bug (nd : algot_data) :
  pick_index calc_max wild_load nd ≠ Bug.
Proof.
  unfold pick_index.
  destruct (skip_merged _ _ _ _ (opt_s nd)) as [s| | |] eqn:Hs; try discriminate;
    [|now apply skip_merged_no_bug in Hs].
  cbn [obind].
  destruct (skip_merged _ _ _ _ (opt_e nd)) as [e| | |] eqn:He; try discriminate;
    [|now apply skip_merged_no_bug in He].
  cbn [obind].
  destruct (negb (s =? e)); [|discriminate].
  destruct (sorted_pos _ _ _ s) eqn:H1; try discriminate;
    [|now apply sorted_pos_no_bug in H1]. cbn [obind].
  unfold matrix_get at 1. destruct (_ !! _); try discriminate. cbn [obind].
  destruct (sorted_pos _ _ _ e) eqn:H2; try discriminate;
    [|now apply sorted_pos_no_bug in H2]. cbn [obind].
  unfold matrix_get. destruct (_ !! _); try discriminate. cbn [obind].
  destruct (_ <=? _); discriminate.
Qed.

Lemma pick_opt_no_bug (fuel : nat) (nd : algot_data) :
  window_ok calc_max nd →
  pick_opt calc_max wild_load fuel nd ≠ Bug.
Proof.
  intros Hwin. rewrite pick_opt_unfold.
  destruct (pick_index calc_max wild_load nd) as [[i nd2]| | |] eqn:Hpick;
    try discriminate; [|now apply pick_index_no_bug in Hpick].
  cbn [obind].
  destruct (pick_index_in_window nd nd2 i Hwin Hpick)
    as (_ & Hb & (r & Hslot & _) & Hshape).
  assert (E1 : sorted nd2 = sorted nd).
  { destruct Hshape as [[-> _] | [[-> _] | [-> _]]]; reflexivity. }
  unfold sorted_get, sorted_put. rewrite E1, Hslot.
  destruct (Z.leb_spec 0 i), (Z.ltb_spec i calc_max); try lia.
  discriminate.
Qed.

End Consistency.

(** ** Admission keeps every request *)

Lemma algot_add_request_perm (calc_max : Z) (nd : algot_data) (rq : request) :
  sort_queue (algot_add_request calc_max nd rq)
    ++ wait_queue (algot_add_request calc_max nd rq)
  ≡ₚ rq :: sort_queue nd ++ wait_queue nd.
Proof.
  unfold algot_add_request.
  pose proof (drain_wait_queue_perm calc_max (wait_queue nd) nd) as Hperm.
  set (nd1 := drain_wait_queue calc_max (wait_queue nd) nd) in *.
  destruct (list_empty (wait_queue nd1) && (nsorted nd1 <? calc_max)); simpl.
  - rewrite list_add_before_greater_perm. simpl. now rewrite Hperm.
  - rewrite app_assoc, Hperm. symmetry. apply Permutation_cons_append.
Qed.

Lemma drain_wait_queue_window (calc_max : Z) (wq : list request) (nd : algot_data) :
  let nd1 := drain_wait_queue calc_max wq nd in
  opt_s nd1 = opt_s nd ∧ opt_e nd1 = opt_e nd ∧ opt_ns nd1 = opt_ns nd.
Proof.
  revert nd. induction wq as [|r wq IH]; intros nd; simpl;
    [repeat split; reflexivity|].
  destruct (nsorted nd <? calc_max); [|repeat split; reflexivity].
  destruct (IH (algot_sort_in (set_wait_queue wq nd) r)) as (H1 & H2 & H3).
  simpl in *. rewrite H1, H2, H3. repeat split.
Qed.

Lemma algot_add_request_fields (calc_max : Z) (nd : algot_data) (rq : request) :
  let nd' := algot_add_request calc_max nd rq in
  rw_head nd' = rw_head nd ∧ sorted nd' = sorted nd ∧
  cost_matrix nd' = cost_matrix nd ∧
  opt_s nd' = opt_s nd ∧ opt_e nd' = opt_e nd ∧ opt_ns nd' = opt_ns nd.
Proof.
  unfold algot_add_request.
  destruct (drain_wait_queue_fields calc_max (wait_queue nd) nd) as (F1 & F2 & F3).
  destruct (drain_wait_queue_window calc_max (wait_queue nd) nd) as (G1 & G2 & G3).
  cbv zeta in *.
  set (nd1 := drain_wait_queue calc_max (wait_queue nd) nd) in *.
  destruct (list_empty (wait_queue nd1) && (nsorted nd1 <? calc_max)); simpl;
    rewrite F1, F2, F3, G1, G2, G3; repeat split.
Qed.

Section Service.
Variable calc_max : Z.
Variable wild_load : Z → option Z.
Hypothesis Hcap : 1 ≤ calc_max < 2 ^ 32.

Lemma algot_add_request_serviceable (nd : algot_data) (rq : request) :
  serviceable calc_max nd →
  rq_id rq ∉ map rq_id (sort_queue nd ++ wait_queue nd) →
  INT_MIN ≤ dirty nd → counter_has_room calc_max nd →
  serviceable calc_max (algot_add_request calc_max nd rq).
Proof.
  intros [Hcons Hs] Hfresh Hlo Hhi.
  split; [now apply algot_add_request_consistent|].
  destruct (algot_add_request_fields calc_max nd rq)
    as (F1 & F2 & F3 & F4 & F5 & F6). cbv zeta in *.
  destruct (algot_add_request_counter calc_max nd rq ltac:(lia)
              ltac:(now destruct Hcons)) as [_ Hd'].
  specialize (Hd' Hlo Hhi). unfold sort_ins in Hd'.
  destruct Hs as [Hd | [(Hd & Hsq & Hwq) | (Hm & i & r & Hi & Hr)]].
  - left. lia.
  - left. destruct Hcons as [[Hb Hn] _ _ _ _ _].
    rewrite Hsq in Hn. rewrite Hwq in Hd'. simpl in Hn, Hd'.
    unfold ALGOT_DIRTY_RESET in Hd. lia.
  - right. right. split.
    + unfold matrix_ready. now rewrite F3, F6.
    + exists i, r. now rewrite F2, F4, F5.
Qed.

(** Bounds on [dirty] in runs without merge notifications. *)
Lemma counter_bounded_room (nd : algot_data) :
  calc_max + ALGOT_DIRTY_COUNT ≤ INT_MAX →
  queue_count_ok calc_max nd → counter_bounded nd →
  counter_has_room calc_max nd.
Proof.
  intros Hint [Hb Hn] [Hlo Hhi]. unfold counter_has_room, sort_ins. lia.
Qed.

Lemma algot_add_request_bounded (nd : algot_data) (rq : request) :
  queue_count_ok calc_max nd → counter_bounded nd →
  counter_has_room calc_max nd →
  counter_bounded (algot_add_request calc_max nd rq).
Proof.
  intros Hok [Hlo Hhi] Hroom.
  destruct (algot_add_request_counter calc_max nd rq ltac:(lia) Hok) as [Hn Hd].
  unfold counter_bounded. rewrite Hn, Hd; [|unfold INT_MIN; lia | exact Hroom].
  unfold sort_ins. lia.
Qed.

Lemma algot_dispatch_bounded (nd nd' : algot_data) (rq : option request) :
  algot_dispatch calc_max wild_load nd = Ok (rq, nd') →
  counter_bounded nd → queue_count_ok calc_max nd' →
  counter_bounded nd'.
Proof.
  intros Hrun [Hlo Hhi] [Hb Hn].
  destruct (algot_dispatch_dirty calc_max wild_load nd nd' rq Hrun)
    as [[_ ->] | Hd]; [now split|].
  specialize (Hd Hlo). unfold counter_bounded. lia.
Qed.

Lemma skip_forward_finds (sa : gmap Z slot) (fuel : nat) (s0 t : Z) :
  (∀ j, s0 ≤ j ≤ t → 0 ≤ j < calc_max ∧ is_Some (sa !! j)) →
  (∃ r, sa !! t = Some (REF_RQ r)) →
  s0 ≤ t → (Z.to_nat (t - s0) ≤ fuel)%nat →
  ∃ s, skip_merged calc_max sa (fun s => u32 (s + 1)) fuel s0 = Ok s ∧ s0 ≤ s ≤ t.
Proof.
  intros Hcells [r Hr]. revert s0 Hcells.
  induction fuel as [|fuel IH]; intros s0 Hcells Hle Hfuel; simpl;
    destruct (Hcells s0 ltac:(lia)) as [Hb [p Hp]];
    unfold sorted_get;
    destruct (Z.leb_spec 0 s0), (Z.ltb_spec s0 calc_max); try lia;
    cbn [andb]; rewrite Hp; cbn [obind];
    destruct (is_merged p) eqn:Hm; try (exists s0; split; [reflexivity | lia]).
  - assert (s0 = t) as -> by lia. rewrite Hr in Hp. injection Hp as <-. discriminate.
  - assert (s0 ≠ t) by (intros ->; rewrite Hr in Hp; injection Hp as <-; discriminate).
    rewrite u32_small by lia.
    destruct (IH (s0 + 1)) as (s & Hs & Hrange); [intros; apply Hcells; lia | lia | lia |].
    exists s. split; [exact Hs | lia].
Qed.

Lemma skip_backward_finds (sa : gmap Z slot) (fuel : nat) (e0 t : Z) :
  (∀ j, t ≤ j ≤ e0 → 0 ≤ j < calc_max ∧ is_Some (sa !! j)) →
  (∃ r, sa !! t = Some (REF_RQ r)) →
  t ≤ e0 → (Z.to_nat (e0 - t) ≤ fuel)%nat →
  ∃ e, skip_merged calc_max sa (fun e => u32 (e - 1)) fuel e0 = Ok e ∧ t ≤ e ≤ e0.
Proof.
  intros Hcells [r Hr]. revert e0 Hcells.
  induction fuel as [|fuel IH]; intros e0 Hcells Hle Hfuel; simpl;
    destruct (Hcells e0 ltac:(lia)) as [Hb [p Hp]];
    unfold sorted_get;
    destruct (Z.leb_spec 0 e0), (Z.ltb_spec e0 calc_max); try lia;
    cbn [andb]; rewrite Hp; cbn [obind];
    destruct (is_merged p) eqn:Hm; try (exists e0; split; [reflexivity | lia]).
  - assert (e0 = t) as -> by lia. rewrite Hr in Hp. injection Hp as <-. discriminate.
  - assert (e0 ≠ t) by (intros ->; rewrite Hr in Hp; injection Hp as <-; discriminate).
    destruct (Hcells t ltac:(lia)) as [Hbt _].
    rewrite u32_small by lia.
    destruct (IH (e0 - 1)) as (e & He & Hrange); [intros; apply Hcells; lia | lia | lia |].
    exists e. split; [exact He | lia].
Qed.

(** With a request left in the window and a complete matrix,
    [pick_index] settles on a cell of the window. *)
Lemma pick_index_pending (nd : algot_data) :
  window_ok calc_max nd → matrix_ready nd → window_pending nd →
  ∃ i nd2, pick_index calc_max wild_load nd = Ok (i, nd2) ∧
           picked_in_window calc_max nd nd2 i.
Proof.
  intros (W1 & W2 & W3 & W4 & W5 & W6) Hready (t & rt & Ht & Hrt).
  assert (Hcells : ∀ j, opt_s nd ≤ j ≤ opt_e nd →
            0 ≤ j < calc_max ∧ is_Some (sorted nd !! j)).
  { intros j Hj. split; [lia|].
    destruct (W5 j Hj) as [-> | (r & -> & _)]; eauto. }
  destruct (skip_forward_finds (sorted nd) (S (Z.to_nat calc_max)) (opt_s nd) t)
    as (s & Hs & Hsr); [intros; apply Hcells; lia | eauto | lia | lia |].
  destruct (skip_backward_finds (sorted nd) (S (Z.to_nat calc_max)) (opt_e nd) t)
    as (e & He & Her); [intros; apply Hcells; lia | eauto | lia | lia |].
  unfold pick_index. rewrite Hs, He. cbn [obind].
  destruct (skip_merged_stops _ _ _ _ _ _ Hs) as (ps & Hps & Hms).
  destruct (skip_merged_stops _ _ _ _ _ _ He) as (pe & Hpe & Hme).
  apply skip_forward_range in Hs as [_ Hs2]; [|lia].
  apply skip_backward_range in He as [_ He2]; [|lia].
  apply sorted_get_in_bounds in Hps as [Hbs Hps], Hpe as [Hbe Hpe].
  assert (Hlive : ∀ j p, opt_s nd ≤ j ≤ opt_e nd → sorted nd !! j = Some p →
            is_merged p = false →
            ∃ r, sorted nd !! j = Some (REF_RQ r) ∧ r ∈ sort_queue nd ∧
                 elevator_private nd (rq_id r) = PRI0_IDX j).
  { intros j p Hj Hp Hm. destruct (W5 j Hj) as [Hmj | Hr]; [|exact Hr].
    rewrite Hmj in Hp. injection Hp as <-. discriminate. }
  destruct (Hlive s ps ltac:(lia) Hps Hms) as (rs & Hrs1 & Hrs2 & Hrs3).
  destruct (Hlive e pe ltac:(lia) Hpe Hme) as (re & Hre1 & Hre2 & Hre3).
  destruct (Z.eqb_spec s e) as [<-|Hne]; cbn [negb].
  - eexists _, _. split; [reflexivity|].
    unfold picked_in_window. split; [lia|]. split; [lia|].
    split; [eauto|]. right. right. split; [reflexivity|]. split; [exact Hs2 | exact He2].
  - unfold sorted_pos, sorted_get.
    destruct (Z.leb_spec 0 s), (Z.ltb_spec s calc_max); try lia.
    destruct (Z.leb_spec 0 e), (Z.ltb_spec e calc_max); try lia.
    cbn [andb]. rewrite Hrs1, Hre1. cbn [obind].
    destruct (matrix_get_is_Some (cost_matrix nd) (MATRIX (opt_ns nd) s e))
      as [ml ->]; [apply Hready; lia|].
    destruct (matrix_get_is_Some (cost_matrix nd) (MATRIX (opt_ns nd) e s))
      as [mr ->]; [apply Hready; lia|].
    cbn [obind].
    destruct (_ <=? _); rewrite u32_small by lia;
      eexists _, _; (split; [reflexivity|]).
    + unfold picked_in_window. split; [lia|]. split; [lia|].
      split; [eauto|]. left. split; [reflexivity|]. split; [exact Hs2|].
      exists e, re. split; [lia | exact Hre1].
    + unfold picked_in_window. split; [lia|]. split; [lia|].
      split; [eauto|]. right. left. split; [reflexivity|]. split; [exact He2|].
      exists s, rs. split; [lia | exact Hrs1].
Qed.

Lemma unlink_queued_perm (rq : request) (l : list request) :
  NoDup (map rq_id l) → rq ∈ l → l ≡ₚ rq :: unlink rq l.
Proof.
  intros Hnd Hin. destruct (unlink_queued rq l Hnd Hin) as (l1 & l2 & -> & ->).
  symmetry. apply Permutation_middle.
Qed.

(** After a pick the window still has a request, unless it has asked for
    a rebuild. *)
Lemma picked_leaves_serviceable (nd nd2 : algot_data) (i : Z) (r : request) :
  matrix_ready nd → picked_in_window calc_max nd nd2 i →
  consistent calc_max (dispatched i r nd2) →
  serviceable calc_max (dispatched i r nd2).
Proof.
  intros Hready (_ & _ & _ & Hshape) Hc. split; [exact Hc|].
  destruct Hshape
    as [(-> & _ & j & r' & Hj & Hr') | [(-> & _ & j & r' & Hj & Hr') | (-> & _)]].
  - right. right. split; [exact Hready|].
    exists j, r'. unfold dispatched; simpl. split; [lia|].
    rewrite lookup_insert_ne by lia. exact Hr'.
  - right. right. split; [exact Hready|].
    exists j, r'. unfold dispatched; simpl. split; [lia|].
    rewrite lookup_insert_ne by lia. exact Hr'.
  - left. unfold dispatched; simpl. lia.
Qed.

(** One call of [pick_opt] on a window that still has a request. *)
Lemma pick_opt_serviceable (fuel : nat) (nd : algot_data) :
  consistent calc_max nd → window_ok calc_max nd →
  matrix_ready nd → window_pending nd →
  ∃ r nd', pick_opt calc_max wild_load fuel nd = Ok (r, nd') ∧
           r ∈ sort_queue nd ∧
           serviceable calc_max nd' ∧
           sort_queue nd ++ wait_queue nd ≡ₚ r :: sort_queue nd' ++ wait_queue nd' ∧
           rw_head nd' = blk_rq_pos r.
Proof.
  intros Hcons Hwin Hready Hpend.
  destruct (pick_index_pending nd Hwin Hready Hpend) as (i & nd2 & Hpick & Hin).
  destruct (pick_opt_picked calc_max wild_load Hcap fuel nd nd2 i Hcons Hwin Hpick Hin)
    as (r & Hslot & Hr & Htag & Hrun & Hc).
  exists r, (dispatched i r nd2). split; [exact Hrun|]. split; [exact Hr|].
  assert (Hsame : sort_queue nd2 = sort_queue nd ∧ wait_queue nd2 = wait_queue nd).
  { destruct Hin as (_ & _ & _ & [(-> & _) | [(-> & _) | (-> & _)]]); repeat split. }
  destruct Hsame as (E2 & E3).
  split; [|split].
  - now apply (picked_leaves_serviceable nd).
  - unfold dispatched; simpl. rewrite E2, E3.
    destruct Hcons as [_ _ Hnd _ _ _].
    destruct (distinct_sort_wait nd r Hnd) as [Hnw _].
    rewrite (unlink_not_queued r (wait_queue nd)) by now apply Hnw.
    rewrite (unlink_queued_perm r (sort_queue nd)) at 1;
      [reflexivity | now apply distinct_sort_queue | exact Hr].
  - reflexivity.
Qed.

(** A dispatch from a serviceable state with requests pending hands one
    of them out. *)
Lemma algot_dispatch_serviceable (nd : algot_data) :
  serviceable calc_max nd →
  sort_queue nd ≠ [] ∨ wait_queue nd ≠ [] →
  ∃ r nd', algot_dispatch calc_max wild_load nd = Ok (Some r, nd') ∧
           serviceable calc_max nd' ∧
           sort_queue nd ++ wait_queue nd ≡ₚ r :: sort_queue nd' ++ wait_queue nd' ∧
           rw_head nd' = blk_rq_pos r.
Proof.
  intros [Hcons Hs] Hpend. unfold algot_dispatch.
  assert (Hp : negb (list_empty (sort_queue nd)) || negb (list_empty (wait_queue nd))
               = true).
  { destruct Hpend as [H | H];
      [destruct (sort_queue nd) | destruct (wait_queue nd)]; try contradiction;
      simpl; auto using orb_true_r. }
  rewrite Hp.
  assert (Hplan : ∃ nd1,
            (if ALGOT_DIRTY_COUNT <=? dirty nd
             then algot_program calc_max wild_load nd else Ok nd) = Ok nd1 ∧
            consistent calc_max nd1 ∧ window_ok calc_max nd1 ∧
            matrix_ready nd1 ∧ window_pending nd1 ∧
            sort_queue nd1 ++ wait_queue nd1 ≡ₚ sort_queue nd ++ wait_queue nd).
  { destruct (Z.leb_spec ALGOT_DIRTY_COUNT (dirty nd)) as [Hd|Hd].
    - destruct (algot_program_consistent calc_max wild_load Hcap nd Hcons Hpend)
        as (nd1 & H1 & H2 & H3 & _ & H5 & H6 & H7 & _).
      exists nd1. auto 10.
    - exists nd. split; [reflexivity|]. split; [exact Hcons|].
      destruct Hs as [Hd' | [(_ & Hsq & Hwq) | [Hm Hw]]]; [lia | |].
      { destruct Hpend; contradiction. }
      split; [|auto].
      destruct Hcons as [_ _ _ _ _ [Hw' | [(_ & Hsq & Hwq) | Hw']]];
        [lia | | exact Hw'].
      destruct Hpend; contradiction. }
  destruct Hplan as (nd1 & -> & Hcons1 & Hwin1 & Hm1 & Hp1 & Hperm). cbn [obind].
  destruct (pick_opt_serviceable (S (Z.to_nat calc_max)) nd1 Hcons1 Hwin1 Hm1 Hp1)
    as (r & nd' & -> & _ & Hs' & Hperm' & Hhead).
  cbn [obind]. exists r, nd'. split; [reflexivity|]. split; [exact Hs'|].
  split; [|exact Hhead]. now rewrite <- Hperm.
Qed.

Lemma algot_dispatch_idle (nd : algot_data) :
  sort_queue nd = [] → wait_queue nd = [] →
  algot_dispatch calc_max wild_load nd = Ok (None, nd).
Proof. intros Hs Hw. unfold algot_dispatch. now rewrite Hs, Hw. Qed.

(** As many dispatches as there are requests queued hand all of them out. *)
Lemma dispatch_n_serviceable (n : nat) (nd : algot_data) :
  serviceable calc_max nd →
  n = length (sort_queue nd ++ wait_queue nd) →
  ∃ l nd', dispatch_n calc_max wild_load n nd = Ok (map Some l, nd') ∧
           l ≡ₚ sort_queue nd ++ wait_queue nd ∧
           sort_queue nd' = [] ∧ wait_queue nd' = [] ∧
           serviceable calc_max nd'.
Proof.
  revert nd. induction n as [|n IH]; intros nd Hs Hn.
  - symmetry in Hn. apply length_zero_iff_nil, app_eq_nil in Hn as [H1 H2].
    exists [], nd. rewrite H1, H2.
    split; [reflexivity|]. split; [reflexivity|]. auto.
  - assert (Hpend : sort_queue nd ≠ [] ∨ wait_queue nd ≠ []).
    { destruct (sort_queue nd); [|left; discriminate].
      destruct (wait_queue nd); [discriminate | right; discriminate]. }
    destruct (algot_dispatch_serviceable nd Hs Hpend)
      as (r & nd1 & Hrun & Hs1 & Hperm & _).
    destruct (IH nd1 Hs1) as (l & nd' & Hrun' & Hperm' & H1 & H2 & Hs').
    { apply Permutation_length in Hperm. simpl in Hperm. lia. }
    exists (r :: l), nd'. cbn [dispatch_n]. rewrite Hrun. cbn [obind].
    rewrite Hrun'. cbn [obind]. split; [reflexivity|].
    split; [|auto]. rewrite Hperm. now constructor.
Qed.

Lemma init_state_serviceable (mem : algot_data) :
  serviceable calc_max (init_state mem).
Proof.
  split; [now apply init_state_consistent|]. right. left. auto.
Qed.

Lemma reachable_unmerged_serviceable (nd : algot_data) :
  calc_max + ALGOT_DIRTY_COUNT ≤ INT_MAX →
  reachable_unmerged calc_max wild_load nd →
  serviceable calc_max nd ∧ counter_bounded nd.
Proof.
  intros Hint.
  induction 1 as [mem | nd rq _ [IH IHd] Hfresh | nd nd' rq _ [IH IHd] Hrun].
  - split; [apply init_state_serviceable|].
    unfold counter_bounded. simpl.
    unfold ALGOT_DIRTY_RESET, ALGOT_DIRTY_COUNT. lia.
  - assert (Hok : queue_count_ok calc_max nd) by (destruct IH as [[] _]; assumption).
    pose proof (counter_bounded_room nd Hint Hok IHd) as Hroom.
    split; [|now apply algot_add_request_bounded].
    apply algot_add_request_serviceable; try assumption.
    destruct IHd. unfold INT_MIN. lia.
  - destruct (list_empty (sort_queue nd) && list_empty (wait_queue nd)) eqn:Hidle.
    + apply andb_true_iff in Hidle as [H1 H2].
      destruct (sort_queue nd) eqn:Hsq; [|discriminate].
      destruct (wait_queue nd) eqn:Hwq; [|discriminate].
      rewrite (algot_dispatch_idle nd Hsq Hwq) in Hrun. now injection Hrun as <- <-.
    + assert (Hpend : sort_queue nd ≠ [] ∨ wait_queue nd ≠ []).
      { destruct (sort_queue nd); [|left; discriminate].
        destruct (wait_queue nd); [discriminate | right; discriminate]. }
      destruct (algot_dispatch_serviceable nd IH Hpend) as (r & nd1 & Hrun' & Hs1 & _).
      rewrite Hrun in Hrun'. injection Hrun' as -> ->.
      split; [exact Hs1|].
      apply (algot_dispatch_bounded nd nd1 (Some r) Hrun IHd).
      now destruct Hs1 as [[] _].
Qed.

Lemma admit_all_serviceable (rqs : list request) (nd : algot_data) :
  calc_max + ALGOT_DIRTY_COUNT ≤ INT_MAX →
  serviceable calc_max nd → counter_bounded nd →
  NoDup (map rq_id (rqs ++ sort_queue nd ++ wait_queue nd)) →
  serviceable calc_max (admit_all calc_max rqs nd) ∧
  sort_queue (admit_all calc_max rqs nd) ++ wait_queue (admit_all calc_max rqs nd)
  ≡ₚ rqs ++ sort_queue nd ++ wait_queue nd.
Proof.
  intros Hint.
  revert nd. induction rqs as [|rq rqs IH]; intros nd Hs Hcb Hnd; [now split|].
  simpl in Hnd. apply NoDup_cons in Hnd as [Hrq Hnd].
  rewrite map_app in Hrq. apply not_elem_of_app in Hrq as [Hrq1 Hrq2].
  pose proof (algot_add_request_perm calc_max nd rq) as Hperm.
  assert (Hok : queue_count_ok calc_max nd) by (destruct Hs as [[] _]; assumption).
  pose proof (counter_bounded_room nd Hint Hok Hcb) as Hroom.
  destruct (IH (algot_add_request calc_max nd rq)) as [Hs' Hperm'].
  - apply algot_add_request_serviceable; try assumption.
    destruct Hcb. unfold INT_MIN. lia.
  - now apply algot_add_request_bounded.
  - rewrite (Permutation_map rq_id
               (Permutation_app_head rqs Hperm)).
    rewrite (Permutation_map rq_id (Permutation_sym (Permutation_middle _ _ _))).
    simpl. apply NoDup_cons. split; [|exact Hnd].
    rewrite map_app. apply not_elem_of_app. now split.
  - split; [exact Hs'|]. cbn [admit_all fold_left] in *.
    unfold admit_all in Hperm'. rewrite Hperm', Hperm.
    symmetry. apply Permutation_middle.
Qed.

End Service.

(** ** Merge notifications keep every other request *)

Lemma algot_merged_requests_fields
  (calc_max : Z) (nd nd' : algot_data) (rq next : request) :
  algot_merged_requests calc_max nd rq next = Ok nd' →
  sort_queue nd' = unlink next (sort_queue nd) ∧
  wait_queue nd' = unlink next (wait_queue nd) ∧
  rw_head nd' = rw_head nd ∧ cost_matrix nd' = cost_matrix nd ∧
  opt_s nd' = opt_s nd ∧ opt_e nd' = opt_e nd ∧ opt_ns nd' = opt_ns nd ∧
  dirty nd' = dirty nd ∧ elevator_private nd' = elevator_private nd.
Proof.
  unfold algot_merged_requests.
  destruct (elevator_private nd (rq_id next)) as [| |i]; cbn [obind].
  - intros [= <-]. repeat split.
  - intros [= <-]. repeat split.
  - destruct (i >? calc_max); [discriminate|].
    unfold sorted_put. destruct (_ && _); [|discriminate].
    cbn [obind]. intros [= <-]. repeat split.
Qed.

(** What a merge notification for a queued request does to the count
    and to the window. *)
Lemma algot_merged_requests_cases
  (calc_max : Z) (nd nd' : algot_data) (rq next : request) :
  calc_max < 2 ^ 32 → consistent calc_max nd →
  algot_merged_requests calc_max nd rq next = Ok nd' →
  (next ∈ wait_queue nd → nsorted nd' = nsorted nd ∧ sorted nd' = sorted nd) ∧
  (next ∈ sort_queue nd →
   nsorted nd' = nsorted nd - 1 ∧
   ∀ i, elevator_private nd (rq_id next) = PRI0_IDX i →
        sorted nd' !! i = Some ALGOT_REF_MERGED).
Proof.
  intros Hc [[Hb Hn] _ _ Hwt Hst _] Hrun. unfold algot_merged_requests in Hrun.
  split.
  - intros Hw. rewrite (Hwt next Hw) in Hrun. cbn [obind] in Hrun.
    injection Hrun as <-. split; reflexivity.
  - intros Hs.
    assert (Hone : u32 (nsorted nd - 1) = nsorted nd - 1).
    { apply u32_small.
      destruct (sort_queue nd); [now apply elem_of_nil in Hs | simpl in Hn; lia]. }
    destruct (Hst next Hs) as [Htag | (i0 & Htag & Hb0 & _)]; rewrite Htag in *.
    + cbn [obind] in Hrun. injection Hrun as <-. simpl.
      split; [exact Hone|]. intros i Hi. discriminate Hi.
    + destruct (Z.gtb_spec i0 calc_max); [lia|].
      unfold sorted_put in Hrun.
      destruct (Z.leb_spec 0 i0), (Z.ltb_spec i0 calc_max); try lia.
      cbn [andb obind] in Hrun. injection Hrun as <-. simpl.
      split; [exact Hone|]. intros i [= <-]. apply lookup_insert_eq.
Qed.

Lemma unlink_app (rq : request) (l k : list request) :
  unlink rq (l ++ k) = unlink rq l ++ unlink rq k.
Proof.
  induction l as [|r l IH]; simpl; [reflexivity|].
  destruct (Nat.eqb (rq_id r) (rq_id rq)); [exact IH | now rewrite IH].
Qed.

Lemma unlink_queues_perm (rq : request) (l k : list request) :
  NoDup (map rq_id (l ++ k)) → rq ∈ l ++ k →
  l ++ k ≡ₚ rq :: unlink rq l ++ unlink rq k.
Proof.
  intros Hnd Hin. rewrite <- unlink_app. now apply unlink_queued_perm.
Qed.

(** ** sect_dist *)

Lemma abs_long_circular (x : Z) :
  - 2 ^ 64 < x < 2 ^ 64 → Z.abs x ≠ 2 ^ 63 →
  u64 (abs_long x) = Z.min (Z.abs x) (2 ^ 64 - Z.abs x).
Proof.
  intros Hx Hne. unfold u64, abs_long, s64.
  destruct (Z.lt_ge_cases x (- 2 ^ 63)).
  - replace ((x + 2 ^ 63) mod 2 ^ 64) with (x + 2 ^ 63 + 2 ^ 64)
      by (apply Z.mod_unique with (-1); lia).
    rewrite Z.mod_small by lia. lia.
  - destruct (Z.lt_ge_cases x (2 ^ 63)).
    + rewrite (Z.mod_small (x + 2 ^ 63)) by lia.
      rewrite Z.mod_small by lia. lia.
    + replace ((x + 2 ^ 63) mod 2 ^ 64) with (x + 2 ^ 63 - 2 ^ 64)
        by (apply Z.mod_unique with 1; lia).
      rewrite Z.mod_small by lia. lia.
Qed.

Lemma sect_dist_requests
  (calc_max : Z) (wild_load : Z → option Z) (sa : gmap Z slot)
  (i j : Z) (ri rj : request) :
  sorted_get calc_max sa i = Ok (REF_RQ ri) →
  sorted_get calc_max sa j = Ok (REF_RQ rj) →
  sect_dist calc_max wild_load sa i j
  = Ok (u64 (abs_long (rq_sector ri - rq_sector rj))).
Proof.
  intros Hi Hj. unfold sect_dist, sorted_pos. now rewrite Hi, Hj.
Qed.

(** ** Neighbours on the lists *)

Lemma position_split (rq : request) (l1 l2 : list request) :
  NoDup (map rq_id (l1 ++ rq :: l2)) →
  position rq (l1 ++ rq :: l2) = Some (length l1).
Proof.
  induction l1 as [|r l1 IH]; simpl; intros Hnd.
  - now rewrite Nat.eqb_refl.
  - apply NoDup_cons in Hnd as [Hr Hnd].
    destruct (Nat.eqb_spec (rq_id r) (rq_id rq)) as [Heq|Hne].
    + exfalso. apply Hr. rewrite Heq, map_app. apply elem_of_app. right.
      apply list_elem_of_here.
    + now rewrite IH.
Qed.

Lemma position_absent (rq : request) (l : list request) :
  rq_id rq ∉ map rq_id l → position rq l = None.
Proof.
  induction l as [|r l IH]; simpl; [reflexivity|].
  intros [Hne Hl]%not_elem_of_cons.
  destruct (Nat.eqb_spec (rq_id r) (rq_id rq)); [congruence|].
  now rewrite IH.
Qed.

Lemma list_prev_split (rq : request) (l1 l2 : list request) :
  list_prev (l1 ++ rq :: l2) (length l1) = last l1.
Proof.
  destruct l1 as [|r l1] using rev_ind; [reflexivity|].
  rewrite last_snoc, length_app. simpl. rewrite Nat.add_1_r. simpl.
  rewrite <- app_assoc. simpl. now rewrite list_lookup_middle.
Qed.

Lemma list_next_split (rq : request) (l1 l2 : list request) :
  list_next (l1 ++ rq :: l2) (length l1) = head l2.
Proof.
  unfold list_next.
  replace (l1 ++ rq :: l2) with ((l1 ++ [rq]) ++ l2) by now rewrite <- app_assoc.
  rewrite lookup_app_r by (rewrite length_app; simpl; lia).
  rewrite length_app. simpl. replace (S (length l1) - (length l1 + 1))%nat with O by lia.
  now destruct l2.
Qed.

Lemma list_of_sort_queue (nd : algot_data) (rq : request) (l1 l2 : list request) :
  NoDup (map rq_id (sort_queue nd ++ wait_queue nd)) →
  sort_queue nd = l1 ++ rq :: l2 →
  list_of nd rq = Ok (sort_queue nd, length l1).
Proof.
  intros Hnd Hsq. unfold list_of.
  apply distinct_sort_queue in Hnd. rewrite Hsq in *.
  now rewrite position_split.
Qed.

Lemma list_of_wait_queue (nd : algot_data) (rq : request) (l1 l2 : list request) :
  NoDup (map rq_id (sort_queue nd ++ wait_queue nd)) →
  wait_queue nd = l1 ++ rq :: l2 →
  list_of nd rq = Ok (wait_queue nd, length l1).
Proof.
  intros Hnd Hwq. unfold list_of.
  destruct (distinct_sort_wait nd rq Hnd) as [_ Hns].
  rewrite position_absent.
  2:{ apply Hns. rewrite Hwq. apply elem_of_app. right. apply list_elem_of_here. }
  rewrite map_app in Hnd. apply NoDup_app in Hnd as (_ & _ & Hnd).
  rewrite Hwq in *. now rewrite position_split.
Qed.

Lemma neighbours_on_list (nd : algot_data) (rq : request) (l1 l2 : list request) :
  NoDup (map rq_id (sort_queue nd ++ wait_queue nd)) →
  sort_queue nd = l1 ++ rq :: l2 ∨ wait_queue nd = l1 ++ rq :: l2 →
  algot_former_request nd rq = Ok (last l1) ∧
  algot_latter_request nd rq = Ok (head l2).
Proof.
  intros Hnd Hon. unfold algot_former_request, algot_latter_request.
  destruct Hon as [Hon | Hon].
  - rewrite (list_of_sort_queue nd rq l1 l2 Hnd Hon). cbn [obind].
    now rewrite Hon, list_prev_split, list_next_split.
  - rewrite (list_of_wait_queue nd rq l1 l2 Hnd Hon). cbn [obind].
    now rewrite Hon, list_prev_split, list_next_split.
Qed.

Lemma neighbours_round_trip (nd : algot_data) (rq : request) :
  ascending (sort_queue nd) →
  NoDup (map rq_id (sort_queue nd ++ wait_queue nd)) →
  rq ∈ sort_queue nd ++ wait_queue nd →
  (∀ p, algot_former_request nd rq = Ok (Some p) →
        algot_latter_request nd p = Ok (Some rq) ∧
        (rq ∈ sort_queue nd → p ∈ sort_queue nd ∧ rq_sector p ≤ rq_sector rq) ∧
        (rq ∈ wait_queue nd → p ∈ wait_queue nd)) ∧
  (∀ n, algot_latter_request nd rq = Ok (Some n) →
        algot_former_request nd n = Ok (Some rq) ∧
        (rq ∈ sort_queue nd → n ∈ sort_queue nd ∧ rq_sector rq ≤ rq_sector n) ∧
        (rq ∈ wait_queue nd → n ∈ wait_queue nd)).
Proof.
  intros Hasc Hnd Hin.
  assert (Hsplit : ∃ l1 l2, (sort_queue nd = l1 ++ rq :: l2 ∧ rq ∉ wait_queue nd) ∨
                            (wait_queue nd = l1 ++ rq :: l2 ∧ rq ∉ sort_queue nd)).
  { destruct (distinct_sort_wait nd rq Hnd) as [Hsw Hws].
    apply elem_of_app in Hin as [Hin | Hin];
      pose proof Hin as (l1 & l2 & Hl)%list_elem_of_split; exists l1, l2;
      [left | right]; (split; [exact Hl|]); intros Hx%elem_of_map_rq_id;
      [now apply Hsw | now apply Hws]. }
  destruct Hsplit as (l1 & l2 & Hon).
  assert (Hon' : sort_queue nd = l1 ++ rq :: l2 ∨ wait_queue nd = l1 ++ rq :: l2)
    by (destruct Hon as [[H _] | [H _]]; auto).
  destruct (neighbours_on_list nd rq l1 l2 Hnd Hon') as [Hf Hl].
  rewrite Hf, Hl. split.
  - intros p [= Hp]. apply last_Some in Hp as [l1' ->].
    rewrite <- app_assoc in Hon, Hon'. simpl in Hon, Hon'.
    destruct (neighbours_on_list nd p l1' (rq :: l2) Hnd Hon') as [_ Hl'].
    split; [exact Hl'|].
    destruct Hon as [[Hsq Hnw] | [Hwq Hns]].
    + split; [|intros; contradiction]. intros _. split.
      * rewrite Hsq. apply elem_of_app. right. apply list_elem_of_here.
      * unfold ascending in Hasc. rewrite Hsq in Hasc.
        apply StronglySorted_app_1_r, StronglySorted_cons in Hasc as [Hall _].
        apply Forall_cons in Hall as [Hle _]. exact Hle.
    + split; [intros; contradiction|]. intros _.
      rewrite Hwq. apply elem_of_app. right. apply list_elem_of_here.
  - intros n [= Hn]. destruct l2 as [|n' l2]; [discriminate|].
    simpl in Hn. injection Hn as ->.
    assert (Hon2 : sort_queue nd = (l1 ++ [rq]) ++ n :: l2 ∨
                   wait_queue nd = (l1 ++ [rq]) ++ n :: l2).
    { rewrite <- app_assoc. exact Hon'. }
    destruct (neighbours_on_list nd n (l1 ++ [rq]) l2 Hnd Hon2) as [Hf' _].
    rewrite last_snoc in Hf'. split; [exact Hf'|].
    destruct Hon as [[Hsq Hnw] | [Hwq Hns]].
    + split; [|intros; contradiction]. intros _. split.
      * rewrite Hsq. apply elem_of_app. right.
        apply list_elem_of_further, list_elem_of_here.
      * unfold ascending in Hasc. rewrite Hsq in Hasc.
        apply StronglySorted_app_1_r, StronglySorted_cons in Hasc as [Hall _].
        apply Forall_cons in Hall as [Hle _]. exact Hle.
    + split; [intros; contradiction|]. intros _.
      rewrite Hwq. apply elem_of_app. right.
      apply list_elem_of_further, list_elem_of_here.
Qed.

(** ** The outcome of a dispatch *)

Lemma pending_dec (nd : algot_data) :
  (sort_queue nd = [] ∧ wait_queue nd = []) ∨
  (sort_queue nd ≠ [] ∨ wait_queue nd ≠ []).
Proof.
  destruct (sort_queue nd); [|right; left; discriminate].
  destruct (wait_queue nd); [now left | right; right; discriminate].
Qed.

Section Planned.
Variable calc_max : Z.
Variable wild_load : Z → option Z.
Hypothesis Hcap : 1 ≤ calc_max < 2 ^ 32.
Hypothesis Htrap : wild_load 1 = None.

Lemma pick_opt_no_fuel (fuel : nat) (nd : algot_data) :
  pick_opt calc_max wild_load fuel nd ≠ NoFuel.
Proof.
  rewrite pick_opt_unfold.
  destruct (pick_index calc_max wild_load nd) as [[i nd']| | |] eqn:Hp;
    cbn [obind]; try discriminate.
  - destruct (pick_index_not_merged _ _ _ _ _ Hp) as (p & -> & Hm).
    cbn [obind]. destruct p; try discriminate.
    unfold sorted_put. destruct (_ && _); discriminate.
  - apply pick_index_no_fuel in Hp; [contradiction | lia].
Qed.

(** What a call of [pick_opt] that returns has done. *)
Lemma pick_opt_result (fuel : nat) (nd nd' : algot_data) (rq : request) :
  consistent calc_max nd → window_ok calc_max nd →
  pick_opt calc_max wild_load fuel nd = Ok (rq, nd') →
  ∃ i nd2, picked_in_window calc_max nd nd2 i ∧
           sorted nd !! i = Some (REF_RQ rq) ∧ rq ∈ sort_queue nd ∧
           elevator_private nd (rq_id rq) = PRI0_IDX i ∧
           nd' = dispatched i rq nd2 ∧ consistent calc_max nd'.
Proof.
  intros Hcons Hwin Hrun.
  destruct (pick_index calc_max wild_load nd) as [[i nd2]| | |] eqn:Hpick;
    try (rewrite pick_opt_unfold, Hpick in Hrun; discriminate).
  pose proof (pick_index_in_window calc_max wild_load Hcap Htrap nd nd2 i Hwin Hpick)
    as Hin.
  destruct (pick_opt_picked calc_max wild_load Hcap fuel nd nd2 i Hcons Hwin Hpick Hin)
    as (r & Hslot & Hr & Htag & Hrun' & Hc).
  rewrite Hrun in Hrun'. injection Hrun' as -> ->.
  exists i, nd2. auto 10.
Qed.

(** The plan step of [algot_dispatch]. *)
Lemma dispatch_plan (nd : algot_data) :
  planned calc_max nd →
  sort_queue nd ≠ [] ∨ wait_queue nd ≠ [] →
  ∃ nd1,
    (if ALGOT_DIRTY_COUNT <=? dirty nd
     then algot_program calc_max wild_load nd else Ok nd) = Ok nd1 ∧
    consistent calc_max nd1 ∧ window_ok calc_max nd1 ∧ matrix_ready nd1 ∧
    sort_queue nd1 ++ wait_queue nd1 ≡ₚ sort_queue nd ++ wait_queue nd ∧
    (ALGOT_DIRTY_COUNT ≤ dirty nd → window_pending nd1) ∧
    (dirty nd < ALGOT_DIRTY_COUNT → nd1 = nd).
Proof.
  intros [Hcons Hs] Hpend.
  destruct (Z.leb_spec ALGOT_DIRTY_COUNT (dirty nd)) as [Hd|Hd].
  - destruct (algot_program_consistent calc_max wild_load Hcap nd Hcons Hpend)
      as (nd1 & H1 & H2 & H3 & _ & H5 & H6 & H7 & _).
    exists nd1. repeat (split; [assumption|]). split; [auto | lia].
  - exists nd. split; [reflexivity|]. split; [exact Hcons|].
    destruct Hs as [Hd' | [(_ & Hsq & Hwq) | Hm]]; [lia | |].
    { destruct Hpend; contradiction. }
    destruct Hcons as [_ _ _ _ _ [Hw' | [(_ & Hsq & Hwq) | Hw']]]; [lia | |].
    { destruct Hpend; contradiction. }
    repeat (split; [assumption || reflexivity|]). split; [lia | reflexivity].
Qed.

Lemma algot_dispatch_pending (nd : algot_data) :
  sort_queue nd ≠ [] ∨ wait_queue nd ≠ [] →
  algot_dispatch calc_max wild_load nd
  = (do nd1 <- (if ALGOT_DIRTY_COUNT <=? dirty nd
                then algot_program calc_max wild_load nd else Ok nd);
     do '(rq, nd2) <- pick_opt calc_max wild_load (S (Z.to_nat calc_max)) nd1;
     Ok (Some rq, nd2)).
Proof.
  intros Hpend. unfold algot_dispatch.
  destruct (sort_queue nd); [|reflexivity].
  destruct (wait_queue nd); [|reflexivity].
  destruct Hpend; contradiction.
Qed.

(** What a dispatch that returns has done: [nd1] is the state after the
    plan step, [i] the cell picked. *)
Lemma algot_dispatch_result (nd nd' : algot_data) (rq : request) :
  planned calc_max nd →
  algot_dispatch calc_max wild_load nd = Ok (Some rq, nd') →
  ∃ nd1 i,
    (if ALGOT_DIRTY_COUNT <=? dirty nd
     then algot_program calc_max wild_load nd else Ok nd) = Ok nd1 ∧
    planned calc_max nd' ∧ serviceable calc_max nd' ∧
    sort_queue nd ++ wait_queue nd ≡ₚ rq :: sort_queue nd' ++ wait_queue nd' ∧
    rw_head nd' = blk_rq_pos rq ∧
    sorted nd' !! i = Some ALGOT_REF_DISPATCHED ∧
    cost_matrix nd' = cost_matrix nd1 ∧
    opt_s nd1 ≤ i ≤ opt_e nd1 ∧ sorted nd1 !! i = Some (REF_RQ rq) ∧
    elevator_private nd1 (rq_id rq) = PRI0_IDX i ∧
    ((∀ j, opt_s nd1 ≤ j < i → sorted nd1 !! j = Some ALGOT_REF_MERGED) ∨
     (∀ j, i < j ≤ opt_e nd1 → sorted nd1 !! j = Some ALGOT_REF_MERGED)).
Proof.
  intros Hpl Hrun.
  destruct (pending_dec nd) as [[Hsq Hwq] | Hpend].
  { unfold algot_dispatch in Hrun. rewrite Hsq, Hwq in Hrun. discriminate. }
  rewrite (algot_dispatch_pending nd Hpend) in Hrun.
  destruct (dispatch_plan nd Hpl Hpend)
    as (nd1 & Hplan & Hcons1 & Hwin1 & Hm1 & Hperm & _ & Hsame).
  rewrite Hplan in Hrun. cbn [obind] in Hrun.
  destruct (pick_opt _ _ _ nd1) as [[r nd2]| | |] eqn:Hp; try discriminate.
  cbn [obind] in Hrun. injection Hrun as -> ->.
  destruct (pick_opt_result _ nd1 nd' rq Hcons1 Hwin1 Hp)
    as (i & nd2 & Hin & Hslot & Hr & Htag & -> & Hc).
  assert (Hsame2 : sorted nd2 = sorted nd1 ∧ sort_queue nd2 = sort_queue nd1 ∧
                   wait_queue nd2 = wait_queue nd1 ∧
                   cost_matrix nd2 = cost_matrix nd1 ∧ opt_ns nd2 = opt_ns nd1).
  { destruct Hin as (_ & _ & _ & [(-> & _) | [(-> & _) | (-> & _)]]); repeat split. }
  destruct Hsame2 as (E1 & E2 & E3 & E4 & E5).
  exists nd1, i. split; [exact Hplan|].
  split; [|split; [|split; [|split; [|split; [|split; [|split; [|split; [|split]]]]]]]].
  - split; [exact Hc|]. right. right.
    unfold matrix_ready, dispatched; simpl. rewrite E4, E5. exact Hm1.
  - now apply (picked_leaves_serviceable calc_max nd1).
  - rewrite <- Hperm. unfold dispatched; simpl. rewrite E2, E3.
    destruct Hcons1 as [_ _ Hnd _ _ _].
    apply unlink_queues_perm; [exact Hnd|]. apply elem_of_app. now left.
  - reflexivity.
  - unfold dispatched; simpl. apply lookup_insert_eq.
  - unfold dispatched; simpl. exact E4.
  - now destruct Hin as (Hrange & _).
  - exact Hslot.
  - exact Htag.
  - destruct Hin as (_ & _ & _ & [(_ & Hm & _) | [(_ & Hm & _) | (_ & Hm & _)]]);
      [left | right | left]; exact Hm.
Qed.

(** The cell of the request a dispatch hands out: [nd1] is the state
    after the plan step, [i] the index the request carries. *)
Lemma algot_dispatch_cell (nd nd' : algot_data) (rq : request) :
  planned calc_max nd →
  algot_dispatch calc_max wild_load nd = Ok (Some rq, nd') →
  ∃ nd1 i,
    (if ALGOT_DIRTY_COUNT <=? dirty nd
     then algot_program calc_max wild_load nd else Ok nd) = Ok nd1 ∧
    0 ≤ i < calc_max ∧
    sorted nd1 !! i = Some (REF_RQ rq) ∧
    elevator_private nd' (rq_id rq) = PRI0_IDX i ∧
    sorted nd' = <[i := ALGOT_REF_DISPATCHED]> (sorted nd1).
Proof.
  intros Hpl Hrun.
  destruct (pending_dec nd) as [[Hsq Hwq] | Hpend].
  { unfold algot_dispatch in Hrun. rewrite Hsq, Hwq in Hrun. discriminate Hrun. }
  rewrite (algot_dispatch_pending nd Hpend) in Hrun.
  destruct (dispatch_plan nd Hpl Hpend)
    as (nd1 & Hplan & Hcons1 & Hwin1 & _).
  rewrite Hplan in Hrun. cbn [obind] in Hrun.
  destruct (pick_opt _ _ _ nd1) as [[r nd2]| | |] eqn:Hp; try discriminate Hrun.
  cbn [obind] in Hrun. injection Hrun as -> ->.
  destruct (pick_opt_result _ nd1 nd' rq Hcons1 Hwin1 Hp)
    as (i & nd2 & Hin & Hslot & _ & Htag & -> & _).
  exists nd1, i. split; [exact Hplan|].
  destruct Hin as (_ & Hb & _ & [(-> & _) | [(-> & _) | (-> & _)]]);
    (split; [exact Hb|]); (split; [exact Hslot|]); (split; [exact Htag|]);
    reflexivity.
Qed.

Lemma planned_admit (nd : algot_data) (rq : request) :
  planned calc_max nd →
  rq_id rq ∉ map rq_id (sort_queue nd ++ wait_queue nd) →
  INT_MIN ≤ dirty nd → counter_has_room calc_max nd →
  planned calc_max (algot_add_request calc_max nd rq).
Proof.
  intros [Hcons Hs] Hfresh Hlo Hhi.
  split; [now apply algot_add_request_consistent|].
  destruct (algot_add_request_fields calc_max nd rq)
    as (F1 & F2 & F3 & F4 & F5 & F6). cbv zeta in *.
  destruct (algot_add_request_counter calc_max nd rq ltac:(lia)
              ltac:(now destruct Hcons)) as [_ Hd'].
  specialize (Hd' Hlo Hhi). unfold sort_ins in Hd'.
  destruct Hs as [Hd | [(Hd & Hsq & Hwq) | Hm]].
  - left. lia.
  - left. destruct Hcons as [[Hb Hn] _ _ _ _ _].
    rewrite Hsq in Hn. rewrite Hwq in Hd'. simpl in Hn, Hd'.
    unfold ALGOT_DIRTY_RESET in Hd. lia.
  - right. right. unfold matrix_ready. now rewrite F3, F6.
Qed.

Lemma planned_merged (nd nd' : algot_data) (rq next : request) :
  planned calc_max nd → next ∈ sort_queue nd ++ wait_queue nd →
  algot_merged_requests calc_max nd rq next = Ok nd' →
  planned calc_max nd'.
Proof.
  intros [Hcons Hs] Hin Hrun.
  destruct (algot_merged_requests_consistent calc_max Hcap nd rq next Hcons Hin)
    as (nd'' & Hrun' & Hc).
  rewrite Hrun in Hrun'. injection Hrun' as <-. split; [exact Hc|].
  destruct (algot_merged_requests_fields calc_max nd nd' rq next Hrun)
    as (F1 & F2 & F3 & F4 & F5 & F6 & F7 & F8 & F9).
  destruct Hs as [Hd | [(Hd & Hsq & Hwq) | Hm]].
  - left. lia.
  - rewrite Hsq, Hwq in Hin. now apply elem_of_nil in Hin.
  - right. right. unfold matrix_ready. now rewrite F4, F7.
Qed.

Lemma reachable_planned (nd : algot_data) :
  reachable calc_max wild_load nd → planned calc_max nd.
Proof.
  induction 1 as [mem | nd rq Hreach IH Hfresh Hroom | nd nd' rq next _ IH Hin Hrun
                 | nd nd' rq _ IH Hrun].
  - split; [now apply init_state_consistent|]. right. left. auto.
  - apply planned_admit; try assumption.
    destruct (reachable_consistent_counter calc_max wild_load Hcap Htrap nd Hreach)
      as [_ Hd]. unfold INT_MIN. lia.
  - now apply (planned_merged nd nd' rq next).
  - destruct rq as [rq|].
    + now destruct (algot_dispatch_result nd nd' rq IH Hrun) as (? & ? & _ & H & _).
    + destruct (pending_dec nd) as [[Hsq Hwq] | Hpend].
      * unfold algot_dispatch in Hrun. rewrite Hsq, Hwq in Hrun.
        now injection Hrun as <-.
      * rewrite (algot_dispatch_pending nd Hpend) in Hrun.
        destruct (if _ <=? _ then _ else _); try discriminate. cbn [obind] in Hrun.
        destruct (pick_opt _ _ _ _) as [[r nd2]| | |]; discriminate.
Qed.

(** The outcome of a dispatch with requests pending. *)
Lemma algot_dispatch_outcome (nd : algot_data) :
  planned calc_max nd →
  sort_queue nd ≠ [] ∨ wait_queue nd ≠ [] →
  (ALGOT_DIRTY_COUNT ≤ dirty nd ∨ window_pending nd →
   ∃ rq nd', algot_dispatch calc_max wild_load nd = Ok (Some rq, nd')) ∧
  (dirty nd < ALGOT_DIRTY_COUNT → ¬ window_pending nd →
   algot_dispatch calc_max wild_load nd = Undef).
Proof.
  intros Hpl Hpend.
  rewrite (algot_dispatch_pending nd Hpend).
  destruct (dispatch_plan nd Hpl Hpend)
    as (nd1 & -> & Hcons1 & Hwin1 & Hm1 & _ & Hdue & Hsame).
  cbn [obind]. split.
  - intros Hcase.
    assert (Hp1 : window_pending nd1).
    { destruct (Z.le_gt_cases ALGOT_DIRTY_COUNT (dirty nd)) as [Hd|Hd]; [auto|].
      rewrite (Hsame ltac:(lia)). destruct Hcase; [lia | assumption]. }
    destruct (pick_opt_serviceable calc_max wild_load Hcap (S (Z.to_nat calc_max))
                nd1 Hcons1 Hwin1 Hm1 Hp1) as (r & nd' & -> & _).
    cbn [obind]. eauto.
  - intros Hd Hnone. rewrite (Hsame Hd) in *.
    destruct (pick_opt _ _ _ nd) as [[r nd2]| | |] eqn:Hp; [exfalso| |reflexivity|].
    + destruct (pick_opt_result _ nd nd2 r Hcons1 Hwin1 Hp)
        as (i & nd3 & (Hrange & _) & Hslot & _).
      apply Hnone. exists i, r. auto.
    + now apply (pick_opt_no_bug calc_max wild_load Hcap Htrap) in Hp.
    + now apply pick_opt_no_fuel in Hp.
Qed.

End Planned.

(** ** The recurrence of the cost matrix *)

Lemma MATRIX_inj (ns a b a' b' : Z) :
  ns * ns ≤ 2 ^ 32 → 0 ≤ a < ns → 0 ≤ b < ns → 0 ≤ a' < ns → 0 ≤ b' < ns →
  MATRIX ns a b = MATRIX ns a' b' → a = a' ∧ b = b'.
Proof.
  intros Hns Ha Hb Ha' Hb'. unfold MATRIX.
  rewrite !u32_small by nia. intros Heq.
  assert (a = a') by nia. subst a'. split; [reflexivity | lia].
Qed.

Section Recurrence.
Variable calc_max : Z.
Variable wild_load : Z → option Z.
Variable sa : gmap Z slot.
Variable ns : Z.
Hypothesis Hlive : window_live calc_max sa ns.
Hypothesis Hsquare : ns * ns ≤ 2 ^ 32.

Lemma cell_rule_insert (mx : gmap Z Z) (a b i j v : Z) :
  0 ≤ a < ns → 0 ≤ b < ns → 0 ≤ i < ns → 0 ≤ j < ns →
  Z.abs (a - b) ≤ Z.abs (i - j) → (a ≠ i ∨ b ≠ j) →
  cell_rule calc_max wild_load sa ns mx a b →
  cell_rule calc_max wild_load sa ns (<[MATRIX ns i j := v]> mx) a b.
Proof.
  intros Ha Hb Hi Hj Hd Hne. unfold cell_rule.
  assert (Hkey : ∀ p q, 0 ≤ p < ns → 0 ≤ q < ns → (p ≠ i ∨ q ≠ j) →
            <[MATRIX ns i j := v]> mx !! MATRIX ns p q = mx !! MATRIX ns p q).
  { intros p q Hp Hq Hpq. apply lookup_insert_ne. intros Heq.
    apply MATRIX_inj in Heq; [lia | assumption ..]. }
  destruct (Z.compare_spec a b) as [->|Hlt|Hgt].
  - now rewrite Hkey.
  - intros (d1 & d2 & m1 & m2 & H1 & H2 & H3 & H4 & H5).
    exists d1, d2, m1, m2. rewrite !Hkey by lia. auto.
  - intros (d1 & d2 & m1 & m2 & H1 & H2 & H3 & H4 & H5).
    exists d1, d2, m1, m2. rewrite !Hkey by lia. auto.
Qed.

Lemma program_diagonal_zero (l : list Z) (mx : gmap Z Z) (key : Z) :
  mx !! key = Some 0 ∨ (∃ i, i ∈ l ∧ key = MATRIX ns i i) →
  fold_left (fun mx i => <[MATRIX ns i i := 0]> mx) l mx !! key = Some 0.
Proof.
  revert mx. induction l as [|x l IH]; intros mx H; simpl.
  - destruct H as [H | (i & Hi & _)]; [exact H|]. now apply elem_of_nil in Hi.
  - apply IH. destruct (Z.eq_dec key (MATRIX ns x x)) as [->|Hne].
    + left. apply lookup_insert_eq.
    + destruct H as [H | (i & Hi & ->)].
      * left. now rewrite lookup_insert_ne.
      * apply elem_of_cons in Hi as [-> | Hi]; [contradiction|]. right. eauto.
Qed.

Lemma program_diagonal_ruled (mx : gmap Z Z) :
  ruled calc_max wild_load sa ns 1 0 (program_diagonal ns mx).
Proof.
  intros a b Ha Hb Hab. assert (b = a) as -> by lia.
  unfold cell_rule. rewrite Z.compare_refl.
  apply program_diagonal_zero. right. exists a. split; [|reflexivity].
  apply elem_of_seqZ. lia.
Qed.

Lemma program_cell_ruled (k i : Z) (mx : gmap Z Z) :
  ruled calc_max wild_load sa ns k i mx → 1 ≤ k → 0 ≤ i → i + k < ns →
  ∃ mx', program_cell calc_max wild_load sa ns k mx i = Ok mx' ∧
         ruled calc_max wild_load sa ns k (i + 1) mx'.
Proof.
  intros Hr Hk Hi Hj. unfold program_cell.
  assert (Hsome : ∀ a b, 0 ≤ a < ns → 0 ≤ b < ns → Z.abs (a - b) < k →
            ∃ v, mx !! MATRIX ns a b = Some v).
  { intros a b Ha Hb Hab. specialize (Hr a b Ha Hb (or_introl Hab)).
    unfold cell_rule in Hr. destruct (a ?= b); [eauto | |];
      destruct Hr as (? & ? & ? & ? & _ & _ & _ & _ & H); eauto. }
  destruct (sect_dist_live calc_max wild_load sa ns Hlive i (i + 1)) as [d1 Hd1];
    try lia.
  destruct (sect_dist_live calc_max wild_load sa ns Hlive i (k + i)) as [d2 Hd2];
    try lia.
  destruct (sect_dist_live calc_max wild_load sa ns Hlive (k + i) (k + i - 1))
    as [d3 Hd3]; try lia.
  destruct (Hsome (i + 1) (k + i)) as [m1 Hm1]; try lia.
  destruct (Hsome (k + i) (i + 1)) as [m2 Hm2]; try lia.
  destruct (Hsome (k + i - 1) i) as [m3 Hm3]; try lia.
  destruct (Hsome i (k + i - 1)) as [m4 Hm4]; try lia.
  rewrite Hd1, Hd2, Hd3. unfold matrix_get at 1 2. rewrite Hm1, Hm2. cbn [obind].
  set (v1 := MIN (u64 (k * d1 + m1)) (u64 (k * d2 + m2))).
  set (mx1 := <[MATRIX ns i (k + i) := v1]> mx).
  assert (Hkey1 : ∀ p q, 0 ≤ p < ns → 0 ≤ q < ns → (p ≠ i ∨ q ≠ k + i) →
            mx1 !! MATRIX ns p q = mx !! MATRIX ns p q).
  { intros p q Hp Hq Hpq. apply lookup_insert_ne. intros Heq.
    apply MATRIX_inj in Heq; [lia | assumption || lia ..]. }
  unfold matrix_get. rewrite !Hkey1, Hm3, Hm4 by lia. cbn [obind].
  set (v2 := MIN (u64 (k * d3 + m3)) (u64 (k * d2 + m4))).
  eexists. split; [reflexivity|].
  fold mx1.
  assert (Hkey2 : ∀ p q, 0 ≤ p < ns → 0 ≤ q < ns → (p ≠ k + i ∨ q ≠ i) →
            <[MATRIX ns (k + i) i := v2]> mx1 !! MATRIX ns p q
            = mx1 !! MATRIX ns p q).
  { intros p q Hp Hq Hpq. apply lookup_insert_ne. intros Heq.
    apply MATRIX_inj in Heq; [lia | assumption || lia ..]. }
  intros a b Ha Hb Hab.
  destruct (Z.eq_dec a i) as [->|Hai];
    [destruct (Z.eq_dec b (k + i)) as [->|Hbj]|].
  - (* the cell (i, j) *)
    unfold cell_rule.
    destruct (Z.compare_spec i (k + i)) as [?|_|?]; try lia.
    exists d1, d2, m1, m2. rewrite !Hkey2, !Hkey1 by lia.
    replace (k + i - i) with k by lia.
    repeat split; try assumption. unfold mx1. apply lookup_insert_eq.
  - apply cell_rule_insert; try lia. apply cell_rule_insert; try lia.
    apply Hr; try lia.
  - destruct (Z.eq_dec a (k + i)) as [->|Haj];
      [destruct (Z.eq_dec b i) as [->|Hbi]|].
    + (* the cell (j, i) *)
      unfold cell_rule.
      destruct (Z.compare_spec (k + i) i) as [?|?|_]; try lia.
      exists d3, d2, m3, m4. rewrite !Hkey2, !Hkey1 by lia.
      replace (k + i - i) with k by lia.
      repeat split; try assumption. apply lookup_insert_eq.
    + apply cell_rule_insert; try lia. apply cell_rule_insert; try lia.
      apply Hr; try lia.
    + apply cell_rule_insert; try lia. apply cell_rule_insert; try lia.
      apply Hr; try lia.
Qed.

Lemma program_row_ruled (k : Z) (n : nat) :
  1 ≤ k →
  ∀ m mx, 0 ≤ m → m + Z.of_nat n = ns - k →
    ruled calc_max wild_load sa ns k m mx →
    ∃ mx', foldM (program_cell calc_max wild_load sa ns k)
             (seqZ m (Z.of_nat n)) mx = Ok mx' ∧
           ruled calc_max wild_load sa ns (k + 1) 0 mx'.
Proof.
  intros Hk. induction n as [|n IH]; intros m mx Hm Hlen Hr.
  - exists mx. split; [reflexivity|].
    intros a b Ha Hb Hab. apply Hr; lia.
  - rewrite seqZ_cons by lia. cbn [foldM].
    destruct (program_cell_ruled k m mx) as (mx1 & -> & Hr1);
      [assumption | lia | lia | lia |].
    cbn [obind].
    replace (Z.pred (Z.of_nat (S n))) with (Z.of_nat n) by lia.
    apply IH; [lia | lia |]. replace (Z.succ m) with (m + 1) by lia. exact Hr1.
Qed.

Lemma program_widths_ruled (n : nat) :
  ∀ k mx, 1 ≤ k → k + Z.of_nat n = ns + 1 →
    ruled calc_max wild_load sa ns k 0 mx →
    ∃ mx', foldM (fun mx k => foldM (program_cell calc_max wild_load sa ns k)
                               (seqZ 0 (ns - k)) mx)
             (seqZ k (Z.of_nat n)) mx = Ok mx' ∧
           ruled calc_max wild_load sa ns (ns + 1) 0 mx'.
Proof.
  induction n as [|n IH]; intros k mx Hk Hlen Hr.
  - exists mx. split; [reflexivity|]. now replace (ns + 1) with k by lia.
  - rewrite seqZ_cons by lia. cbn [foldM].
    destruct (program_row_ruled k (Z.to_nat (ns - k)) Hk 0 mx) as (mx1 & Hrow & Hr1);
      [lia | lia | exact Hr |].
    rewrite Z2Nat.id in Hrow by lia. rewrite Hrow. cbn [obind].
    replace (Z.pred (Z.of_nat (S n))) with (Z.of_nat n) by lia.
    apply IH; [lia | lia |]. replace (Z.succ k) with (k + 1) by lia. exact Hr1.
Qed.

(** The fill completes, and the table it leaves satisfies the recurrence
    at every cell. *)
Lemma program_matrix_ruled (mx : gmap Z Z) :
  0 ≤ ns →
  ∃ mx', program_matrix calc_max wild_load sa ns (program_diagonal ns mx) = Ok mx' ∧
         ∀ a b, 0 ≤ a < ns → 0 ≤ b < ns →
                cell_rule calc_max wild_load sa ns mx' a b.
Proof.
  intros Hns. unfold program_matrix.
  destruct (program_widths_ruled (Z.to_nat ns) 1 (program_diagonal ns mx))
    as (mx' & H & Hr); [lia | lia | apply program_diagonal_ruled |].
  rewrite Z2Nat.id in H by exact Hns. exists mx'. split; [exact H|].
  intros a b Ha Hb. apply Hr; lia.
Qed.

End Recurrence.

(** * The scheduler as the host sees it *)

(** ** States used below *)

Lemma source_bound : 1 ≤ ALGOT_CALC_MAX < 2 ^ 32.
Proof. unfold ALGOT_CALC_MAX. lia. Qed.

Lemma source_counter_bound : 1 ≤ ALGOT_CALC_MAX ≤ INT_MAX - ALGOT_DIRTY_COUNT.
Proof. unfold ALGOT_CALC_MAX, INT_MAX, ALGOT_DIRTY_COUNT. lia. Qed.

Lemma two_queued_reachable : reachable ALGOT_CALC_MAX (fun _ => None) two_queued.
Proof.
  unfold two_queued.
  apply reach_admit; [apply reach_admit; [apply reach_init | |] | |]; by_evaluation.
Qed.

Lemma two_queued_unmerged :
  reachable_unmerged ALGOT_CALC_MAX (fun _ => None) two_queued.
Proof.
  unfold two_queued.
  apply unmerged_admit; [apply unmerged_admit; [apply unmerged_init|]|];
    eapply bool_decide_unpack; vm_compute; exact I.
Qed.

Lemma two_queued_dispatch :
  algot_dispatch ALGOT_CALC_MAX (fun _ => None) two_queued
  = Ok (Some (mk_rq 1 10), one_left).
Proof. vm_compute. reflexivity. Qed.

Lemma one_left_reachable : reachable ALGOT_CALC_MAX (fun _ => None) one_left.
Proof.
  apply (reach_dispatch _ _ two_queued one_left (Some (mk_rq 1 10))).
  - exact two_queued_reachable.
  - exact two_queued_dispatch.
Qed.

Lemma one_left_dispatch :
  algot_dispatch ALGOT_CALC_MAX (fun _ => None) one_left
  = Ok (Some (mk_rq 2 20), none_left).
Proof. vm_compute. reflexivity. Qed.

Lemma one_left_dirty : dirty one_left < ALGOT_DIRTY_COUNT.
Proof. vm_compute. reflexivity. Qed.

Lemma two_queued_queues :
  sort_queue two_queued = [mk_rq 1 10; mk_rq 2 20] ∧ wait_queue two_queued = [].
Proof. split; vm_compute; reflexivity. Qed.

Lemma two_queued_pending : sort_queue two_queued ≠ [] ∨ wait_queue two_queued ≠ [].
Proof. left. destruct two_queued_queues as [-> _]. discriminate. Qed.

Lemma two_queued_holds_second :
  mk_rq 2 20 ∈ sort_queue two_queued ++ wait_queue two_queued.
Proof.
  destruct two_queued_queues as [-> ->].
  apply list_elem_of_further, list_elem_of_here.
Qed.

Lemma two_queued_split :
  sort_queue two_queued = [] ++ mk_rq 1 10 :: [mk_rq 2 20] ∨
  wait_queue two_queued = [] ++ mk_rq 1 10 :: [mk_rq 2 20].
Proof. left. vm_compute. reflexivity. Qed.

Lemma one_left_fresh_ids :
  NoDup (map rq_id ([mk_rq 3 30] ++ sort_queue one_left ++ wait_queue one_left)).
Proof. eapply bool_decide_unpack. vm_compute. exact I. Qed.

Lemma one_left_admit_pending :
  sort_queue (admit_all ALGOT_CALC_MAX [mk_rq 3 30] one_left) ≠ [] ∨
  wait_queue (admit_all ALGOT_CALC_MAX [mk_rq 3 30] one_left) ≠ [].
Proof.
  left.
  assert (H : sort_queue (admit_all ALGOT_CALC_MAX [mk_rq 3 30] one_left)
              = [mk_rq 2 20; mk_rq 3 30]) by (vm_compute; reflexivity).
  rewrite H. discriminate.
Qed.

Lemma scenario_A_plan_ready :
  plan_ready ALGOT_CALC_MAX
    (admit_all ALGOT_CALC_MAX scenario_A (init_state blank_memory)).
Proof.
  assert (Hsq : sort_queue (admit_all ALGOT_CALC_MAX scenario_A
                              (init_state blank_memory))
                = [mk_rq 2 10; mk_rq 4 30; mk_rq 1 50; mk_rq 3 80])
    by (vm_compute; reflexivity).
  assert (Hwq : wait_queue (admit_all ALGOT_CALC_MAX scenario_A
                              (init_state blank_memory)) = [])
    by (vm_compute; reflexivity).
  constructor.
  - exact source_bound.
  - vm_compute; reflexivity.
  - vm_compute; discriminate.
  - rewrite Hsq. repeat constructor; unfold sector_le; simpl; lia.
  - rewrite Hsq, Hwq. simpl. eapply bool_decide_unpack. vm_compute. exact I.
  - left. rewrite Hsq. discriminate.
Qed.

(** *** The state left by the run with a merge *)

(** Each admission makes at most one sort-in for each waiting request
    and one for the new request, and it adds one to the sum of [dirty]
    and the length of the wait queue. *)
Lemma reachable_admit_all
  (calc_max : Z) (wild_load : Z → option Z) (rqs : list request) (nd : algot_data) :
  1 ≤ calc_max < 2 ^ 32 → wild_load 1 = None →
  reachable calc_max wild_load nd →
  NoDup (map rq_id (rqs ++ sort_queue nd ++ wait_queue nd)) →
  dirty nd + Z.of_nat (length (wait_queue nd)) + Z.of_nat (length rqs) ≤ INT_MAX →
  reachable calc_max wild_load (admit_all calc_max rqs nd).
Proof.
  intros Hcap Htrap.
  revert nd. induction rqs as [|rq rqs IH]; intros nd Hr Hnd Hq; [exact Hr|].
  simpl in Hnd. apply NoDup_cons in Hnd as [Hrq Hnd].
  rewrite map_app in Hrq. apply not_elem_of_app in Hrq as [Hrq1 Hrq2].
  destruct (reachable_consistent_counter calc_max wild_load Hcap Htrap nd Hr)
    as [[Hok _ _ _ _ _] Hd0].
  destruct (algot_add_request_counter calc_max nd rq ltac:(lia) Hok) as [Hn1 Hd1].
  pose proof (algot_add_request_count calc_max nd rq ltac:(lia) Hok) as [_ Hn1'].
  pose proof (Permutation_length (algot_add_request_perm calc_max nd rq)) as Hlen.
  simpl length in Hlen, Hq. rewrite !length_app in Hlen.
  destruct Hok as [Hb Hn].
  assert (Hroom : counter_has_room calc_max nd).
  { unfold counter_has_room, sort_ins. lia. }
  specialize (Hd1 ltac:(unfold INT_MIN; lia) Hroom).
  cbn [admit_all fold_left]. apply IH; [now apply reach_admit| |lia].
  rewrite (Permutation_map rq_id
             (Permutation_app_head rqs (algot_add_request_perm calc_max nd rq))).
  rewrite (Permutation_map rq_id (Permutation_sym (Permutation_middle _ _ _))).
  simpl. apply NoDup_cons. split; [|exact Hnd].
  rewrite map_app. apply not_elem_of_app. now split.
Qed.

Lemma reachable_dispatch_n
  (calc_max : Z) (wild_load : Z → option Z) (n : nat) (nd nd' : algot_data)
  (l : list (option request)) :
  reachable calc_max wild_load nd →
  dispatch_n calc_max wild_load n nd = Ok (l, nd') →
  reachable calc_max wild_load nd'.
Proof.
  revert nd l. induction n as [|n IH]; intros nd l Hr; cbn [dispatch_n].
  - now intros [= <- <-].
  - destruct (algot_dispatch calc_max wild_load nd) as [[rq nd1]| | |] eqn:Hd;
      try discriminate.
    cbn [obind].
    destruct (dispatch_n calc_max wild_load n nd1) as [[l1 nd2]| | |] eqn:Hn;
      try discriminate.
    cbn [obind]. intros [= <- <-].
    apply (IH nd1 l1); [|exact Hn]. now apply (reach_dispatch _ _ nd nd1 rq).
Qed.

Lemma merge_drained_state_reachable :
  reachable ALGOT_CALC_MAX (fun _ => None) merge_drained_state.
Proof.
  set (wl := fun _ : Z => @None Z).
  set (a1 := admit_all ALGOT_CALC_MAX [mk_rq 1 5; mk_rq 2 6; mk_rq 3 7]
               (init_state blank_memory)).
  set (a2 := state_of (dispatch_n ALGOT_CALC_MAX wl 3 a1) blank_memory).
  set (a3 := admit_all ALGOT_CALC_MAX [mk_rq 4 10; mk_rq 5 20] a2).
  set (a4 := state_of (dispatch_n ALGOT_CALC_MAX wl 1 a3) blank_memory).
  set (a5 := match algot_merged_requests ALGOT_CALC_MAX a4 (mk_rq 4 10) (mk_rq 5 20)
             with Ok nd => nd | _ => blank_memory end).
  assert (E : merge_drained_state = algot_add_request ALGOT_CALC_MAX a5 (mk_rq 6 30))
    by (vm_compute; reflexivity).
  rewrite E.
  assert (R1 : reachable ALGOT_CALC_MAX wl a1).
  { apply reachable_admit_all;
      [exact source_bound | reflexivity | apply reach_init | by_evaluation
      | by_evaluation]. }
  assert (R2 : reachable ALGOT_CALC_MAX wl a2).
  { apply (reachable_dispatch_n ALGOT_CALC_MAX wl 3 a1 a2
             [Some (mk_rq 1 5); Some (mk_rq 2 6); Some (mk_rq 3 7)] R1).
    vm_compute. reflexivity. }
  assert (R3 : reachable ALGOT_CALC_MAX wl a3).
  { apply reachable_admit_all;
      [exact source_bound | reflexivity | exact R2 | by_evaluation | by_evaluation]. }
  assert (R4 : reachable ALGOT_CALC_MAX wl a4).
  { apply (reachable_dispatch_n ALGOT_CALC_MAX wl 1 a3 a4 [Some (mk_rq 4 10)] R3).
    vm_compute. reflexivity. }
  assert (R5 : reachable ALGOT_CALC_MAX wl a5).
  { apply (reach_merged _ _ a4 a5 (mk_rq 4 10) (mk_rq 5 20) R4).
    - assert (Hq : sort_queue a4 ++ wait_queue a4 = [mk_rq 5 20])
        by (vm_compute; reflexivity).
      rewrite Hq. apply list_elem_of_here.
    - vm_compute. reflexivity. }
  apply reach_admit; [exact R5 | by_evaluation | by_evaluation].
Qed.

Lemma merge_drained_state_pending :
  sort_queue merge_drained_state ≠ [] ∨ wait_queue merge_drained_state ≠ [].
Proof.
  left.
  assert (H : sort_queue merge_drained_state = [mk_rq 6 30]) by (vm_compute; reflexivity).
  rewrite H. discriminate.
Qed.

Lemma merge_drained_state_dirty : dirty merge_drained_state < ALGOT_DIRTY_COUNT.
Proof. vm_compute. reflexivity. Qed.

Lemma merge_drained_state_window : ¬ window_pending merge_drained_state.
Proof.
  intros (i & r & Hi & Hr).
  assert (Hs : opt_s merge_drained_state = 1) by (vm_compute; reflexivity).
  assert (He : opt_e merge_drained_state = 1) by (vm_compute; reflexivity).
  rewrite Hs, He in Hi. assert (i = 1) as -> by lia.
  assert (Hc : sorted merge_drained_state !! 1 = Some ALGOT_REF_MERGED)
    by (vm_compute; reflexivity).
  rewrite Hc in Hr. discriminate Hr.
Qed.

(** *** The window whose lower end was merged away *)

Lemma backward_overrun_state_reachable :
  reachable ALGOT_CALC_MAX (fun _ => None) backward_overrun_state.
Proof.
  set (wl := fun _ : Z => @None Z).
  set (a1 := admit_all ALGOT_CALC_MAX [mk_rq 1 100] (init_state blank_memory)).
  set (a2 := state_of (dispatch_n ALGOT_CALC_MAX wl 1 a1) blank_memory).
  set (a3 := admit_all ALGOT_CALC_MAX [mk_rq 2 200; mk_rq 3 90] a2).
  set (a4 := state_of (dispatch_n ALGOT_CALC_MAX wl 1 a3) blank_memory).
  set (a5 := algot_add_request ALGOT_CALC_MAX a4 (mk_rq 4 300)).
  assert (R1 : reachable ALGOT_CALC_MAX wl a1).
  { apply reachable_admit_all;
      [exact source_bound | reflexivity | apply reach_init | by_evaluation
      | by_evaluation]. }
  assert (R2 : reachable ALGOT_CALC_MAX wl a2).
  { apply (reachable_dispatch_n ALGOT_CALC_MAX wl 1 a1 a2 [Some (mk_rq 1 100)] R1).
    vm_compute. reflexivity. }
  assert (R3 : reachable ALGOT_CALC_MAX wl a3).
  { apply reachable_admit_all;
      [exact source_bound | reflexivity | exact R2 | by_evaluation | by_evaluation]. }
  assert (R4 : reachable ALGOT_CALC_MAX wl a4).
  { apply (reachable_dispatch_n ALGOT_CALC_MAX wl 1 a3 a4 [Some (mk_rq 3 90)] R3).
    vm_compute. reflexivity. }
  assert (R5 : reachable ALGOT_CALC_MAX wl a5).
  { apply reach_admit; [exact R4 | by_evaluation | by_evaluation]. }
  apply (reach_merged _ _ a5 backward_overrun_state (mk_rq 4 300) (mk_rq 2 200) R5).
  - assert (Hq : sort_queue a5 ++ wait_queue a5 = [mk_rq 2 200; mk_rq 4 300])
      by (vm_compute; reflexivity).
    rewrite Hq. apply list_elem_of_here.
  - vm_compute. reflexivity.
Qed.

(** *** A request waiting behind a window with room *)

Lemma one_waiting_plan_ready : plan_ready 2 one_waiting.
Proof.
  assert (Hsq : sort_queue one_waiting = [mk_rq 2 20]) by (vm_compute; reflexivity).
  assert (Hwq : wait_queue one_waiting = [mk_rq 3 30]) by (vm_compute; reflexivity).
  assert (Hn : nsorted one_waiting = 1) by (vm_compute; reflexivity).
  constructor.
  - lia.
  - rewrite Hn, Hsq. reflexivity.
  - rewrite Hn. lia.
  - rewrite Hsq. repeat constructor.
  - rewrite Hsq, Hwq. by_evaluation.
  - left. rewrite Hsq. discriminate.
Qed.

Lemma one_waiting_queues :
  sort_queue one_waiting = [mk_rq 2 20] ∧ wait_queue one_waiting = [mk_rq 3 30] ∧
  nsorted one_waiting = 1.
Proof. repeat split; vm_compute; reflexivity. Qed.

(** ** Admission *)

(** X1. Admission neither loses nor duplicates a request: whatever
    the state, after any sequence of calls of [algot_add_request] the two
    lists together hold exactly the requests they held before and the
    ones admitted. *)
Theorem admission_keeps_every_request
  (calc_max : Z) (rqs : list request) (nd : algot_data) :
  let nd' := admit_all calc_max rqs nd in
  sort_queue nd' ++ wait_queue nd' ≡ₚ rqs ++ sort_queue nd ++ wait_queue nd.
Proof.
  cbv zeta. revert nd. induction rqs as [|rq rqs IH]; intros nd; [reflexivity|].
  cbn [admit_all fold_left]. unfold admit_all in IH.
  rewrite IH, algot_add_request_perm. symmetry. apply Permutation_middle.
Qed.

(** X2. Requests enter the sort queue in arrival order.  With the new
    request appended to the wait queue, [algot_add_request] moves the
    first k of these arrivals to the sort queue and leaves the rest
    waiting in their order, where k is the smaller of the number of
    arrivals and the room left, [calc_max - nsorted]; [nsorted] grows by
    k, and so does [dirty] when it holds an [int] that is at most
    INT_MAX - k (otherwise the increments of line 96 overflow). *)
Theorem admission_takes_arrivals_in_order
  (calc_max : Z) (nd : algot_data) (rq : request) :
  calc_max < 2 ^ 32 → queue_count_ok calc_max nd →
  let arrivals := wait_queue nd ++ [rq] in
  let k := Z.to_nat (Z.min (Z.of_nat (length arrivals)) (calc_max - nsorted nd)) in
  let nd' := algot_add_request calc_max nd rq in
  wait_queue nd' = drop k arrivals ∧
  sort_queue nd' ≡ₚ sort_queue nd ++ take k arrivals ∧
  nsorted nd' = nsorted nd + Z.of_nat k ∧
  (INT_MIN ≤ dirty nd → dirty nd + Z.of_nat k ≤ INT_MAX →
   dirty nd' = dirty nd + Z.of_nat k).
Proof.
  intros Hc Hok. cbv zeta.
  destruct (algot_add_request_counter calc_max nd rq Hc Hok) as [_ Hdirty].
  assert (Hk : Z.of_nat (Z.to_nat (Z.min (Z.of_nat (length (wait_queue nd ++ [rq])))
                                     (calc_max - nsorted nd)))
               = sort_ins calc_max nd).
  { unfold sort_ins. rewrite length_app. simpl length. destruct Hok. lia. }
  rewrite Hk. unfold counter_has_room in Hdirty.
  split; [|split; [|split; [|exact Hdirty]]]; rewrite <- ?Hk; clear Hk Hdirty;
    unfold algot_add_request;
    destruct (drain_wait_queue_prefix calc_max (wait_queue nd) nd Hc Hok)
      as (H1 & H2 & H3 & _);
    pose proof (drain_wait_queue_count calc_max (wait_queue nd) nd Hc Hok) as [Hb1 Hn1];
    pose proof (drain_wait_queue_stops calc_max (wait_queue nd) nd Hc Hok) as Hstop;
    cbv zeta in *;
    set (nd1 := drain_wait_queue calc_max (wait_queue nd) nd) in *;
    set (k0 := Z.to_nat (Z.min (Z.of_nat (length (wait_queue nd)))
                           (calc_max - nsorted nd))) in *;
    destruct Hok as [Hb Hn]; rewrite length_app; simpl length;
    assert (Hk0 : (k0 ≤ length (wait_queue nd))%nat) by (unfold k0; lia);
    assert (Hlen1 : length (wait_queue nd1) = (length (wait_queue nd) - k0)%nat)
      by (rewrite H1; apply length_drop).
  - (* the wait queue *)
    destruct (wait_queue nd1) as [|w wq1] eqn:Hw1; cbn [list_empty andb].
    + simpl in Hlen1.
      destruct (Z.ltb_spec (nsorted nd1) calc_max) as [Hroom|Hfull].
      * (* everything drained and room left: [rq] is sorted in *)
        replace (Z.to_nat _) with (S (length (wait_queue nd))) by lia.
        change (wait_queue (algot_sort_in nd1 rq)) with (wait_queue nd1).
        rewrite drop_ge by (rewrite length_app; simpl; lia). exact Hw1.
      * (* everything drained, the window is full: [rq] waits alone *)
        replace (Z.to_nat _) with k0 by (unfold k0 in *; lia).
        simpl. rewrite Hw1, drop_app_le by lia. rewrite <- H1. reflexivity.
    + (* requests are left waiting: the window is full *)
      destruct Hstop as [Hw | Hfull]; [discriminate Hw|].
      replace (Z.to_nat _) with k0 by (unfold k0 in *; lia).
      simpl. rewrite Hw1, drop_app_le by lia. rewrite <- H1. reflexivity.
  - (* the sort queue *)
    destruct (wait_queue nd1) as [|w wq1] eqn:Hw1; cbn [list_empty andb].
    + simpl in Hlen1.
      destruct (Z.ltb_spec (nsorted nd1) calc_max) as [Hroom|Hfull].
      * replace (Z.to_nat _) with (S (length (wait_queue nd))) by lia.
        rewrite take_ge by (rewrite length_app; simpl; lia).
        assert (Hk : k0 = length (wait_queue nd)) by lia.
        simpl. rewrite list_add_before_greater_perm, H2, Hk, take_ge by lia.
        rewrite app_assoc. apply Permutation_cons_append.
      * replace (Z.to_nat _) with k0 by (unfold k0 in *; lia).
        simpl. rewrite take_app_le by lia. exact H2.
    + destruct Hstop as [Hw | Hfull]; [discriminate Hw|].
      replace (Z.to_nat _) with k0 by (unfold k0 in *; lia).
      simpl. rewrite take_app_le by lia. exact H2.
  - (* the live count *)
    destruct (wait_queue nd1) as [|w wq1] eqn:Hw1; cbn [list_empty andb].
    + simpl in Hlen1.
      destruct (Z.ltb_spec (nsorted nd1) calc_max) as [Hroom|Hfull].
      * change (nsorted (algot_sort_in nd1 rq)) with (u32 (nsorted nd1 + 1)).
        rewrite u32_small by lia. lia.
      * change (nsorted (set_wait_queue _ _)) with (nsorted nd1). lia.
    + destruct Hstop as [Hw | Hfull]; [discriminate Hw|].
      change (nsorted (set_wait_queue _ _)) with (nsorted nd1). lia.
Qed.

Lemma admission_takes_arrivals_in_order_witness :
  (2 < 2 ^ 32 ∧ queue_count_ok 2 one_waiting ∧
   INT_MIN ≤ dirty one_waiting ∧ dirty one_waiting + 1 ≤ INT_MAX) ∧
  let nd' := algot_add_request 2 one_waiting (mk_rq 4 40) in
  wait_queue nd' = [mk_rq 4 40] ∧
  sort_queue nd' ≡ₚ sort_queue one_waiting ++ [mk_rq 3 30] ∧
  nsorted nd' = nsorted one_waiting + 1 ∧
  dirty nd' = dirty one_waiting + 1.
Proof.
  assert (H1 : 2 < 2 ^ 32) by lia.
  assert (H2 : queue_count_ok 2 one_waiting).
  { assert (Hn : nsorted one_waiting = 1) by (vm_compute; reflexivity).
    assert (Hl : length (sort_queue one_waiting) = 1%nat) by (vm_compute; reflexivity).
    unfold queue_count_ok. rewrite Hn, Hl. lia. }
  assert (H3 : INT_MIN ≤ dirty one_waiting) by by_evaluation.
  assert (H4 : dirty one_waiting + 1 ≤ INT_MAX) by by_evaluation.
  split; [auto|].
  destruct (admission_takes_arrivals_in_order 2 one_waiting (mk_rq 4 40) H1 H2)
    as (E1 & E2 & E3 & E4).
  exact (conj E1 (conj E2 (conj E3 (E4 H3 H4)))).
Defined.

(** ** The invariant *)

(** X3. Whatever admissions, merge notifications for queued requests
    and dispatches the host has made (a load through the pointer 0x1
    taken to trap, and the admissions leaving [dirty] within [int], see
    [reachable]), [nsorted] is the length of the sort queue and at most
    [calc_max]; the sort queue is in ascending sector order; no request is
    linked twice; every request on the wait queue is tagged
    ALGOT_PRI0_UNSORTED; and every request on the sort queue is tagged
    ALGOT_PRI0_SORTED or with the index, below [calc_max], of a cell of
    [sorted] that points back to it. *)
Theorem reachable_state_invariant
  (calc_max : Z) (wild_load : Z → option Z) (nd : algot_data) :
  1 ≤ calc_max < 2 ^ 32 → wild_load 1 = None →
  reachable calc_max wild_load nd →
  nsorted nd = Z.of_nat (length (sort_queue nd)) ∧
  nsorted nd ≤ calc_max ∧
  ascending (sort_queue nd) ∧
  NoDup (map rq_id (sort_queue nd ++ wait_queue nd)) ∧
  (∀ r, r ∈ wait_queue nd → elevator_private nd (rq_id r) = ALGOT_PRI0_UNSORTED) ∧
  (∀ r, r ∈ sort_queue nd →
        elevator_private nd (rq_id r) = ALGOT_PRI0_SORTED ∨
        ∃ i, elevator_private nd (rq_id r) = PRI0_IDX i ∧ 0 ≤ i < calc_max ∧
             sorted nd !! i = Some (REF_RQ r)).
Proof.
  intros Hcap Htrap
    [[Hb Hn] Hasc Hnd Hwt Hst _]%(reachable_consistent calc_max wild_load Hcap Htrap).
  repeat split; try assumption. lia.
Qed.

Lemma reachable_state_invariant_witness :
  (1 ≤ ALGOT_CALC_MAX < 2 ^ 32 ∧
   reachable ALGOT_CALC_MAX (fun _ => None) two_queued) ∧
  nsorted two_queued = Z.of_nat (length (sort_queue two_queued)) ∧
  nsorted two_queued ≤ ALGOT_CALC_MAX ∧
  ascending (sort_queue two_queued).
Proof.
  split; [split; [exact source_bound | exact two_queued_reachable]|].
  destruct (reachable_state_invariant ALGOT_CALC_MAX (fun _ => None) two_queued
              source_bound eq_refl two_queued_reachable)
    as (H1 & H2 & H3 & _).
  auto.
Defined.

(** ** Merge notifications *)

(** X4. In a reachable state a merge notification for a request that is
    on one of the two lists always returns: BUG_ON at line 110 does not
    fire and the store at line 111 stays inside [sorted].  It takes that
    request, and only that one, off the lists, keeps [nsorted] equal to
    the length of the sort queue, and leaves the arm position, the dirty
    counter and the cost matrix alone.  For a request of the wait queue
    [nsorted] and [sorted] are unchanged; for one of the sort queue
    [nsorted] drops by one, and if the request had a cell in [sorted] the
    cell now reads ALGOT_REF_MERGED. *)
Theorem merge_of_queued_request
  (calc_max : Z) (wild_load : Z → option Z) (nd : algot_data)
  (rq next : request) :
  1 ≤ calc_max < 2 ^ 32 → wild_load 1 = None →
  reachable calc_max wild_load nd →
  next ∈ sort_queue nd ++ wait_queue nd →
  ∃ nd', algot_merged_requests calc_max nd rq next = Ok nd' ∧
         (sort_queue nd ++ wait_queue nd
          ≡ₚ next :: sort_queue nd' ++ wait_queue nd') ∧
         (rq_id next ∉ map rq_id (sort_queue nd' ++ wait_queue nd')) ∧
         nsorted nd' = Z.of_nat (length (sort_queue nd')) ∧
         rw_head nd' = rw_head nd ∧ dirty nd' = dirty nd ∧
         cost_matrix nd' = cost_matrix nd ∧
         (next ∈ wait_queue nd →
          nsorted nd' = nsorted nd ∧ sorted nd' = sorted nd) ∧
         (next ∈ sort_queue nd →
          nsorted nd' = nsorted nd - 1 ∧
          ∀ i, elevator_private nd (rq_id next) = PRI0_IDX i →
               sorted nd' !! i = Some ALGOT_REF_MERGED).
Proof.
  intros Hcap Htrap Hcons%(reachable_consistent calc_max wild_load Hcap Htrap) Hin.
  destruct (algot_merged_requests_consistent calc_max Hcap nd rq next Hcons Hin)
    as (nd' & Hrun & Hc).
  destruct (algot_merged_requests_fields calc_max nd nd' rq next Hrun)
    as (F1 & F2 & F3 & F4 & _ & _ & _ & F8 & _).
  destruct (algot_merged_requests_cases calc_max nd nd' rq next
              ltac:(lia) Hcons Hrun) as [Hwait Hsort].
  destruct Hcons as [_ _ Hnd _ _ _].
  pose proof (unlink_queues_perm next _ _ Hnd Hin) as Hperm.
  rewrite <- F1, <- F2 in Hperm.
  exists nd'. split; [exact Hrun|]. split; [exact Hperm|].
  split; [|destruct Hc as [[_ Hn] _ _ _ _ _]; auto 10].
  rewrite (Permutation_map rq_id Hperm) in Hnd. simpl in Hnd.
  now apply NoDup_cons in Hnd as [Hnot _].
Qed.

Lemma merge_of_queued_request_witness :
  (1 ≤ ALGOT_CALC_MAX < 2 ^ 32 ∧
   reachable ALGOT_CALC_MAX (fun _ => None) two_queued ∧
   mk_rq 2 20 ∈ sort_queue two_queued ++ wait_queue two_queued) ∧
  ∃ nd', algot_merged_requests ALGOT_CALC_MAX two_queued (mk_rq 1 10) (mk_rq 2 20)
         = Ok nd' ∧
         nsorted nd' = Z.of_nat (length (sort_queue nd')).
Proof.
  split; [split; [exact source_bound
                 | split; [exact two_queued_reachable
                          | exact two_queued_holds_second]]|].
  destruct (merge_of_queued_request ALGOT_CALC_MAX (fun _ => None) two_queued
              (mk_rq 1 10) (mk_rq 2 20)
              source_bound eq_refl two_queued_reachable two_queued_holds_second)
    as (nd' & H1 & _ & _ & H4 & _).
  eauto.
Defined.

(** ** Dispatch *)

(** X5. A dispatch that returns 1 in a reachable state hands out a
    request that was queued and is queued no longer, and no other request
    leaves or joins the lists; the arm position becomes that request's
    sector.  The request carries in [elevator_private[0]] the index of
    its cell of [sorted]: after the plan step of the dispatch ([nd1], the
    state after the rebuild if one was due) that cell pointed to the
    request, now it reads ALGOT_REF_DISPATCHED, and no other cell has
    changed. *)
Theorem dispatch_hands_out_one_queued_request
  (calc_max : Z) (wild_load : Z → option Z) (nd nd' : algot_data)
  (rq : request) :
  1 ≤ calc_max < 2 ^ 32 → wild_load 1 = None →
  reachable calc_max wild_load nd →
  algot_dispatch calc_max wild_load nd = Ok (Some rq, nd') →
  (sort_queue nd ++ wait_queue nd ≡ₚ rq :: sort_queue nd' ++ wait_queue nd') ∧
  (rq_id rq ∉ map rq_id (sort_queue nd' ++ wait_queue nd')) ∧
  rw_head nd' = blk_rq_pos rq ∧
  ∃ nd1 i,
    (if ALGOT_DIRTY_COUNT <=? dirty nd
     then algot_program calc_max wild_load nd else Ok nd) = Ok nd1 ∧
    0 ≤ i < calc_max ∧
    sorted nd1 !! i = Some (REF_RQ rq) ∧
    elevator_private nd' (rq_id rq) = PRI0_IDX i ∧
    sorted nd' !! i = Some ALGOT_REF_DISPATCHED ∧
    ∀ j, j ≠ i → sorted nd' !! j = sorted nd1 !! j.
Proof.
  intros Hcap Htrap Hpl%(reachable_planned calc_max wild_load Hcap Htrap) Hrun.
  destruct (algot_dispatch_result calc_max wild_load Hcap Htrap nd nd' rq Hpl Hrun)
    as (nd0 & i0 & _ & _ & _ & Hperm & Hhead & _).
  split; [exact Hperm|]. split; [|split; [exact Hhead|]].
  - destruct Hpl as [[_ _ Hnd _ _ _] _].
    rewrite (Permutation_map rq_id Hperm) in Hnd. simpl in Hnd.
    now apply NoDup_cons in Hnd as [Hnot _].
  - destruct (algot_dispatch_cell calc_max wild_load Hcap Htrap nd nd' rq Hpl Hrun)
      as (nd1 & i & Hplan & Hb & Hslot & Htag & Harr).
    exists nd1, i. rewrite Harr.
    split; [exact Hplan|]. split; [exact Hb|]. split; [exact Hslot|].
    split; [exact Htag|]. split; [apply lookup_insert_eq|].
    intros j Hj. now apply lookup_insert_ne.
Qed.

Lemma dispatch_hands_out_one_queued_request_witness :
  (1 ≤ ALGOT_CALC_MAX < 2 ^ 32 ∧
   reachable ALGOT_CALC_MAX (fun _ => None) two_queued ∧
   algot_dispatch ALGOT_CALC_MAX (fun _ => None) two_queued
   = Ok (Some (mk_rq 1 10), one_left)) ∧
  (sort_queue two_queued ++ wait_queue two_queued
   ≡ₚ mk_rq 1 10 :: sort_queue one_left ++ wait_queue one_left) ∧
  rw_head one_left = 10 ∧
  elevator_private one_left (rq_id (mk_rq 1 10)) = PRI0_IDX 0 ∧
  sorted one_left !! 0 = Some ALGOT_REF_DISPATCHED.
Proof.
  split; [split; [exact source_bound
                 | split; [exact two_queued_reachable | exact two_queued_dispatch]]|].
  destruct (dispatch_hands_out_one_queued_request ALGOT_CALC_MAX (fun _ => None)
              two_queued one_left (mk_rq 1 10)
              source_bound eq_refl two_queued_reachable two_queued_dispatch)
    as (H1 & _ & H3 & nd1 & i & _ & _ & _ & H4 & H5 & _).
  assert (Ht : elevator_private one_left (rq_id (mk_rq 1 10)) = PRI0_IDX 0)
    by (vm_compute; reflexivity).
  split; [exact H1|]. split; [exact H3|]. split; [exact Ht|].
  rewrite Ht in H4. injection H4 as <-. exact H5.
Defined.

(** X6. While [dirty] is below ALGOT_DIRTY_COUNT a dispatch does not
    rebuild, and the request it hands out is one the last rebuild placed:
    it sits in a cell of the current window [opt_s .. opt_e] and carries
    that cell's index, and every cell of the window before it, or every
    cell after it, reads ALGOT_REF_MERGED: it is the first or the last
    request left in the window.  Requests on the wait queue, and requests
    admitted since the rebuild, are not served by such a call; the cost
    matrix is left as it was. *)
Theorem dispatch_without_rebuild_serves_the_window
  (calc_max : Z) (wild_load : Z → option Z) (nd nd' : algot_data)
  (rq : request) :
  1 ≤ calc_max < 2 ^ 32 → wild_load 1 = None →
  reachable calc_max wild_load nd →
  dirty nd < ALGOT_DIRTY_COUNT →
  algot_dispatch calc_max wild_load nd = Ok (Some rq, nd') →
  (rq ∉ wait_queue nd) ∧
  elevator_private nd (rq_id rq) ≠ ALGOT_PRI0_SORTED ∧
  cost_matrix nd' = cost_matrix nd ∧
  ∃ i, opt_s nd ≤ i ≤ opt_e nd ∧ sorted nd !! i = Some (REF_RQ rq) ∧
       elevator_private nd (rq_id rq) = PRI0_IDX i ∧
       ((∀ j, opt_s nd ≤ j < i → sorted nd !! j = Some ALGOT_REF_MERGED) ∨
        (∀ j, i < j ≤ opt_e nd → sorted nd !! j = Some ALGOT_REF_MERGED)).
Proof.
  intros Hcap Htrap Hpl%(reachable_planned calc_max wild_load Hcap Htrap) Hd Hrun.
  destruct (algot_dispatch_result calc_max wild_load Hcap Htrap nd nd' rq Hpl Hrun)
    as (nd1 & i & Hplan & _ & _ & _ & _ & _ & Hmx & Hrange & Hslot & Htag & Hends).
  destruct (Z.leb_spec ALGOT_DIRTY_COUNT (dirty nd)) as [?|_]; [lia|].
  injection Hplan as <-.
  split; [|split; [|split; [exact Hmx | eauto 10]]].
  - intros Hw. destruct Hpl as [[_ _ _ Hwt _ _] _].
    rewrite (Hwt rq Hw) in Htag. discriminate.
  - rewrite Htag. discriminate.
Qed.

Lemma dispatch_without_rebuild_serves_the_window_witness :
  (1 ≤ ALGOT_CALC_MAX < 2 ^ 32 ∧
   reachable ALGOT_CALC_MAX (fun _ => None) one_left ∧
   dirty one_left < ALGOT_DIRTY_COUNT ∧
   algot_dispatch ALGOT_CALC_MAX (fun _ => None) one_left
   = Ok (Some (mk_rq 2 20), none_left)) ∧
  cost_matrix none_left = cost_matrix one_left.
Proof.
  split; [split; [exact source_bound
                 | split; [exact one_left_reachable
                          | split; [exact one_left_dirty | exact one_left_dispatch]]]|].
  destruct (dispatch_without_rebuild_serves_the_window ALGOT_CALC_MAX (fun _ => None)
              one_left none_left (mk_rq 2 20)
              source_bound eq_refl one_left_reachable one_left_dirty one_left_dispatch)
    as (_ & _ & H3 & _).
  exact H3.
Defined.

(** X18. When a rebuild is due, the request a dispatch hands out is
    the first or the last one of the C-SCAN order the rebuild has laid
    out (the requests above the arm in ascending order, then those at or
    below it in ascending order): the nearest request above the arm, or
    the last one of the sweep. *)
Theorem rebuilding_dispatch_serves_an_end_of_the_sweep
  (calc_max : Z) (wild_load : Z → option Z) (nd nd' : algot_data)
  (rq : request) :
  1 ≤ calc_max < 2 ^ 32 → wild_load 1 = None →
  reachable calc_max wild_load nd →
  ALGOT_DIRTY_COUNT ≤ dirty nd →
  algot_dispatch calc_max wild_load nd = Ok (Some rq, nd') →
  let nd1 := drain_wait_queue calc_max (wait_queue nd) nd in
  let order := cscan_order (rw_head nd) (sort_queue nd1) in
  head order = Some rq ∨ last order = Some rq.
Proof.
  intros Hcap Htrap Hpl%(reachable_planned calc_max wild_load Hcap Htrap) Hd Hrun
    nd1 order.
  destruct (algot_dispatch_result calc_max wild_load Hcap Htrap nd nd' rq Hpl Hrun)
    as (nd2 & i & Hplan & _ & _ & _ & _ & _ & _ & Hrange & Hslot & _ & Hends).
  destruct (Z.leb_spec ALGOT_DIRTY_COUNT (dirty nd)) as [_|?]; [|lia].
  assert (Hpend : sort_queue nd ≠ [] ∨ wait_queue nd ≠ []).
  { destruct (pending_dec nd) as [[Hsq Hwq] | H]; [|exact H].
    unfold algot_dispatch in Hrun. rewrite Hsq, Hwq in Hrun. discriminate Hrun. }
  destruct Hpl as [Hcons _].
  pose proof (consistent_plan_ready calc_max Hcap nd Hcons Hpend) as Hready.
  destruct (algot_program_result calc_max wild_load nd Hready) as [mx Hrun2].
  rewrite Hrun2 in Hplan. injection Hplan as <-.
  destruct (drain_wait_queue_pending calc_max nd Hready)
    as ([Hb1 Hn1] & Hpos & _ & Hnd1).
  fold nd1 in Hb1, Hn1, Hpos, Hnd1, Hrange, Hslot, Hends.
  pose proof (cscan_order_length (rw_head nd) (sort_queue nd1)) as Hlen.
  fold order in Hlen.
  assert (Hcell : ∀ (k : nat) r, order !! k = Some r →
            sorted (rebuilt (rw_head nd) mx nd1) !! Z.of_nat k = Some (REF_RQ r)).
  { intros k r Hk. now apply (cscan_order_placed (rw_head nd) nd1) in Hk as [Hk _]. }
  unfold rebuilt in Hrange, Hends; simpl in Hrange, Hends.
  destruct Hends as [Hleft | Hright].
  - left. destruct (lookup_lt_is_Some_2 order 0) as [r0 Hr0]; [lia|].
    pose proof (Hcell 0%nat r0 Hr0) as H0. change (Z.of_nat 0) with 0 in H0.
    destruct (Z.eq_dec i 0) as [->|Hne].
    + rewrite Hslot in H0. injection H0 as ->. now rewrite head_lookup.
    + rewrite Hleft in H0 by lia. discriminate H0.
  - right. destruct (lookup_lt_is_Some_2 order (pred (length order))) as [r1 Hr1];
      [lia|].
    pose proof (Hcell _ r1 Hr1) as H1.
    replace (Z.of_nat (pred (length order))) with (nsorted nd1 - 1) in H1 by lia.
    destruct (Z.eq_dec i (nsorted nd1 - 1)) as [->|Hne].
    + rewrite Hslot in H1. injection H1 as ->. now rewrite last_lookup.
    + rewrite Hright in H1 by lia. discriminate H1.
Qed.

Lemma two_queued_dirty : ALGOT_DIRTY_COUNT ≤ dirty two_queued.
Proof. vm_compute. discriminate. Qed.

Lemma rebuilding_dispatch_serves_an_end_of_the_sweep_witness :
  (1 ≤ ALGOT_CALC_MAX < 2 ^ 32 ∧
   reachable ALGOT_CALC_MAX (fun _ => None) two_queued ∧
   ALGOT_DIRTY_COUNT ≤ dirty two_queued ∧
   algot_dispatch ALGOT_CALC_MAX (fun _ => None) two_queued
   = Ok (Some (mk_rq 1 10), one_left)) ∧
  let nd1 := drain_wait_queue ALGOT_CALC_MAX (wait_queue two_queued) two_queued in
  let order := cscan_order (rw_head two_queued) (sort_queue nd1) in
  head order = Some (mk_rq 1 10) ∨ last order = Some (mk_rq 1 10).
Proof.
  split; [split; [exact source_bound
                 | split; [exact two_queued_reachable
                          | split; [exact two_queued_dirty
                                   | exact two_queued_dispatch]]]|].
  exact (rebuilding_dispatch_serves_an_end_of_the_sweep ALGOT_CALC_MAX
           (fun _ => None) two_queued one_left (mk_rq 1 10)
           source_bound eq_refl two_queued_reachable two_queued_dirty
           two_queued_dispatch).
Defined.

(** X7. The outcome of [algot_dispatch] in a reachable state with a
    request queued.  If a rebuild is due ([dirty] has reached
    ALGOT_DIRTY_COUNT) or a cell of the window [opt_s .. opt_e] still
    points to a request, the call hands out a request.  Otherwise, no
    rebuild due and the window holding only MERGED cells, the call does
    not return: it ends in the load through a sentinel pointer in lines
    218-227, the queued requests unserved. *)
Theorem dispatch_outcome_with_requests_pending
  (calc_max : Z) (wild_load : Z → option Z) (nd : algot_data) :
  1 ≤ calc_max < 2 ^ 32 → wild_load 1 = None →
  reachable calc_max wild_load nd →
  sort_queue nd ≠ [] ∨ wait_queue nd ≠ [] →
  (ALGOT_DIRTY_COUNT ≤ dirty nd ∨ window_pending nd →
   ∃ rq nd', algot_dispatch calc_max wild_load nd = Ok (Some rq, nd')) ∧
  (dirty nd < ALGOT_DIRTY_COUNT → ¬ window_pending nd →
   algot_dispatch calc_max wild_load nd = Undef).
Proof.
  intros Hcap Htrap Hpl%(reachable_planned calc_max wild_load Hcap Htrap).
  now apply algot_dispatch_outcome.
Qed.

Lemma dispatch_outcome_with_requests_pending_witness :
  (1 ≤ ALGOT_CALC_MAX < 2 ^ 32 ∧
   reachable ALGOT_CALC_MAX (fun _ => None) merge_drained_state ∧
   (sort_queue merge_drained_state ≠ [] ∨ wait_queue merge_drained_state ≠ []) ∧
   dirty merge_drained_state < ALGOT_DIRTY_COUNT ∧
   ¬ window_pending merge_drained_state) ∧
  algot_dispatch ALGOT_CALC_MAX (fun _ => None) merge_drained_state = Undef.
Proof.
  split.
  - split; [exact source_bound|]. split; [exact merge_drained_state_reachable|].
    split; [exact merge_drained_state_pending|].
    split; [exact merge_drained_state_dirty | exact merge_drained_state_window].
  - exact (proj2 (dispatch_outcome_with_requests_pending ALGOT_CALC_MAX
                    (fun _ => None) merge_drained_state source_bound eq_refl
                    merge_drained_state_reachable merge_drained_state_pending)
             merge_drained_state_dirty merge_drained_state_window).
Defined.

(** X8. When a load through the pointer 0x1 traps, no dispatch the host
    can ask for reaches BUG() at line 252, and none exhausts the budget
    of the model: in every reachable state [algot_dispatch] either
    returns or ends in an access the C code leaves undefined.  A call
    that finds both ends of the window on DISPATCHED cells ends in the
    trapping load of lines 226-227; in [backward_overrun_state] the call
    ends earlier, in the loop of line 221, which steps below cell 0 and
    reads outside [sorted]. *)
Theorem reachable_dispatch_no_bug
  (calc_max : Z) (wild_load : Z → option Z) (nd : algot_data) :
  1 ≤ calc_max < 2 ^ 32 → wild_load 1 = None →
  reachable calc_max wild_load nd →
  algot_dispatch calc_max wild_load nd ≠ Bug ∧
  algot_dispatch calc_max wild_load nd ≠ NoFuel.
Proof.
  intros Hcap Htrap Hpl%(reachable_planned calc_max wild_load Hcap Htrap).
  destruct (pending_dec nd) as [[Hsq Hwq] | Hpend].
  - rewrite (algot_dispatch_idle calc_max wild_load nd Hsq Hwq).
    split; discriminate.
  - rewrite (algot_dispatch_pending calc_max wild_load nd Hpend).
    destruct (dispatch_plan calc_max wild_load Hcap nd Hpl Hpend)
      as (nd1 & -> & _ & Hwin1 & _).
    cbn [obind].
    pose proof (pick_opt_no_bug calc_max wild_load Hcap Htrap
                  (S (Z.to_nat calc_max)) nd1 Hwin1) as Hbug.
    pose proof (pick_opt_no_fuel calc_max wild_load Hcap
                  (S (Z.to_nat calc_max)) nd1) as Hfuel.
    destruct (pick_opt _ _ _ nd1) as [[r nd2]| | |]; cbn [obind];
      split; try discriminate; intros _;
      [exact (Hbug eq_refl) | exact (Hfuel eq_refl)].
Qed.

Lemma reachable_dispatch_no_bug_witness :
  (1 ≤ ALGOT_CALC_MAX < 2 ^ 32 ∧
   reachable ALGOT_CALC_MAX (fun _ => None) backward_overrun_state) ∧
  (algot_dispatch ALGOT_CALC_MAX (fun _ => None) backward_overrun_state ≠ Bug ∧
   algot_dispatch ALGOT_CALC_MAX (fun _ => None) backward_overrun_state ≠ NoFuel) ∧
  algot_dispatch ALGOT_CALC_MAX (fun _ => None) backward_overrun_state = Undef ∧
  skip_merged ALGOT_CALC_MAX (sorted backward_overrun_state) (fun e => u32 (e - 1))
    (S (Z.to_nat ALGOT_CALC_MAX)) (opt_e backward_overrun_state) = Undef.
Proof.
  split; [split; [exact source_bound | exact backward_overrun_state_reachable]|].
  split; [|split; vm_compute; reflexivity].
  exact (reachable_dispatch_no_bug ALGOT_CALC_MAX (fun _ => None)
           backward_overrun_state source_bound eq_refl
           backward_overrun_state_reachable).
Defined.

(** X17. Once a dispatch has returned a request, later dispatches keep
    returning requests however many requests are admitted in between:
    the state a dispatch leaves has a request in its window or a rebuild
    due, and admissions preserve that.  A dispatch can therefore only
    fail after a merge notification.  [dirty] cannot overflow on the way:
    the dispatch leaves it at most ALGOT_DIRTY_COUNT and the admissions
    make at most [calc_max] sort-ins, which is why [calc_max] is taken
    to be at most INT_MAX - ALGOT_DIRTY_COUNT. *)
Theorem admissions_after_a_dispatch_keep_it_serving
  (calc_max : Z) (wild_load : Z → option Z) (nd nd' : algot_data)
  (rq : request) (rqs : list request) :
  1 ≤ calc_max ≤ INT_MAX - ALGOT_DIRTY_COUNT → wild_load 1 = None →
  reachable calc_max wild_load nd →
  algot_dispatch calc_max wild_load nd = Ok (Some rq, nd') →
  NoDup (map rq_id (rqs ++ sort_queue nd' ++ wait_queue nd')) →
  let nd2 := admit_all calc_max rqs nd' in
  sort_queue nd2 ≠ [] ∨ wait_queue nd2 ≠ [] →
  ∃ rq2 nd3, algot_dispatch calc_max wild_load nd2 = Ok (Some rq2, nd3).
Proof.
  intros Hint Htrap Hreach Hrun Hnd nd2 Hpend.
  assert (Hcap : 1 ≤ calc_max < 2 ^ 32)
    by (unfold INT_MAX, ALGOT_DIRTY_COUNT in Hint; lia).
  pose proof (reachable_planned calc_max wild_load Hcap Htrap nd Hreach) as Hpl.
  destruct (reachable_consistent_counter calc_max wild_load Hcap Htrap nd Hreach)
    as [_ Hd0].
  destruct (algot_dispatch_result calc_max wild_load Hcap Htrap nd nd' rq Hpl Hrun)
    as (nd1 & i & _ & _ & Hs & _).
  assert (Hcb : counter_bounded nd').
  { destruct (algot_dispatch_dirty calc_max wild_load nd nd' (Some rq) Hrun)
      as [[Hnone _] | Hd]; [discriminate Hnone|].
    specialize (Hd Hd0). destruct Hs as [[[Hb _] _ _ _ _ _] _].
    unfold counter_bounded. lia. }
  destruct (admit_all_serviceable calc_max Hcap rqs nd' ltac:(lia) Hs Hcb Hnd)
    as [Hs2 _].
  destruct (algot_dispatch_serviceable calc_max wild_load Hcap nd2 Hs2 Hpend)
    as (r & nd3 & Hrun3 & _).
  eauto.
Qed.

Lemma admissions_after_a_dispatch_keep_it_serving_witness :
  (1 ≤ ALGOT_CALC_MAX ≤ INT_MAX - ALGOT_DIRTY_COUNT ∧
   reachable ALGOT_CALC_MAX (fun _ => None) two_queued ∧
   algot_dispatch ALGOT_CALC_MAX (fun _ => None) two_queued
   = Ok (Some (mk_rq 1 10), one_left) ∧
   NoDup (map rq_id ([mk_rq 3 30] ++ sort_queue one_left ++ wait_queue one_left)) ∧
   (sort_queue (admit_all ALGOT_CALC_MAX [mk_rq 3 30] one_left) ≠ [] ∨
    wait_queue (admit_all ALGOT_CALC_MAX [mk_rq 3 30] one_left) ≠ [])) ∧
  ∃ rq2 nd3, algot_dispatch ALGOT_CALC_MAX (fun _ => None)
               (admit_all ALGOT_CALC_MAX [mk_rq 3 30] one_left)
             = Ok (Some rq2, nd3).
Proof.
  split.
  - split; [exact source_counter_bound|]. split; [exact two_queued_reachable|].
    split; [exact two_queued_dispatch|].
    split; [exact one_left_fresh_ids | exact one_left_admit_pending].
  - exact (admissions_after_a_dispatch_keep_it_serving ALGOT_CALC_MAX (fun _ => None)
             two_queued one_left (mk_rq 1 10) [mk_rq 3 30]
             source_counter_bound eq_refl two_queued_reachable two_queued_dispatch
             one_left_fresh_ids one_left_admit_pending).
Defined.

(** ** Runs without merge notifications *)

(** X9. As long as the host only admits and dispatches, a dispatch with
    a request queued always hands one out, whatever a load through a
    sentinel pointer would do: when no rebuild is due the window still
    has a cell that points to a request.  The request handed out leaves
    the lists, no other does, and the arm moves to its sector.  In such
    runs [dirty] never exceeds [calc_max + ALGOT_DIRTY_COUNT], so it
    cannot overflow when that sum is at most INT_MAX. *)
Theorem unmerged_dispatch_always_serves
  (calc_max : Z) (wild_load : Z → option Z) (nd : algot_data) :
  1 ≤ calc_max ≤ INT_MAX - ALGOT_DIRTY_COUNT →
  reachable_unmerged calc_max wild_load nd →
  sort_queue nd ≠ [] ∨ wait_queue nd ≠ [] →
  (dirty nd < ALGOT_DIRTY_COUNT → window_pending nd) ∧
  ∃ rq nd', algot_dispatch calc_max wild_load nd = Ok (Some rq, nd') ∧
            (sort_queue nd ++ wait_queue nd
             ≡ₚ rq :: sort_queue nd' ++ wait_queue nd') ∧
            rw_head nd' = blk_rq_pos rq.
Proof.
  intros Hint Hreach Hpend.
  assert (Hcap : 1 ≤ calc_max < 2 ^ 32)
    by (unfold INT_MAX, ALGOT_DIRTY_COUNT in Hint; lia).
  destruct (reachable_unmerged_serviceable calc_max wild_load Hcap nd
              ltac:(lia) Hreach) as [Hs _].
  split.
  - intros Hd. destruct Hs as [_ [Hd' | [(_ & Hsq & Hwq) | [_ Hw]]]];
      [lia | destruct Hpend; contradiction | exact Hw].
  - destruct (algot_dispatch_serviceable calc_max wild_load Hcap nd Hs Hpend)
      as (r & nd' & Hrun & _ & Hperm & Hhead).
    eauto.
Qed.

Lemma unmerged_dispatch_always_serves_witness :
  (1 ≤ ALGOT_CALC_MAX ≤ INT_MAX - ALGOT_DIRTY_COUNT ∧
   reachable_unmerged ALGOT_CALC_MAX (fun _ => None) two_queued ∧
   (sort_queue two_queued ≠ [] ∨ wait_queue two_queued ≠ [])) ∧
  ∃ rq nd', algot_dispatch ALGOT_CALC_MAX (fun _ => None) two_queued
            = Ok (Some rq, nd') ∧
            (sort_queue two_queued ++ wait_queue two_queued
             ≡ₚ rq :: sort_queue nd' ++ wait_queue nd') ∧
            rw_head nd' = blk_rq_pos rq.
Proof.
  split; [split; [exact source_counter_bound
                 | split; [exact two_queued_unmerged | exact two_queued_pending]]|].
  exact (proj2 (unmerged_dispatch_always_serves ALGOT_CALC_MAX (fun _ => None)
                  two_queued source_counter_bound two_queued_unmerged
                  two_queued_pending)).
Defined.

(** X10. As long as the host only admits and dispatches, as many calls
    of [algot_dispatch] as there are requests on the two lists hand out
    every one of them, each once; the next call returns 0 and changes
    nothing, and [algot_exit_queue] then passes its BUG_ON.  ([calc_max]
    is at most INT_MAX - ALGOT_DIRTY_COUNT, so that [dirty] cannot
    overflow in such a run.) *)
Theorem unmerged_queue_drains_completely
  (calc_max : Z) (wild_load : Z → option Z) (nd : algot_data) :
  1 ≤ calc_max ≤ INT_MAX - ALGOT_DIRTY_COUNT →
  reachable_unmerged calc_max wild_load nd →
  ∃ l nd',
    dispatch_n calc_max wild_load (length (sort_queue nd ++ wait_queue nd)) nd
    = Ok (map Some l, nd') ∧
    l ≡ₚ sort_queue nd ++ wait_queue nd ∧
    algot_dispatch calc_max wild_load nd' = Ok (None, nd') ∧
    algot_exit_queue nd' = Ok tt.
Proof.
  intros Hint Hreach.
  assert (Hcap : 1 ≤ calc_max < 2 ^ 32)
    by (unfold INT_MAX, ALGOT_DIRTY_COUNT in Hint; lia).
  destruct (reachable_unmerged_serviceable calc_max wild_load Hcap nd
              ltac:(lia) Hreach) as [Hs _].
  destruct (dispatch_n_serviceable calc_max wild_load Hcap _ nd Hs eq_refl)
    as (l & nd' & Hrun & Hperm & Hsq & Hwq & _).
  exists l, nd'. split; [exact Hrun|]. split; [exact Hperm|].
  split; [now apply algot_dispatch_idle|].
  unfold algot_exit_queue. now rewrite Hsq.
Qed.

Lemma unmerged_queue_drains_completely_witness :
  (1 ≤ ALGOT_CALC_MAX ≤ INT_MAX - ALGOT_DIRTY_COUNT ∧
   reachable_unmerged ALGOT_CALC_MAX (fun _ => None) two_queued) ∧
  ∃ l nd',
    dispatch_n ALGOT_CALC_MAX (fun _ => None)
      (length (sort_queue two_queued ++ wait_queue two_queued)) two_queued
    = Ok (map Some l, nd') ∧
    l ≡ₚ sort_queue two_queued ++ wait_queue two_queued ∧
    algot_dispatch ALGOT_CALC_MAX (fun _ => None) nd' = Ok (None, nd') ∧
    algot_exit_queue nd' = Ok tt.
Proof.
  split; [split; [exact source_counter_bound | exact two_queued_unmerged]|].
  exact (unmerged_queue_drains_completely ALGOT_CALC_MAX (fun _ => None)
           two_queued source_counter_bound two_queued_unmerged).
Defined.

(** ** Initialisation *)

(** X11. When the state block itself is allocated, [algot_init_queue]
    returns it exactly when [sorted] is allocated and the matrix is, by
    kmalloc or else by vmalloc; it returns NULL otherwise.  The state
    returned has empty lists, the arm at sector 0, [nsorted = 0] and
    [dirty = ALGOT_DIRTY_COUNT - 1], and [vloc] tells whether the matrix
    came from vmalloc; [opt_s], [opt_e] and [opt_ns] are not assigned. *)
Theorem init_queue_outcome (a : allocations) (mem : algot_data) :
  kmalloc_nd a = true →
  algot_init_queue a mem
  = Ok (if kmalloc_sorted a && (kmalloc_cost_matrix a || vmalloc_cost_matrix a)
        then Some (set_vloc (negb (kmalloc_cost_matrix a)) (init_state mem))
        else None).
Proof.
  destruct a as [n kc vc ks]; simpl; intros ->.
  destruct kc, vc, ks; reflexivity.
Qed.

Lemma init_queue_outcome_witness :
  kmalloc_nd vmalloc_fallback = true ∧
  algot_init_queue vmalloc_fallback blank_memory
  = Ok (Some (set_vloc true (init_state blank_memory))).
Proof.
  split; [reflexivity|].
  exact (init_queue_outcome vmalloc_fallback blank_memory eq_refl).
Defined.

(** ** Distances *)

(** X12. For two cells that point to requests at sectors a and b below
    2^64, [sect_dist] returns the distance between a and b on the circle
    of 2^64 sectors: |a - b|, or 2^64 - |a - b| when that is smaller (the
    difference is taken in 64 bits and read as a signed long by abs).  It
    is symmetric in its two indices.  The case |a - b| = 2^63, where abs
    negates LONG_MIN, is left out. *)
Theorem sect_dist_is_circular_distance
  (calc_max : Z) (wild_load : Z → option Z) (sa : gmap Z slot)
  (i j : Z) (ri rj : request) :
  sorted_get calc_max sa i = Ok (REF_RQ ri) →
  sorted_get calc_max sa j = Ok (REF_RQ rj) →
  0 ≤ rq_sector ri < 2 ^ 64 → 0 ≤ rq_sector rj < 2 ^ 64 →
  Z.abs (rq_sector ri - rq_sector rj) ≠ 2 ^ 63 →
  sect_dist calc_max wild_load sa i j
  = Ok (Z.min (Z.abs (rq_sector ri - rq_sector rj))
              (2 ^ 64 - Z.abs (rq_sector ri - rq_sector rj))) ∧
  sect_dist calc_max wild_load sa j i = sect_dist calc_max wild_load sa i j.
Proof.
  intros Hi Hj Hri Hrj Hne.
  rewrite (sect_dist_requests calc_max wild_load sa i j ri rj Hi Hj).
  rewrite (sect_dist_requests calc_max wild_load sa j i rj ri Hj Hi).
  rewrite !abs_long_circular by lia.
  split; [reflexivity|]. f_equal. lia.
Qed.

Lemma sect_dist_is_circular_distance_witness :
  (sorted_get ALGOT_CALC_MAX (sorted scenario_A_started) 1 = Ok (REF_RQ (mk_rq 4 30)) ∧
   sorted_get ALGOT_CALC_MAX (sorted scenario_A_started) 3 = Ok (REF_RQ (mk_rq 3 80)) ∧
   0 ≤ rq_sector (mk_rq 4 30) < 2 ^ 64 ∧ 0 ≤ rq_sector (mk_rq 3 80) < 2 ^ 64 ∧
   Z.abs (rq_sector (mk_rq 4 30) - rq_sector (mk_rq 3 80)) ≠ 2 ^ 63) ∧
  sect_dist ALGOT_CALC_MAX (fun _ => None) (sorted scenario_A_started) 1 3
  = Ok (Z.min (Z.abs (rq_sector (mk_rq 4 30) - rq_sector (mk_rq 3 80)))
              (2 ^ 64 - Z.abs (rq_sector (mk_rq 4 30) - rq_sector (mk_rq 3 80)))).
Proof.
  assert (H1 : sorted_get ALGOT_CALC_MAX (sorted scenario_A_started) 1
               = Ok (REF_RQ (mk_rq 4 30))) by (vm_compute; reflexivity).
  assert (H2 : sorted_get ALGOT_CALC_MAX (sorted scenario_A_started) 3
               = Ok (REF_RQ (mk_rq 3 80))) by (vm_compute; reflexivity).
  assert (H3 : 0 ≤ rq_sector (mk_rq 4 30) < 2 ^ 64) by (simpl; lia).
  assert (H4 : 0 ≤ rq_sector (mk_rq 3 80) < 2 ^ 64) by (simpl; lia).
  assert (H5 : Z.abs (rq_sector (mk_rq 4 30) - rq_sector (mk_rq 3 80)) ≠ 2 ^ 63)
    by (simpl; lia).
  split; [auto 10|].
  exact (proj1 (sect_dist_is_circular_distance ALGOT_CALC_MAX (fun _ => None)
                  (sorted scenario_A_started) 1 3 (mk_rq 4 30) (mk_rq 3 80)
                  H1 H2 H3 H4 H5)).
Defined.

(** ** The rebuild *)

(** X13. The cost matrix a rebuild leaves satisfies the recurrence of
    lines 185-199 at every cell of the N x N table, N being [opt_ns]: 0
    on the diagonal, and for i < j, with k = j - i,
    M[i][j] = MIN(k * dist(i,i+1) + M[i+1][j], k * dist(i,j) + M[j][i+1])
    and
    M[j][i] = MIN(k * dist(j,j-1) + M[j-1][i], k * dist(i,j) + M[i][j-1]),
    the sums taken in 64 bits.  No cell is overwritten once its value
    has been read or written; this needs the flat index i * N + j to fit
    in an unsigned int, that is [calc_max * calc_max <= 2^32]. *)
Theorem rebuild_matrix_satisfies_recurrence
  (calc_max : Z) (wild_load : Z → option Z) (nd : algot_data) :
  plan_ready calc_max nd → calc_max * calc_max ≤ 2 ^ 32 →
  ∃ nd', algot_program calc_max wild_load nd = Ok nd' ∧
         ∀ a b, 0 ≤ a < opt_ns nd' → 0 ≤ b < opt_ns nd' →
                cell_rule calc_max wild_load (sorted nd') (opt_ns nd')
                  (cost_matrix nd') a b.
Proof.
  intros Hready Hsq.
  destruct (algot_program_walks calc_max wild_load nd Hready) as [Hlive Hrun].
  destruct (drain_wait_queue_pending calc_max nd Hready) as ([Hb1 Hn1] & Hpos & _).
  cbv zeta in *.
  set (nd1 := drain_wait_queue calc_max (wait_queue nd) nd) in *.
  set (nd4 := place_run _ 0 _) in *.
  destruct (program_matrix_ruled calc_max wild_load (sorted nd4) (nsorted nd1)
              Hlive ltac:(nia) (cost_matrix nd4)) as (mx & Hmx & Hrule); [lia|].
  rewrite Hmx in Hrun. cbn [obind] in Hrun.
  eexists. split; [exact Hrun|].
  destruct (place_run_fields (cscan_order (rw_head nd) (sort_queue nd1)) 0
              (set_opt_ns (nsorted nd1) nd1)) as (_ & _ & _ & _ & _ & Hons).
  cbv zeta in Hons. simpl in Hons. fold nd4 in Hons.
  unfold rebuilt. simpl. fold nd4. rewrite Hons. exact Hrule.
Qed.

Lemma rebuild_matrix_satisfies_recurrence_witness :
  (plan_ready ALGOT_CALC_MAX
     (admit_all ALGOT_CALC_MAX scenario_A (init_state blank_memory)) ∧
   ALGOT_CALC_MAX * ALGOT_CALC_MAX ≤ 2 ^ 32) ∧
  ∃ nd', algot_program ALGOT_CALC_MAX (fun _ => None)
           (admit_all ALGOT_CALC_MAX scenario_A (init_state blank_memory)) = Ok nd' ∧
         ∀ a b, 0 ≤ a < opt_ns nd' → 0 ≤ b < opt_ns nd' →
                cell_rule ALGOT_CALC_MAX (fun _ => None) (sorted nd') (opt_ns nd')
                  (cost_matrix nd') a b.
Proof.
  assert (H : ALGOT_CALC_MAX * ALGOT_CALC_MAX ≤ 2 ^ 32)
    by (unfold ALGOT_CALC_MAX; lia).
  split; [split; [exact scenario_A_plan_ready | exact H]|].
  exact (rebuild_matrix_satisfies_recurrence ALGOT_CALC_MAX (fun _ => None) _
           scenario_A_plan_ready H).
Defined.

(** X16. The loop at the head of [algot_program] takes waiting requests
    in arrival order: the rebuild moves the first k requests of the wait
    queue to the sort queue and leaves the others waiting in their order,
    k being the smaller of the length of the wait queue and the room
    [calc_max - nsorted]; [nsorted] grows by k. *)
Theorem rebuild_takes_waiting_requests_in_order
  (calc_max : Z) (wild_load : Z → option Z) (nd : algot_data) :
  plan_ready calc_max nd →
  let k := Z.to_nat (Z.min (Z.of_nat (length (wait_queue nd)))
                       (calc_max - nsorted nd)) in
  ∃ nd', algot_program calc_max wild_load nd = Ok nd' ∧
         wait_queue nd' = drop k (wait_queue nd) ∧
         sort_queue nd' ≡ₚ sort_queue nd ++ take k (wait_queue nd) ∧
         nsorted nd' = nsorted nd + Z.of_nat k.
Proof.
  intros Hready k.
  destruct (algot_program_result calc_max wild_load nd Hready) as [mx Hrun].
  pose proof Hready as [Hc Hcount Hbound _ _ _].
  assert (Hok : queue_count_ok calc_max nd)
    by (split; [rewrite Hcount at 1|]; lia).
  destruct (drain_wait_queue_prefix calc_max (wait_queue nd) nd ltac:(lia) Hok)
    as (H1 & H2 & H3 & _).
  cbv zeta in *.
  set (nd1 := drain_wait_queue calc_max (wait_queue nd) nd) in *.
  destruct (place_run_fields (cscan_order (rw_head nd) (sort_queue nd1)) 0
              (set_opt_ns (nsorted nd1) nd1))
    as (Hw4 & Hsq4 & _ & _ & Hns4 & _).
  cbv zeta in *. simpl in Hw4, Hsq4, Hns4.
  eexists. split; [exact Hrun|]. unfold rebuilt; simpl.
  rewrite Hw4, Hsq4, Hns4. auto.
Qed.

Lemma rebuild_takes_waiting_requests_in_order_witness :
  plan_ready 2 one_waiting ∧
  wait_queue one_waiting = [mk_rq 3 30] ∧
  ∃ nd', algot_program 2 (fun _ => None) one_waiting = Ok nd' ∧
         wait_queue nd' = [] ∧
         sort_queue nd' ≡ₚ sort_queue one_waiting ++ [mk_rq 3 30] ∧
         nsorted nd' = nsorted one_waiting + 1.
Proof.
  destruct one_waiting_queues as (Hsq & Hwq & Hn).
  split; [exact one_waiting_plan_ready|]. split; [exact Hwq|].
  destruct (rebuild_takes_waiting_requests_in_order 2 (fun _ => None) one_waiting
              one_waiting_plan_ready) as (nd' & H1 & H2 & H3 & H4).
  rewrite Hwq, Hn in H2, H3, H4. exists nd'.
  split; [exact H1|]. split; [exact H2|]. split; [exact H3 | exact H4].
Defined.

(** ** Neighbours *)

(** X14. For a request linked on the sort queue or on the wait queue of
    a reachable state, [algot_former_request] returns the request linked
    just before it on that same list and [algot_latter_request] the one
    just after it; each returns NULL at the end of the list, for either
    list. *)
Theorem former_latter_are_list_neighbours
  (calc_max : Z) (wild_load : Z → option Z) (nd : algot_data)
  (rq : request) (l1 l2 : list request) :
  1 ≤ calc_max < 2 ^ 32 → wild_load 1 = None →
  reachable calc_max wild_load nd →
  sort_queue nd = l1 ++ rq :: l2 ∨ wait_queue nd = l1 ++ rq :: l2 →
  algot_former_request nd rq = Ok (last l1) ∧
  algot_latter_request nd rq = Ok (head l2).
Proof.
  intros Hcap Htrap
    [_ _ Hnd _ _ _]%(reachable_consistent calc_max wild_load Hcap Htrap) Hon.
  now apply neighbours_on_list.
Qed.

Lemma former_latter_are_list_neighbours_witness :
  (1 ≤ ALGOT_CALC_MAX < 2 ^ 32 ∧
   reachable ALGOT_CALC_MAX (fun _ => None) two_queued ∧
   (sort_queue two_queued = [] ++ mk_rq 1 10 :: [mk_rq 2 20] ∨
    wait_queue two_queued = [] ++ mk_rq 1 10 :: [mk_rq 2 20])) ∧
  algot_former_request two_queued (mk_rq 1 10) = Ok None ∧
  algot_latter_request two_queued (mk_rq 1 10) = Ok (Some (mk_rq 2 20)).
Proof.
  split; [split; [exact source_bound
                 | split; [exact two_queued_reachable | exact two_queued_split]]|].
  exact (former_latter_are_list_neighbours ALGOT_CALC_MAX (fun _ => None)
           two_queued (mk_rq 1 10) [] [mk_rq 2 20]
           source_bound eq_refl two_queued_reachable two_queued_split).
Defined.

(** X15. In a reachable state the two functions undo each other: the
    successor of a request's predecessor, and the predecessor of its
    successor, is the request itself.  A neighbour is on the list the
    request is on; on the sort queue the predecessor's sector is not
    above the request's and the successor's not below it, while on the
    wait queue the neighbours are the arrivals before and after it,
    whatever their sectors. *)
Theorem former_latter_round_trip
  (calc_max : Z) (wild_load : Z → option Z) (nd : algot_data) (rq : request) :
  1 ≤ calc_max < 2 ^ 32 → wild_load 1 = None →
  reachable calc_max wild_load nd →
  rq ∈ sort_queue nd ++ wait_queue nd →
  (∀ p, algot_former_request nd rq = Ok (Some p) →
        algot_latter_request nd p = Ok (Some rq) ∧
        (rq ∈ sort_queue nd → p ∈ sort_queue nd ∧ rq_sector p ≤ rq_sector rq) ∧
        (rq ∈ wait_queue nd → p ∈ wait_queue nd)) ∧
  (∀ n, algot_latter_request nd rq = Ok (Some n) →
        algot_former_request nd n = Ok (Some rq) ∧
        (rq ∈ sort_queue nd → n ∈ sort_queue nd ∧ rq_sector rq ≤ rq_sector n) ∧
        (rq ∈ wait_queue nd → n ∈ wait_queue nd)).
Proof.
  intros Hcap Htrap
    [_ Hasc Hnd _ _ _]%(reachable_consistent calc_max wild_load Hcap Htrap) Hin.
  now apply neighbours_round_trip.
Qed.

Lemma former_latter_round_trip_witness :
  (1 ≤ ALGOT_CALC_MAX < 2 ^ 32 ∧
   reachable ALGOT_CALC_MAX (fun _ => None) two_queued ∧
   mk_rq 2 20 ∈ sort_queue two_queued ++ wait_queue two_queued) ∧
  ∀ p, algot_former_request two_queued (mk_rq 2 20) = Ok (Some p) →
       algot_latter_request two_queued p = Ok (Some (mk_rq 2 20)).
Proof.
  split; [split; [exact source_bound
                 | split; [exact two_queued_reachable
                          | exact two_queued_holds_second]]|].
  intros p Hp.
  exact (proj1 (proj1 (former_latter_round_trip ALGOT_CALC_MAX (fun _ => None)
                         two_queued (mk_rq 2 20) source_bound eq_refl
                         two_queued_reachable two_queued_holds_second) p Hp)).
Defined.
